(** * tw2panda: utility classes to nested style objects

    A shallow embedding of the parts of tw2panda that turn Tailwind class
    lists into Panda style objects and mine a project for patterns:

    - [tw-class-list-to-panda-styles.ts]: token formatting and the
      condition nesting of modifiers;
    - [rewrite-tw-file-content-to-panda.ts]: the split of a class list
      into utilities, marker classes and custom classes;
    - [analyze-project.ts]: token usage, pattern detection, clustering,
      recipe names and the effort estimate;
    - [batch-processor.ts]: per-file processing and the batch summary;
    - [tw-context.ts]: the cached design system.

    JavaScript strings are embedded as Rocq strings (sequences of 8-bit
    characters); the character classes of the regular expressions are the
    ASCII ones.  A JavaScript object used as a dictionary is a [gmap]
    (with the names that it inherits from [Object.prototype] beside it,
    where the source reads it with an arbitrary key), an insertion-ordered
    [Map] is an association list.  Quantities that the
    source computes on numbers are integers ([Z]) or exact rationals ([Q]). *)

From Stdlib Require Import ZArith QArith Qround Lia Ascii String List Bool DecimalString.
From stdpp Require Import base option list gmap sets strings sorting.

Close Scope Q_scope.
Open Scope Z_scope.
Set Warnings "-register-all,-clear-no-such-hyp".

(* ===================================================================== *)
(** * Part I: the embedding                                              *)
(* ===================================================================== *)

(** ** JavaScript string primitives *)

Module Js.

Definition code (c : ascii) : N := N_of_ascii c.

Definition isDigit (c : ascii) : bool := ((48 <=? code c) && (code c <=? 57))%N.
Definition isLower (c : ascii) : bool := ((97 <=? code c) && (code c <=? 122))%N.
Definition isUpper (c : ascii) : bool := ((65 <=? code c) && (code c <=? 90))%N.

(** [\w] *)
Definition isWordChar (c : ascii) : bool :=
  isDigit c || isLower c || isUpper c || Ascii.eqb c "_".

(** [\s] *)
Definition isSpace (c : ascii) : bool := Ascii.is_space c.

(** [[0-9a-fA-F]] *)
Definition isHexDigit (c : ascii) : bool :=
  isDigit c
  || ((97 <=? code c) && (code c <=? 102))%N
  || ((65 <=? code c) && (code c <=? 70))%N.

Definition toUpperCase (c : ascii) : ascii :=
  if isLower c then ascii_of_N (code c - 32) else c.

Definition toLowerCase (c : ascii) : ascii :=
  if isUpper c then ascii_of_N (code c + 32) else c.

Fixpoint stringToLowerCase (s : string) : string :=
  match s with
  | EmptyString => EmptyString
  | String c r => String (toLowerCase c) (stringToLowerCase r)
  end.

(** [s.startsWith(p)] *)
Definition startsWith (p s : string) : bool := String.prefix p s.

(** [s.endsWith(p)] *)
Definition endsWith (p s : string) : bool :=
  String.prefix (String.rev p) (String.rev s).

(** The rest of [s] after the prefix [p], when [s] starts with [p]. *)
Fixpoint stripPrefix (p s : string) : option string :=
  match p, s with
  | EmptyString, _ => Some s
  | String a p', String b s' => if Ascii.eqb a b then stripPrefix p' s' else None
  | String _ _, EmptyString => None
  end.

(** [s.includes(needle)] *)
Fixpoint includes (needle s : string) : bool :=
  startsWith needle s
  || match s with
     | EmptyString => false
     | String _ r => includes needle r
     end.

Fixpoint trimStart (s : string) : string :=
  match s with
  | String c r => if isSpace c then trimStart r else s
  | EmptyString => EmptyString
  end.

Definition trimEnd (s : string) : string :=
  String.rev (trimStart (String.rev s)).

(** [s.trim()] *)
Definition trim (s : string) : string := trimEnd (trimStart s).

(** The longest prefix of [s] whose characters satisfy [p], and the rest. *)
Fixpoint span (p : ascii -> bool) (s : string) : string * string :=
  match s with
  | String c r =>
      if p c then let '(a, b) := span p r in (String c a, b) else (EmptyString, s)
  | EmptyString => (EmptyString, EmptyString)
  end.

Fixpoint forallb (p : ascii -> bool) (s : string) : bool :=
  match s with
  | String c r => p c && forallb p r
  | EmptyString => true
  end.

(** [s.split(sep)] for a one-character separator. *)
Fixpoint split (sep : ascii) (s : string) : list string :=
  match s with
  | EmptyString => [EmptyString]
  | String c r =>
      if Ascii.eqb c sep then EmptyString :: split sep r
      else match split sep r with
           | h :: t => String c h :: t
           | [] => [String c EmptyString]
           end
  end.

(** [parts.join(sep)] *)
Fixpoint join (sep : string) (parts : list string) : string :=
  match parts with
  | [] => EmptyString
  | [p] => p
  | p :: rest => p +:+ sep +:+ join sep rest
  end.

(** A string is truthy when it is not empty. *)
Definition truthy (s : string) : bool := negb (String.eqb s EmptyString).

(** [list.includes(x)] on strings. *)
Definition listIncludes (x : string) (l : list string) : bool :=
  existsb (String.eqb x) l.

(** [array.sort()] with the default comparator: a stable insertion sort by
    the code-unit order of strings. *)
Fixpoint sortInsert (x : string) (l : list string) : list string :=
  match l with
  | [] => [x]
  | y :: r => if String.ltb x y then x :: l else y :: sortInsert x r
  end.

Definition sort (l : list string) : list string := foldr sortInsert [] l.

(** [[...new Set(l)]]: the elements of [l] in order of first occurrence. *)
Fixpoint dedupe (seen : list string) (l : list string) : list string :=
  match l with
  | [] => []
  | x :: r => if listIncludes x seen then dedupe seen r else x :: dedupe (x :: seen) r
  end.

Definition uniq (l : list string) : list string := dedupe [] l.

End Js.

(** ** Style objects *)

(** A nested style object: a string leaf or an object with ordered keys. *)
Inductive StyleObject : Type :=
| SValue (v : string)
| SObject (fields : list (string * StyleObject)).

(** Modelled from the spec: the parsed candidate of [tw-parser] (its source
    is not part of the repository files at hand): the value, the ordered
    modifier list, the important flag, and the [permutations] field that the
    converter tests for presence. *)
Record TailwindClass : Type := mkTailwindClass {
  className : string;
  value : option string;
  permutations : option (list (list string));
  modifiers : list string;
  isImportant : bool;
}.

Record MatchingToken : Type := mkMatchingToken {
  propName : string;
  tokenName : string;
  rawValue : string;
  classInfo : TailwindClass;
}.

Record ParsedCssProperty : Type := mkParsedCssProperty {
  cssPropName : string;
  tokenPath : string;
  cssRawValue : string;
}.

(** The design system of Tailwind, as the converter uses it. *)
Record TailwindContext : Type := mkTailwindContext {
  candidatesToCss : list string -> list (option string);
  parseCandidate : string -> list string;
  resolveThemeValue : string -> option string;
}.

(** A registered condition: an object, hence always truthy. *)
Record ConditionDetails : Type := mkCondition { raw : string }.

(** The Panda context, as the converter uses it: the registered conditions
    ([panda.conditions.values]) and, per property, whether the utility has
    property values ([prop && panda.utility.getPropertyValues(prop)]). *)
Record PandaContext : Type := mkPandaContext {
  conditions_values : gmap string ConditionDetails;
  utilityPropertyValues : string -> bool;
}.

(** ** tw-class-list-to-panda-styles.ts *)

Module Styles.

(** [str.replace(/(-\w)/g, (group) => group[1].toUpperCase())] *)
Fixpoint kebabToCamel (str : string) : string :=
  match str with
  | EmptyString => EmptyString
  | String c rest =>
      if Ascii.eqb c "-" then
        match rest with
        | String d rest' =>
            if Js.isWordChar d then String (Js.toUpperCase d) (kebabToCamel rest')
            else String c (kebabToCamel rest)
        | EmptyString => String c EmptyString
        end
      else String c (kebabToCamel rest)
  end.

(** The entries of the property to token category table. *)
Definition PROP_TO_TOKEN_CATEGORY_entries : list (string * string) :=
  [ ("color", "colors"); ("backgroundColor", "colors"); ("borderColor", "colors");
    ("borderTopColor", "colors"); ("borderRightColor", "colors");
    ("borderBottomColor", "colors"); ("borderLeftColor", "colors");
    ("outlineColor", "colors"); ("fill", "colors"); ("stroke", "colors");
    ("caretColor", "colors"); ("accentColor", "colors");
    ("textDecorationColor", "colors");
    ("fontSize", "fontSizes"); ("fontWeight", "fontWeights");
    ("fontFamily", "fonts"); ("lineHeight", "lineHeights");
    ("letterSpacing", "letterSpacings");
    ("width", "sizes"); ("height", "sizes"); ("minWidth", "sizes");
    ("minHeight", "sizes"); ("maxWidth", "sizes"); ("maxHeight", "sizes");
    ("padding", "spacing"); ("paddingTop", "spacing"); ("paddingRight", "spacing");
    ("paddingBottom", "spacing"); ("paddingLeft", "spacing");
    ("paddingInline", "spacing"); ("paddingBlock", "spacing");
    ("margin", "spacing"); ("marginTop", "spacing"); ("marginRight", "spacing");
    ("marginBottom", "spacing"); ("marginLeft", "spacing");
    ("marginInline", "spacing"); ("marginBlock", "spacing");
    ("gap", "spacing"); ("rowGap", "spacing"); ("columnGap", "spacing");
    ("top", "spacing"); ("right", "spacing"); ("bottom", "spacing");
    ("left", "spacing"); ("inset", "spacing");
    ("borderRadius", "radii"); ("borderTopLeftRadius", "radii");
    ("borderTopRightRadius", "radii"); ("borderBottomLeftRadius", "radii");
    ("borderBottomRightRadius", "radii");
    ("borderWidth", "borderWidths"); ("borderTopWidth", "borderWidths");
    ("borderRightWidth", "borderWidths"); ("borderBottomWidth", "borderWidths");
    ("borderLeftWidth", "borderWidths");
    ("boxShadow", "shadows"); ("opacity", "opacity"); ("zIndex", "zIndex");
    ("transitionDuration", "durations"); ("transitionTimingFunction", "easings");
    ("animationDuration", "durations"); ("animationTimingFunction", "easings") ].

(** Map CSS property names to Panda token categories: the properties of
    the object literal itself. *)
Definition PROP_TO_TOKEN_CATEGORY : gmap string string :=
  list_to_map PROP_TO_TOKEN_CATEGORY_entries.

(** The text that a template literal makes of a built-in function. *)
Definition nativeFunctionText (name : string) : string :=
  "function " +:+ name +:+ "() { [native code] }".

(** The table is a plain object, so a lookup that finds no property of
    its own goes on to [Object.prototype]: the names found there, each with
    the text that a template literal makes of the value (a built-in
    function, or [Object.prototype] itself for [__proto__]).  All these
    values are truthy. *)
Definition OBJECT_PROTOTYPE_entries : list (string * string) :=
  [ ("constructor", nativeFunctionText "Object");
    ("__defineGetter__", nativeFunctionText "__defineGetter__");
    ("__defineSetter__", nativeFunctionText "__defineSetter__");
    ("hasOwnProperty", nativeFunctionText "hasOwnProperty");
    ("__lookupGetter__", nativeFunctionText "__lookupGetter__");
    ("__lookupSetter__", nativeFunctionText "__lookupSetter__");
    ("isPrototypeOf", nativeFunctionText "isPrototypeOf");
    ("propertyIsEnumerable", nativeFunctionText "propertyIsEnumerable");
    ("toString", nativeFunctionText "toString");
    ("valueOf", nativeFunctionText "valueOf");
    ("__proto__", "[object Object]");
    ("toLocaleString", nativeFunctionText "toLocaleString") ].

Definition OBJECT_PROTOTYPE : gmap string string :=
  list_to_map OBJECT_PROTOTYPE_entries.

(** [PROP_TO_TOKEN_CATEGORY[propName]], as the text it gives in a template
    literal: the property of the table itself, else the inherited one;
    [None] for [undefined]. *)
Definition categoryLookup (propName : string) : option string :=
  match PROP_TO_TOKEN_CATEGORY !! propName with
  | Some category => Some category
  | None => OBJECT_PROTOTYPE !! propName
  end.

(** [/^#[0-9a-fA-F]{3,8}$/] *)
Definition hexColor (v : string) : bool :=
  match v with
  | String "#" h =>
      Js.forallb Js.isHexDigit h
      && (3 <=? String.length h)%nat && (String.length h <=? 8)%nat
  | _ => false
  end.

(** [/^(rgb|rgba|hsl|hsla|oklch|oklab|lab|lch)\(/] *)
Definition colorFunction (v : string) : bool :=
  existsb (fun f => Js.startsWith (f +:+ "(") v)
    ["rgb"; "rgba"; "hsl"; "hsla"; "oklch"; "oklab"; "lab"; "lch"].

Definition cssUnits : list string :=
  ["%"; "px"; "rem"; "em"; "vh"; "vw"; "vmin"; "vmax"; "ch"; "ex"; "cm"; "mm";
   "in"; "pt"; "pc"; "deg"; "rad"; "turn"; "s"; "ms"].

(** [/^-?[\d.]+(%|px|rem|...|s|ms)?$/]: no unit starts with a digit or a
    dot, so the number is the longest run of digits and dots. *)
Definition numberWithUnit (v : string) : bool :=
  let body := match v with String "-" r => r | _ => v end in
  let '(num, rest) := Js.span (fun c => Js.isDigit c || Ascii.eqb c ".") body in
  Js.truthy num && (String.eqb rest "" || Js.listIncludes rest cssUnits).

(** The anchored keyword alternatives, one list per pattern of the source. *)
Definition keywordPatterns : list (list string) :=
  [ ["auto"; "none"; "inherit"; "initial"; "unset"; "revert"; "normal"; "bold";
     "italic"; "block"; "inline"; "flex"; "grid"; "hidden"; "visible";
     "absolute"; "relative"; "fixed"; "sticky"; "static"];
    ["left"; "right"; "center"; "top"; "bottom"; "baseline"; "stretch"; "start";
     "end"; "space-between"; "space-around"; "space-evenly"];
    ["solid"; "dashed"; "dotted"; "double"; "groove"; "ridge"; "inset"; "outset";
     "none"; "hidden"];
    ["uppercase"; "lowercase"; "capitalize"; "none"];
    ["wrap"; "nowrap"; "wrap-reverse"];
    ["row"; "column"; "row-reverse"; "column-reverse"];
    ["cover"; "contain"; "auto"] ].

(** The usable patterns, in the order of the source. *)
Definition usablePatterns : list (string -> bool) :=
  [hexColor; colorFunction; numberWithUnit]
  ++ map (fun kws v => Js.listIncludes v kws) keywordPatterns
  ++ [Js.startsWith "url("; Js.startsWith "calc("].

(** Check if a value is a usable CSS value (not a CSS variable reference). *)
Definition isResolvableValue (value : string) : bool :=
  if Js.includes "var(--" value then false
  else existsb (fun pattern => pattern (Js.trim value)) usablePatterns.

(** The text [token(category.tokenName, rawValue)]. *)
Definition tokenCall (category tokenName rawValue : string) : string :=
  "token(" +:+ category +:+ "." +:+ tokenName +:+ ", " +:+ rawValue +:+ ")".

(** Format a value with [token()] syntax if it is a token reference and a
    usable fallback exists. *)
Definition formatTokenValue (propName tokenName rawValue : string) : string :=
  if String.eqb tokenName rawValue then rawValue
  else if negb (isResolvableValue rawValue) then rawValue
  else match categoryLookup propName with
       | Some category =>
           if Js.truthy category then tokenCall category tokenName rawValue
           else rawValue
       | None => rawValue
       end.

(** The key under which a modifier nests: the prefixed condition when it
    is registered, else the bare (breakpoint) name when registered, else the
    modifier itself. *)
Definition conditionValue (panda : PandaContext) (modifier : string) : string :=
  let camelModifier := kebabToCamel modifier in
  let prefixed := "_" +:+ camelModifier in
  let isPrefixedCondition := bool_decide (is_Some (conditions_values panda !! prefixed)) in
  let isBreakpointCondition := bool_decide (is_Some (conditions_values panda !! camelModifier)) in
  if isPrefixedCondition then prefixed
  else if isBreakpointCondition then camelModifier
  else modifier.

(** [modifiers.reduce((acc, modifier) => ({ [conditionValue]: acc }), init)] *)
Definition nestModifiers (panda : PandaContext) (mods : list string)
    (init : StyleObject) : StyleObject :=
  fold_left (fun acc modifier => SObject [(conditionValue panda modifier, acc)]) mods init.

(** [str.replace("-", ".")]: only the first dash is replaced. *)
Fixpoint replaceFirstDash (s : string) : string :=
  match s with
  | EmptyString => EmptyString
  | String c r => if Ascii.eqb c "-" then String "." r else String c (replaceFirstDash r)
  end.

Section Converter.

(** The candidate parser of [tw-parser] and the declaration tokenizer
    [parseCssProperties] (whose spacing idiom formats a floating-point
    product) are taken as given: what is proved of the converter holds
    whatever they return. *)
Variable parseTwClassName : string -> option TailwindClass.
Variable parseCssProperties : string -> TailwindContext -> list ParsedCssProperty.

Definition matchingToken (tailwind : TailwindContext) (panda : PandaContext)
    (classInfo : TailwindClass) (ruleProp : ParsedCssProperty) : option MatchingToken :=
  let propName := kebabToCamel (cssPropName ruleProp) in
  let propValues := utilityPropertyValues panda propName in
  let candidates := parseCandidate tailwind (tokenPath ruleProp) in
  let tokenName :=
    if (0 <? length candidates)%nat || negb propValues then tokenPath ruleProp
    else replaceFirstDash (default EmptyString (value classInfo)) in
  if negb (Js.truthy tokenName) then None
  else if isImportant classInfo then
    Some (mkMatchingToken propName (tokenName +:+ "!")
            (cssRawValue ruleProp +:+ " !important") classInfo)
  else Some (mkMatchingToken propName tokenName (cssRawValue ruleProp) classInfo).

Definition getMatchingTwCandidates (className : string) (tailwind : TailwindContext)
    (panda : PandaContext) : list MatchingToken :=
  match parseTwClassName className with
  | None => []
  | Some classInfo =>
      if negb (from_option Js.truthy false (value classInfo))
         && negb (bool_decide (is_Some (permutations classInfo)))
      then []
      else match head (candidatesToCss tailwind [className]) with
           | Some (Some css) =>
               if Js.truthy css
               then omap (matchingToken tailwind panda classInfo)
                      (parseCssProperties css tailwind)
               else []
           | _ => []
           end
  end.

(** The style object of one matching token. *)
Definition tokenStyles (panda : PandaContext) (m : MatchingToken) : StyleObject :=
  let formattedValue := formatTokenValue (propName m) (tokenName m) (rawValue m) in
  nestModifiers panda (modifiers (classInfo m))
    (SObject [(propName m, SValue formattedValue)]).

(** Takes a list of Tailwind class names and converts them to a list of
    Panda style objects, one per matching token. *)
Definition twClassListToPandaStyles (classList : list string)
    (tailwind : TailwindContext) (panda : PandaContext)
    : list (MatchingToken * StyleObject) :=
  flat_map
    (fun className =>
       map (fun m => (m, tokenStyles panda m))
         (getMatchingTwCandidates className tailwind panda))
    classList.

End Converter.

End Styles.

(** ** tw-class-list-to-panda-styles.ts: the declarations of a rule *)

Module CssProperties.

(** One match of [/var\(([^)]+)\)/] at the start of [s]: the group and the
    length of the match.  The group is the longest run without a closing
    parenthesis, which must follow it. *)
Definition matchVarAt (s : string) : option (string * nat) :=
  match Js.stripPrefix "var(" s with
  | None => None
  | Some s1 =>
      let '(g, r) := Js.span (fun c => negb (Ascii.eqb c ")")) s1 in
      if negb (Js.truthy g) then None
      else match r with
           | String ")" _ => Some (g, (4 + String.length g + 1)%nat)
           | _ => None
           end
  end.

(** The groups of the successive matches of the global pattern in [s];
    [skip] counts the characters of the last match still to be passed. *)
Fixpoint varMatchesFrom (skip : nat) (s : string) : list string :=
  match s with
  | EmptyString => []
  | String _ r =>
      match skip with
      | S k => varMatchesFrom k r
      | O =>
          match matchVarAt s with
          | Some (g, len) => g :: varMatchesFrom (len - 1) r
          | None => varMatchesFrom 0 r
          end
      end
  end.

Definition varMatches (s : string) : list string := varMatchesFrom 0 s.

(** The text before and after the first occurrence of [needle] in [s]. *)
Fixpoint splitAtFirst (needle s : string) : option (string * string) :=
  match Js.stripPrefix needle s with
  | Some after => Some (EmptyString, after)
  | None =>
      match s with
      | EmptyString => None
      | String c r =>
          match splitAtFirst needle r with
          | Some (before, after) => Some (String c before, after)
          | None => None
          end
      end
  end.

(** The replacement text of [String.prototype.replace] for a string
    pattern: [$$], [$&], [$`] and [$'] are expanded; there are no groups,
    so that any other [$] stands for itself. *)
Fixpoint getSubstitution (matched before after replacement : string) : string :=
  match replacement with
  | EmptyString => EmptyString
  | String "$" (String "$" r) =>
      String "$" (getSubstitution matched before after r)
  | String "$" (String "&" r) =>
      matched +:+ getSubstitution matched before after r
  | String "$" (String "`" r) =>
      before +:+ getSubstitution matched before after r
  | String "$" (String "'" r) =>
      after +:+ getSubstitution matched before after r
  | String c r => String c (getSubstitution matched before after r)
  end.

(** [s.replace(search, replacement)] for a string [search]: the first
    occurrence is replaced. *)
Definition replaceFirst (search replacement s : string) : string :=
  match splitAtFirst search s with
  | Some (before, after) =>
      before +:+ getSubstitution search before after replacement +:+ after
  | None => s
  end.

(** The body of the loop of [resolveCssVariable] for one match. *)
Definition resolveStep (tailwind : TailwindContext) (resolved group : string)
    : string :=
  let varName := Js.trim group in
  if negb (Js.truthy varName) then resolved
  else match resolveThemeValue tailwind varName with
       | Some resolvedValue =>
           if Js.truthy resolvedValue && negb (Js.includes "var(" resolvedValue)
           then replaceFirst ("var(" +:+ group +:+ ")") resolvedValue resolved
           else resolved
       | None => resolved
       end.

(** Resolve the CSS variable references of a value using the theme. *)
Definition resolveCssVariable (value : string) (tailwind : TailwindContext) : string :=
  fold_left (resolveStep tailwind) (varMatches value) value.

(** The prefixes that [varNameToTokenPath] drops, in the order in which
    it tries them. *)
Definition prefixMappings : list string :=
  ["color-"; "text-"; "leading-"; "tracking-"; "font-weight-"; "font-size-";
   "radius-"; "shadow-"; "container-"; "spacing-"].

(** The loop over the prefixes: the first one that matches is dropped. *)
Fixpoint dropFirstPrefix (prefixes : list string) (name : string) : string :=
  match prefixes with
  | [] => name
  | p :: rest =>
      match Js.stripPrefix p name with
      | Some shorter => shorter
      | None => dropFirstPrefix rest name
      end
  end.

(** [name.replace(/-/g, ".")] *)
Fixpoint dashesToDots (s : string) : string :=
  match s with
  | EmptyString => EmptyString
  | String c r => String (if Ascii.eqb c "-" then "."%char else c) (dashesToDots r)
  end.

(** Extract the token path from a CSS variable name. *)
Definition varNameToTokenPath (varName : string) : string :=
  let name := default varName (Js.stripPrefix "--" varName) in
  dashesToDots (dropFirstPrefix prefixMappings name).

(** [[a-z-]] under the flag [i] *)
Definition isPropertyChar (c : ascii) : bool :=
  Js.isLower c || Js.isUpper c || Ascii.eqb c "-".

(** [[^;{}]] *)
Definition isValueChar (c : ascii) : bool :=
  negb (Ascii.eqb c ";" || Ascii.eqb c "{" || Ascii.eqb c "}").

(** One match of [/([a-z-]+)\s*:\s*([^;{}]+);/i] at the start of [s]: the
    two groups and the length of the match.  Each run is the longest one,
    as shorter ones cannot be continued; when the second group would be
    empty, the white space before it gives its last character to it. *)
Definition matchDeclarationAt (s : string) : option (string * string * nat) :=
  let '(g1, r1) := Js.span isPropertyChar s in
  if negb (Js.truthy g1) then None
  else
    let '(w1, r2) := Js.span Js.isSpace r1 in
    match r2 with
    | String ":" r3 =>
        let '(w2, r4) := Js.span Js.isSpace r3 in
        let '(g2, r5) := Js.span isValueChar r4 in
        match r5 with
        | String ";" _ =>
            let len :=
              (String.length g1 + String.length w1 + 1 + String.length w2
               + String.length g2 + 1)%nat in
            if Js.truthy g2 then Some (g1, g2, len)
            else match String.rev w2 with
                 | String w _ => Some (g1, String w EmptyString, len)
                 | EmptyString => None
                 end
        | _ => None
        end
    | _ => None
    end.

(** The successive matches of the global declaration pattern in [s]. *)
Fixpoint declarationMatchesFrom (skip : nat) (s : string) : list (string * string) :=
  match s with
  | EmptyString => []
  | String _ r =>
      match skip with
      | S k => declarationMatchesFrom k r
      | O =>
          match matchDeclarationAt s with
          | Some (g1, g2, len) => (g1, g2) :: declarationMatchesFrom (len - 1) r
          | None => declarationMatchesFrom 0 r
          end
      end
  end.

Definition declarationMatches (s : string) : list (string * string) :=
  declarationMatchesFrom 0 s.

(** One match of [/calc\(var\(--spacing\)\s*\*\s*(\d+(?:\.\d+)?)\)/] at
    the start of [s]: the multiplier. *)
Definition matchSpacingCalcAt (s : string) : option string :=
  match Js.stripPrefix "calc(var(--spacing)" s with
  | None => None
  | Some r1 =>
      match snd (Js.span Js.isSpace r1) with
      | String "*" r3 =>
          let '(d1, r5) := Js.span Js.isDigit (snd (Js.span Js.isSpace r3)) in
          if negb (Js.truthy d1) then None
          else match r5 with
               | String ")" _ => Some d1
               | String "." r6 =>
                   let '(d2, r7) := Js.span Js.isDigit r6 in
                   if negb (Js.truthy d2) then None
                   else match r7 with
                        | String ")" _ => Some (d1 +:+ "." +:+ d2)
                        | _ => None
                        end
               | _ => None
               end
      | _ => None
      end
  end.

(** [originalValue.match(...)]: the first match in [s], if any. *)
Fixpoint spacingCalcMatch (s : string) : option string :=
  match matchSpacingCalcAt s with
  | Some multiplier => Some multiplier
  | None =>
      match s with
      | EmptyString => None
      | String _ r => spacingCalcMatch r
      end
  end.

Section Declarations.

(** The text of the product [baseValue * multiplier] of the two numbers
    that [parseFloat] reads from the base spacing and from the multiplier;
    [None] when one of them is [NaN].  The floating-point product and its
    notation are taken as given. *)
Variable spacingProduct : string -> string -> option string.

(** The body of the loop of [parseCssProperties] for one match: the
    property that is pushed, if any. *)
Definition declarationProperty (tailwind : TailwindContext) (m : string * string)
    : option ParsedCssProperty :=
  let propName := Js.trim (fst m) in
  let originalValue := Js.trim (snd m) in
  if negb (Js.truthy propName) || negb (Js.truthy originalValue) then None
  else if Js.startsWith "--" propName then None
  else if String.eqb propName "syntax" || String.eqb propName "inherits"
          || String.eqb propName "initial-value" then None
  else
    match spacingCalcMatch originalValue with
    | Some multiplier =>
        let rawValue :=
          match resolveThemeValue tailwind "--spacing" with
          | Some baseSpacing =>
              if Js.truthy baseSpacing then
                match spacingProduct baseSpacing multiplier with
                | Some product => product +:+ "rem"
                | None => originalValue
                end
              else originalValue
          | None => originalValue
          end in
        Some (mkParsedCssProperty propName multiplier rawValue)
    | None =>
        if Js.includes "var(--" originalValue then
          let tokenPath :=
            match head (varMatches originalValue) with
            | Some group => varNameToTokenPath group
            | None => originalValue
            end in
          Some (mkParsedCssProperty propName tokenPath
                  (resolveCssVariable originalValue tailwind))
        else Some (mkParsedCssProperty propName originalValue originalValue)
    end.

(** Parse CSS text to extract the properties with their token paths and
    raw values. *)
Definition parseCssProperties (css : string) (tailwind : TailwindContext)
    : list ParsedCssProperty :=
  omap (declarationProperty tailwind) (declarationMatches css).

End Declarations.

End CssProperties.

(** [tailwind.candidatesToCss([cls])[0]]: the CSS of one class; [None] for
    [null] and for a missing entry. *)
Definition firstCss (tailwind : TailwindContext) (cls : string) : option string :=
  mjoin (head (candidatesToCss tailwind [cls])).

(** Truthiness of a CSS result: neither [null] nor the empty text. *)
Definition cssTruthy (css : option string) : bool := from_option Js.truthy false css.

(** ** rewrite-tw-file-content-to-panda.ts *)

Module Rewrite.

(** [/^(group|peer)(\/[\w-]+)?$/] *)
Definition markerScope (rest : string) : bool :=
  match rest with
  | EmptyString => true
  | String "/" name =>
      Js.truthy name && Js.forallb (fun c => Js.isWordChar c || Ascii.eqb c "-") name
  | _ => false
  end.

Definition TAILWIND_MARKER_CLASS_PATTERN (cls : string) : bool :=
  match Js.stripPrefix "group" cls with
  | Some rest => markerScope rest
  | None =>
      match Js.stripPrefix "peer" cls with
      | Some rest => markerScope rest
      | None => false
      end
  end.

(** Check if a class is a Tailwind marker class (group, peer). *)
Definition isTailwindMarkerClass (cls : string) : bool :=
  TAILWIND_MARKER_CLASS_PATTERN cls.

Record Categorized : Type := mkCategorized {
  twClasses : list string;
  markerClasses : list string;
  customClasses : list string;
}.

(** The test under which a class goes to the custom classes. *)
Definition isCustom (tailwind : TailwindContext) (cls : string) : bool :=
  negb (isTailwindMarkerClass cls) && negb (cssTruthy (firstCss tailwind cls)).

(** The test under which a class goes to the Tailwind classes. *)
Definition isUtility (tailwind : TailwindContext) (cls : string) : bool :=
  negb (isTailwindMarkerClass cls) && cssTruthy (firstCss tailwind cls).

(** One step of the [forEach] of [categorizeClasses]. *)
Definition categorizeStep (tailwind : TailwindContext) (acc : Categorized)
    (cls : string) : Categorized :=
  if isTailwindMarkerClass cls then
    mkCategorized (twClasses acc) (markerClasses acc ++ [cls]) (customClasses acc)
  else
    let css := firstCss tailwind cls in
    if negb (cssTruthy css) then
      mkCategorized (twClasses acc) (markerClasses acc) (customClasses acc ++ [cls])
    else
      mkCategorized (twClasses acc ++ [cls]) (markerClasses acc) (customClasses acc).

(** Separate a class list into Tailwind utilities, marker classes, and
    custom classes. *)
Definition categorizeClasses (classList : list string) (tailwind : TailwindContext)
    : Categorized :=
  fold_left (categorizeStep tailwind) classList (mkCategorized [] [] []).

Section CallSite.

Variable parseTwClassName : string -> option TailwindClass.
Variable parseCssProperties : string -> TailwindContext -> list ParsedCssProperty.

(** The style entries that the rewriter hands to [mergeCss] for one class
    list: those of the Tailwind classes of its categorization. *)
Definition classListStyles (classList : list string) (tailwind : TailwindContext)
    (panda : PandaContext) : list (MatchingToken * StyleObject) :=
  Styles.twClassListToPandaStyles parseTwClassName parseCssProperties
    (twClasses (categorizeClasses classList tailwind)) tailwind panda.

End CallSite.

End Rewrite.

(** ** Insertion-ordered maps with string keys ([Map<string, V>]) *)

Module JsMap.

Section Ops.
Context {V : Type}.

Fixpoint get (k : string) (m : list (string * V)) : option V :=
  match m with
  | [] => None
  | (k', v) :: r => if String.eqb k' k then Some v else get k r
  end.

(** [m.set(k, v)]: an existing key keeps its position, a new key goes last. *)
Fixpoint set (k : string) (v : V) (m : list (string * V)) : list (string * V) :=
  match m with
  | [] => [(k, v)]
  | (k', v') :: r => if String.eqb k' k then (k, v) :: r else (k', v') :: set k v r
  end.

Definition values (m : list (string * V)) : list V := map snd m.

End Ops.

End JsMap.

(** [list.sort((a, b) => count(b) - count(a))]: stable, by descending count. *)
Section SortByCount.
Context {A : Type} (count : A -> Z).

Fixpoint insertByCountDesc (x : A) (l : list A) : list A :=
  match l with
  | [] => [x]
  | y :: r => if count x <? count y then y :: insertByCountDesc x r else x :: l
  end.

Definition sortByCountDesc (l : list A) : list A := foldr insertByCountDesc [] l.

End SortByCount.

(** ** analyze-project.ts: the data *)

Module TokenUsage.
Record t : Type := mk {
  category : string;
  path : string;
  value : string;
  count : Z;
  files : list string;
}.
End TokenUsage.

Module ExtractedPattern.
Record t : Type := mk {
  id : string;
  classes : list string;
  styles : StyleObject;
  count : Z;
  files : list string;
}.
End ExtractedPattern.

Module FileAnalysis.
Record t : Type := mk {
  filePath : string;
  classes : list string;
  convertedClasses : list string;
  unconvertedClasses : list string;
}.
End FileAnalysis.

Module Summary.
Record t : Type := mk {
  totalFiles : Z;
  totalClasses : Z;
  uniqueClasses : Z;
  convertedClasses : Z;
  unconvertedClasses : Z;
  detectedPatterns : Z;
  estimatedEffortHours : Q;
}.
End Summary.

Module ProjectAnalysis.
Record t : Type := mk {
  files : list FileAnalysis.t;
  tokens : list TokenUsage.t;
  patterns : list ExtractedPattern.t;
  summary : Summary.t;
}.
End ProjectAnalysis.

(** ** analyze-project.ts: the scan of the project directory *)

Module Scan.

(** The pieces of the regular expression that [matchGlob] builds from a
    pattern: a literal character, [.] (from [?]), [.*] (from [**]) and
    [[^/]*] (from [*]). *)
Inductive GlobToken : Type :=
| Literal (c : ascii)
| AnyChar
| AnyRun
| SegmentRun.

(** The characters with a meaning of their own in a regular expression,
    which [matchGlob] hands over to [RegExp] as they are. *)
Definition isRegexSyntax (c : ascii) : bool :=
  Js.listIncludes (String c EmptyString)
    ["\"; "^"; "$"; "+"; "("; ")"; "["; "]"; "{"; "}"; "|"].

(** The regular expression of a pattern, read from left to right: the
    dot is escaped, two stars become [.*], a remaining star [[^/]*] and a
    question mark [.].  A pattern with a character of [isRegexSyntax] is
    left out of the model ([None]). *)
Fixpoint globTokens (pattern : string) : option (list GlobToken) :=
  match pattern with
  | EmptyString => Some []
  | String "*" (String "*" r) => cons AnyRun <$> globTokens r
  | String "*" r => cons SegmentRun <$> globTokens r
  | String "?" r => cons AnyChar <$> globTokens r
  | String c r =>
      if isRegexSyntax c then None else cons (Literal c) <$> globTokens r
  end.

(** [.] matches every character but a line terminator. *)
Definition isLineTerminator (c : ascii) : bool :=
  Ascii.eqb c "010" || Ascii.eqb c "013".

(** A run of [allowed] characters of any length, followed by [rest]. *)
Fixpoint runThen (allowed : ascii -> bool) (rest : string -> bool) (s : string) : bool :=
  rest s
  || match s with
     | String d r => allowed d && runThen allowed rest r
     | EmptyString => false
     end.

(** [new RegExp("^" + ... + "$").test(s)] for the expression of [tokens]. *)
Fixpoint matchTokens (tokens : list GlobToken) (s : string) : bool :=
  match tokens with
  | [] => negb (Js.truthy s)
  | Literal c :: rest =>
      match s with
      | String d r => Ascii.eqb c d && matchTokens rest r
      | EmptyString => false
      end
  | AnyChar :: rest =>
      match s with
      | String d r => negb (isLineTerminator d) && matchTokens rest r
      | EmptyString => false
      end
  | AnyRun :: rest => runThen (fun d => negb (isLineTerminator d)) (matchTokens rest) s
  | SegmentRun :: rest => runThen (fun d => negb (Ascii.eqb d "/")) (matchTokens rest) s
  end.

(** Simple glob implementation for file matching. *)
Definition matchGlob (pattern filePath : string) : option bool :=
  (fun tokens => matchTokens tokens filePath) <$> globTokens pattern.

(** [patterns.some((pattern) => matchGlob(pattern, path))] *)
Fixpoint someGlob (patterns : list string) (path : string) : option bool :=
  match patterns with
  | [] => Some false
  | pattern :: rest =>
      match matchGlob pattern path with
      | Some true => Some true
      | Some false => someGlob rest path
      | None => None
      end
  end.

(** An entry of a directory, as [readdirSync] lists it: a file, a
    directory with its entries, or something else. *)
Inductive Entry : Type :=
| FileEntry (name : string)
| DirectoryEntry (name : string) (entries : list Entry)
| OtherEntry (name : string).

Definition entryName (entry : Entry) : string :=
  match entry with
  | FileEntry name | DirectoryEntry name _ | OtherEntry name => name
  end.

Definition skippedDirectories : list string :=
  ["node_modules"; ".git"; "dist"; "build"; ".next"; ".panda"].

Definition DEFAULT_INCLUDE : list string :=
  ["**/*.tsx"; "**/*.jsx"; "**/*.ts"; "**/*.js"; "**/*.html"].

Definition DEFAULT_EXCLUDE : list string :=
  ["**/node_modules/**"; "**/dist/**"; "**/.git/**"].

Section Paths.

(** [join] and [relative] of [pathe], which normalise the paths they
    return, are taken as given: what is proved of the scan holds whatever
    they return. *)
Variable join : string -> string -> string.
Variable relative : string -> string -> string.

(** The body of the loop of [scanDirectory] for one entry of the directory
    [dir]: the files found, by their full paths. *)
Fixpoint scanEntry (include exclude : list string) (baseDir dir : string)
    (entry : Entry) : option (list string) :=
  let fullPath := join dir (entryName entry) in
  let relativePath := relative baseDir fullPath in
  match someGlob exclude relativePath with
  | None => None
  | Some true => Some []
  | Some false =>
      match entry with
      | DirectoryEntry name entries =>
          if Js.listIncludes name skippedDirectories then Some []
          else
            (fix scanEntries (entries : list Entry) : option (list string) :=
               match entries with
               | [] => Some []
               | e :: rest =>
                   match scanEntry include exclude baseDir fullPath e with
                   | None => None
                   | Some found =>
                       match scanEntries rest with
                       | None => None
                       | Some others => Some (found ++ others)
                       end
                   end
               end) entries
      | FileEntry _ =>
          match someGlob include relativePath with
          | None => None
          | Some true => Some [fullPath]
          | Some false => Some []
          end
      | OtherEntry _ => Some []
      end
  end.

(** Recursively scan a directory for files matching the patterns;
    [entries] is [None] when the directory does not exist. *)
Definition scanDirectory (dir : string) (include exclude : list string)
    (baseDir : string) (entries : option (list Entry)) : option (list string) :=
  match entries with
  | None => Some []
  | Some entries =>
      foldr
        (fun e others =>
           match scanEntry include exclude baseDir dir e, others with
           | Some found, Some others => Some (found ++ others)
           | _, _ => None
           end)
        (Some []) entries
  end.

(** The files that the scan reaches from the directory [dir], by their
    full paths: the files of the directory, and those reached from each of
    its directories that is neither excluded nor skipped. *)
Inductive reaches (exclude : list string) (baseDir : string)
    : string -> list Entry -> string -> Prop :=
| reaches_file (dir : string) (entries : list Entry) (name : string) :
    FileEntry name ∈ entries ->
    reaches exclude baseDir dir entries (join dir name)
| reaches_directory (dir : string) (entries : list Entry)
    (name : string) (inner : list Entry) (fullPath : string) :
    DirectoryEntry name inner ∈ entries ->
    someGlob exclude (relative baseDir (join dir name)) = Some false ->
    Js.listIncludes name skippedDirectories = false ->
    reaches exclude baseDir (join dir name) inner fullPath ->
    reaches exclude baseDir dir entries fullPath.

(** Get the files matching the glob patterns; an option that is not given
    has its default. *)
Definition getFilesToAnalyze (cwd : string) (include exclude : option (list string))
    (root : option (list Entry)) : option (list string) :=
  scanDirectory cwd (default DEFAULT_INCLUDE include) (default DEFAULT_EXCLUDE exclude)
    cwd root.

End Paths.

End Scan.

(** ** analyze-project.ts: the operations *)

Module Analyze.

(** *** Token tracking *)

(** One match of [/token\(([^,)]+)(?:,\s*([^)]+))?\)/] at the start of [s]:
    the two groups and the length of the match.  The first group is the
    longest run without comma and closing parenthesis; when the second
    group would be empty, [\s*] gives its last character back to it. *)
Definition matchTokenAt (s : string) : option (string * option string * nat) :=
  match Js.stripPrefix "token(" s with
  | None => None
  | Some s1 =>
      let '(g1, r1) := Js.span (fun c => negb (Ascii.eqb c "," || Ascii.eqb c ")")) s1 in
      if negb (Js.truthy g1) then None
      else match r1 with
           | String ")" _ => Some (g1, None, (6 + String.length g1 + 1)%nat)
           | String "," r2 =>
               let '(ws, r3) := Js.span Js.isSpace r2 in
               let '(body, r4) := Js.span (fun c => negb (Ascii.eqb c ")")) r3 in
               match r4 with
               | String ")" _ =>
                   if Js.truthy body then
                     Some (g1, Some body,
                           (6 + String.length g1 + 1 + String.length ws
                            + String.length body + 1)%nat)
                   else
                     match String.rev ws with
                     | String w _ =>
                         Some (g1, Some (String w EmptyString),
                               (6 + String.length g1 + 1 + String.length ws + 1)%nat)
                     | EmptyString => None
                     end
               | _ => None
               end
           | _ => None
           end
  end.

(** The successive matches of the global pattern in [s]; [skip] counts the
    characters of the last match that are still to be passed over. *)
Fixpoint tokenMatchesFrom (skip : nat) (s : string) : list (string * option string) :=
  match s with
  | EmptyString => []
  | String _ r =>
      match skip with
      | S k => tokenMatchesFrom k r
      | O =>
          match matchTokenAt s with
          | Some (g1, g2, len) => (g1, g2) :: tokenMatchesFrom (len - 1) r
          | None => tokenMatchesFrom 0 r
          end
      end
  end.

Definition tokenMatches (s : string) : list (string * option string) :=
  tokenMatchesFrom 0 s.

(** What the token pattern reads back as the fallback of the value
    [token(path, rawValue)]: the text of [rawValue] before its first closing
    parenthesis, trimmed. *)
Definition fallbackText (rawValue : string) : string :=
  Js.trim (fst (Js.span (fun c => negb (Ascii.eqb c ")")) (Js.trimStart rawValue))).

(** The key under which the loop of [walkObject] files a match: the
    category (the part of the trimmed token path before its first dot, or
    [unknown]), a dot and the rest of the path. *)
Definition tokenKey (m : string * option string) : string :=
  let parts := Js.split "." (Js.trim (fst m)) in
  let part0 := default EmptyString (head parts) in
  let category := if Js.truthy part0 then part0 else "unknown" in
  category +:+ "." +:+ Js.join "." (tail parts).

(** The body of the [while] loop of [walkObject] for one match. *)
Definition recordToken (filePath : string) (tokens : list (string * TokenUsage.t))
    (m : string * option string) : list (string * TokenUsage.t) :=
  let tokenPath := Js.trim (fst m) in
  let fallback := Js.trim <$> snd m in
  if Js.truthy tokenPath then
    let parts := Js.split "." tokenPath in
    let part0 := default EmptyString (head parts) in
    let category := if Js.truthy part0 then part0 else "unknown" in
    let path := Js.join "." (tail parts) in
    let key := category +:+ "." +:+ path in
    match JsMap.get key tokens with
    | Some existing =>
        JsMap.set key
          (TokenUsage.mk (TokenUsage.category existing) (TokenUsage.path existing)
             (TokenUsage.value existing) (TokenUsage.count existing + 1)
             (if Js.listIncludes filePath (TokenUsage.files existing)
              then TokenUsage.files existing
              else TokenUsage.files existing ++ [filePath]))
          tokens
    | None =>
        JsMap.set key
          (TokenUsage.mk category path (default EmptyString fallback) 1 [filePath])
          tokens
    end
  else tokens.

Fixpoint walkObject (filePath : string) (obj : StyleObject)
    (tokens : list (string * TokenUsage.t)) : list (string * TokenUsage.t) :=
  match obj with
  | SValue s => fold_left (recordToken filePath) (tokenMatches s) tokens
  | SObject fields =>
      (fix walkValues (fs : list (string * StyleObject)) tokens :=
         match fs with
         | [] => tokens
         | (_, v) :: r => walkValues r (walkObject filePath v tokens)
         end) fields tokens
  end.

(** Extract token references from Panda styles. *)
Definition extractTokensFromStyles (styles : StyleObject) (filePath : string)
    (tokens : list (string * TokenUsage.t)) : list (string * TokenUsage.t) :=
  walkObject filePath styles tokens.

(** The shape that every token usage record keeps: no file listed twice,
    at least as many occurrences as files, and at least one occurrence. *)
Definition tokenUsageShape (u : TokenUsage.t) : Prop :=
  NoDup (TokenUsage.files u)
  /\ Z.of_nat (length (TokenUsage.files u)) <= TokenUsage.count u
  /\ 1 <= TokenUsage.count u.

(** *** Pattern detection *)

(** Generate a pattern ID from a set of classes. *)
Definition generatePatternId (classes : list string) : string :=
  Js.join "|" (Js.sort classes).

(** The pattern bookkeeping of [analyzeProject] for one file. *)
Definition trackPattern (converted : list string) (finalStyles : StyleObject)
    (relativePath : string) (classPatterns : list (string * ExtractedPattern.t))
    : list (string * ExtractedPattern.t) :=
  let patternId := generatePatternId converted in
  match JsMap.get patternId classPatterns with
  | Some existing =>
      JsMap.set patternId
        (ExtractedPattern.mk (ExtractedPattern.id existing)
           (ExtractedPattern.classes existing) (ExtractedPattern.styles existing)
           (ExtractedPattern.count existing + 1)
           (if Js.listIncludes relativePath (ExtractedPattern.files existing)
            then ExtractedPattern.files existing
            else ExtractedPattern.files existing ++ [relativePath]))
        classPatterns
  | None =>
      JsMap.set patternId
        (ExtractedPattern.mk patternId converted finalStyles 1 [relativePath])
        classPatterns
  end.

(** *** The main analysis *)

(** What the analysis takes from its surroundings.  [readFileSync] is [None]
    where reading throws; [classSpans] is the class tokens that the lexical
    patterns find in a file's text, in match order; [relative] is the path
    relative to the project root; [mergeCss] and [mapToShorthands] belong
    to Panda and are [None] where they throw. *)
Record Env : Type := mkEnv {
  readFileSync : string -> option string;
  classSpans : string -> list string;
  relative : string -> string;
  tailwind : TailwindContext;
  panda : PandaContext;
  parseTwClassName : string -> option TailwindClass;
  parseCssProperties : string -> TailwindContext -> list ParsedCssProperty;
  mergeCss : list StyleObject -> option StyleObject;
  mapToShorthands : StyleObject -> PandaContext -> option StyleObject;
}.

Record AnalyzeOptions : Type := mkOptions {
  shorthands : bool;
  minPatternCount : Z;
}.

(** The defaults of [analyzeProject]. *)
Definition defaultOptions : AnalyzeOptions := mkOptions false 2.

(** Classes that do not look like utilities are skipped. *)
Definition skipped (cls : string) : bool :=
  negb (Js.truthy cls) || Js.startsWith "{" cls || Js.startsWith "$" cls.

(** Extract all Tailwind classes from a file: all classes (deduplicated),
    the converted and the unconverted ones. *)
Definition extractClassesFromFile (env : Env) (filePath : string)
    : option (list string * list string * list string) :=
  match readFileSync env filePath with
  | None => None
  | Some content =>
      let allClasses := Js.uniq (classSpans env content) in
      let kept := List.filter (fun cls => negb (skipped cls)) allClasses in
      let converted :=
        List.filter (fun cls => cssTruthy (firstCss (tailwind env) cls)) kept in
      let unconverted :=
        List.filter (fun cls => negb (cssTruthy (firstCss (tailwind env) cls))) kept in
      Some (allClasses, converted, unconverted)
  end.

Record State : Type := mkState {
  fileAnalyses : list FileAnalysis.t;
  allTokens : list (string * TokenUsage.t);
  classPatterns : list (string * ExtractedPattern.t);
}.

Definition initialState : State := mkState [] [] [].

(** The merged styles of the converted classes of a file: [None] where the
    conversion throws, [Some None] where there is nothing to record. *)
Definition fileStyles (env : Env) (options : AnalyzeOptions) (converted : list string)
    : option (option StyleObject) :=
  if (0 <? length converted)%nat then
    let classList := Js.uniq converted in
    let styles :=
      Styles.twClassListToPandaStyles (parseTwClassName env) (parseCssProperties env)
        classList (tailwind env) (panda env) in
    if (0 <? length styles)%nat then
      match mergeCss env (map snd styles) with
      | None => None
      | Some merged =>
          if shorthands options then
            match mapToShorthands env merged (panda env) with
            | None => None
            | Some finalStyles => Some (Some finalStyles)
            end
          else Some (Some merged)
      end
    else Some None
  else Some None.

(** The body of the [try] block for one file; [None] when it throws.  Every
    call that can throw precedes the first update of the shared maps. *)
Definition analyzeFile (env : Env) (options : AnalyzeOptions) (st : State)
    (filePath : string) : option State :=
  let relativePath := relative env filePath in
  match extractClassesFromFile env filePath with
  | None => None
  | Some (classes, converted, unconverted) =>
      match fileStyles env options converted with
      | None => None
      | Some recorded =>
          let '(tokens', patterns') :=
            match recorded with
            | Some finalStyles =>
                (extractTokensFromStyles finalStyles relativePath (allTokens st),
                 trackPattern converted finalStyles relativePath (classPatterns st))
            | None => (allTokens st, classPatterns st)
            end in
          Some (mkState
                  (fileAnalyses st
                   ++ [FileAnalysis.mk relativePath classes converted unconverted])
                  tokens' patterns')
      end
  end.

(** What a file adds to the pattern bookkeeping: the pattern id of its
    converted classes, when the file is processed and yields styles. *)
Definition observation (env : Env) (options : AnalyzeOptions) (filePath : string)
    : option string :=
  match extractClassesFromFile env filePath with
  | Some (_, converted, _) =>
      match fileStyles env options converted with
      | Some (Some _) => Some (generatePatternId converted)
      | _ => None
      end
  | None => None
  end.

(** The record that the loop keeps for a file, when the file is processed
    without throwing. *)
Definition fileRecord (env : Env) (options : AnalyzeOptions) (filePath : string)
    : option FileAnalysis.t :=
  match extractClassesFromFile env filePath with
  | Some (classes, converted, unconverted) =>
      match fileStyles env options converted with
      | Some _ =>
          Some (FileAnalysis.mk (relative env filePath) classes converted unconverted)
      | None => None
      end
  | None => None
  end.

(** The files in which the pattern [patternId] is observed, in order. *)
Definition observations (env : Env) (options : AnalyzeOptions) (patternId : string)
    (filePaths : list string) : list string :=
  List.filter
    (fun filePath => bool_decide (observation env options filePath = Some patternId))
    filePaths.

(** The state of the pattern bookkeeping after the files [l]: the keys are
    distinct, each pattern is filed under its id, and a pattern's count is
    the number of its observations (its files are those, in order, when the
    paths are distinct). *)
Definition patternsTrack (env : Env) (options : AnalyzeOptions) (l : list string)
    (cp : list (string * ExtractedPattern.t)) : Prop :=
  NoDup (map fst cp)
  /\ (forall k p, (k, p) ∈ cp -> ExtractedPattern.id p = k)
  /\ forall h,
       match JsMap.get h cp with
       | Some p =>
           ExtractedPattern.count p
           = Z.of_nat (length (observations env options h l))
           /\ (1 <= length (observations env options h l))%nat
           /\ (NoDup (map (relative env) l)
               -> ExtractedPattern.files p
                  = map (relative env) (observations env options h l))
       | None => observations env options h l = []
       end.

(** One iteration of the loop over the files: a file that throws is
    skipped with a warning on the console. *)
Definition analyzeStep (env : Env) (options : AnalyzeOptions) (st : State)
    (filePath : string) : State :=
  match analyzeFile env options st filePath with
  | Some st' => st'
  | None => st
  end.

Definition analyzeFiles (env : Env) (options : AnalyzeOptions)
    (filePaths : list string) : State :=
  fold_left (analyzeStep env options) filePaths initialState.

(** [Math.ceil((estimatedMinutes / 60) * 10) / 10] *)
Definition estimatedHours (uniqueUnconverted patterns : Z) : Q :=
  let estimatedMinutes := (inject_Z uniqueUnconverted * 1 + inject_Z patterns * (1 # 2))%Q in
  (inject_Z (Qceiling ((estimatedMinutes / 60) * 10)) / 10)%Q.

(** Patterns meeting the minimum count, most frequent first. *)
Definition detectedPatterns (options : AnalyzeOptions) (st : State)
    : list ExtractedPattern.t :=
  sortByCountDesc ExtractedPattern.count
    (List.filter (fun p => minPatternCount options <=? ExtractedPattern.count p)
       (JsMap.values (classPatterns st))).

(** Analyze a project for Tailwind usage; [filePaths] is the result of the
    directory scan. *)
Definition analyzeProject (env : Env) (options : AnalyzeOptions)
    (filePaths : list string) : ProjectAnalysis.t :=
  let st := analyzeFiles env options filePaths in
  let patterns := detectedPatterns options st in
  let allClasses := flat_map FileAnalysis.classes (fileAnalyses st) in
  let uniqueClasses := Js.uniq allClasses in
  let uniqueConverted := Js.uniq (flat_map FileAnalysis.convertedClasses (fileAnalyses st)) in
  let uniqueUnconverted :=
    Js.uniq (flat_map FileAnalysis.unconvertedClasses (fileAnalyses st)) in
  ProjectAnalysis.mk
    (fileAnalyses st)
    (sortByCountDesc TokenUsage.count (JsMap.values (allTokens st)))
    patterns
    (Summary.mk
       (Z.of_nat (length (fileAnalyses st)))
       (Z.of_nat (length allClasses))
       (Z.of_nat (length uniqueClasses))
       (Z.of_nat (length uniqueConverted))
       (Z.of_nat (length uniqueUnconverted))
       (Z.of_nat (length patterns))
       (estimatedHours (Z.of_nat (length uniqueUnconverted)) (Z.of_nat (length patterns)))).

(** *** Variant inference: clustering and naming *)

(** Calculate Jaccard similarity between two class sets. *)
Definition calculateSimilarity (a b : list string) : Q :=
  let setA := Js.uniq a in
  let setB := Js.uniq b in
  let intersection := length (List.filter (fun x => Js.listIncludes x setB) setA) in
  let union := length (Js.uniq (setA ++ setB)) in
  if (0 <? union)%nat
  then (inject_Z (Z.of_nat intersection) / inject_Z (Z.of_nat union))%Q
  else 0%Q.

(** The two counts of [calculateSimilarity]: the size of the intersection
    and of the union of the class sets. *)
Definition intersectionSize (a b : list string) : nat :=
  length (List.filter (fun x => Js.listIncludes x (Js.uniq b)) (Js.uniq a)).

Definition unionSize (a b : list string) : nat :=
  length (Js.uniq (Js.uniq a ++ Js.uniq b)).

(** [similarity > 0.5] *)
Definition aboveHalf (similarity : Q) : bool := negb (Qle_bool similarity (1 # 2)).

(** The inner loop of [groupSimilarPatterns] for one candidate [other]. *)
Definition absorb (pattern : ExtractedPattern.t)
    (acc : list ExtractedPattern.t * gset string) (other : ExtractedPattern.t)
    : list ExtractedPattern.t * gset string :=
  let '(group, used) := acc in
  if bool_decide (ExtractedPattern.id other ∈ used) then acc
  else if aboveHalf (calculateSimilarity (ExtractedPattern.classes pattern)
                       (ExtractedPattern.classes other))
  then (group ++ [other], used ∪ {[ExtractedPattern.id other]})
  else acc.

(** The outer loop of [groupSimilarPatterns] for one [pattern]. *)
Definition openGroup (patterns : list ExtractedPattern.t)
    (acc : list (list ExtractedPattern.t) * gset string) (pattern : ExtractedPattern.t)
    : list (list ExtractedPattern.t) * gset string :=
  let '(groups, used) := acc in
  if bool_decide (ExtractedPattern.id pattern ∈ used) then acc
  else
    let '(group, used') :=
      fold_left (absorb pattern) patterns
        ([pattern], used ∪ {[ExtractedPattern.id pattern]}) in
    if (2 <=? length group)%nat then (groups ++ [group], used') else (groups, used').

(** Group patterns by similarity. *)
Definition groupSimilarPatterns (patterns : list ExtractedPattern.t)
    : list (list ExtractedPattern.t) :=
  fst (fold_left (openGroup patterns) patterns ([], ∅)).

(** A group as the loops build it: an opener and at least one absorbed
    pattern, each similar to the opener. *)
Definition groupShape (g : list ExtractedPattern.t) : Prop :=
  (2 <= length g)%nat
  /\ exists opener members,
       g = opener :: members
       /\ Forall (fun o => (1 # 2
                            < calculateSimilarity (ExtractedPattern.classes opener)
                                (ExtractedPattern.classes o))%Q) members.

(** [cls.split("-")[0]] *)
Definition classPrefix (cls : string) : string :=
  default EmptyString (head (Js.split "-" cls)).

(** The prefix that [inferRecipeName] counts for a class, if any: the text
    before the first dash, when it is longer than two characters. *)
Definition countedPrefix (cls : string) : option string :=
  let prefix := classPrefix cls in
  if Js.truthy prefix && (2 <? String.length prefix)%nat then Some prefix else None.

(** How many of the classes have the counted prefix [q]. *)
Definition prefixCount (q : string) (classes : list string) : Z :=
  Z.of_nat (length (List.filter (fun cls => bool_decide (countedPrefix cls = Some q))
                      classes)).

(** The first loop of [inferRecipeName]: the tally of prefixes. *)
Definition countPrefix (prefixes : list (string * Z)) (cls : string)
    : list (string * Z) :=
  let prefix := classPrefix cls in
  if Js.truthy prefix && (2 <? String.length prefix)%nat
  then JsMap.set prefix (default 0 (JsMap.get prefix prefixes) + 1) prefixes
  else prefixes.

(** The state of the prefix tally after the classes [l]: the keys are
    distinct and each is filed with its count, which is at least one. *)
Definition tallies (l : list string) (m : list (string * Z)) : Prop :=
  NoDup (map fst m)
  /\ forall q,
       match JsMap.get q m with
       | Some n => n = prefixCount q l /\ 1 <= n
       | None => prefixCount q l = 0
       end.

(** The second loop of [inferRecipeName]: the running maximum. *)
Definition pickMax (acc : string * Z) (entry : string * Z) : string * Z :=
  let '(maxPrefix, maxCount) := acc in
  let '(prefix, count) := entry in
  if maxCount <? count then (prefix, count) else (maxPrefix, maxCount).

(** Infer a recipe name from patterns. *)
Definition inferRecipeName (patterns : list ExtractedPattern.t) : string :=
  let allClasses := flat_map ExtractedPattern.classes patterns in
  let prefixes := fold_left countPrefix allClasses [] in
  fst (fold_left pickMax prefixes ("component", 0)).

(** *** Variant inference: the dimension of a style key *)

Inductive Dimension : Type := SizeDimension | VisualDimension | OtherDimension.

Definition sizeProps : list string :=
  ["padding"; "paddingX"; "paddingY"; "p"; "px"; "py"; "fontSize"; "height"; "width";
   "gap"].

Definition visualProps : list string :=
  ["backgroundColor"; "bg"; "bgColor"; "color"; "borderColor"].

(** The test of the inner loop of [inferVariantDimensions]: the part of
    the difference that a key is filed in. *)
Definition dimensionOf (key : string) : Dimension :=
  if existsb (fun p => Js.includes p key) sizeProps then SizeDimension
  else if existsb (fun p => Js.includes p key) visualProps then VisualDimension
  else OtherDimension.

(** The three parts of one difference, in the order of its entries. *)
Definition splitDiff {V : Type} (diff : list (string * V))
    : list (string * V) * list (string * V) * list (string * V) :=
  (List.filter (fun e => match dimensionOf (fst e) with SizeDimension => true | _ => false end)
     diff,
   List.filter (fun e => match dimensionOf (fst e) with VisualDimension => true | _ => false end)
     diff,
   List.filter (fun e => match dimensionOf (fst e) with OtherDimension => true | _ => false end)
     diff).

End Analyze.

(** ** batch-processor.ts *)

Module Batch.

Inductive Status : Type := Success | Error | Skipped | Unchanged.

Definition Status_eqb (a b : Status) : bool :=
  match a, b with
  | Success, Success | Error, Error | Skipped, Skipped | Unchanged, Unchanged => true
  | _, _ => false
  end.

(** The result for one file; the duration (wall-clock time) is left out. *)
Record BatchFileResult : Type := mkResult {
  inputPath : string;
  outputPath : string;
  status : Status;
  original : option string;
  converted : option string;
  error : option string;
  unconvertedClasses : option (list string);
}.

Record BatchSummary : Type := mkSummary {
  total : Z;
  success : Z;
  errors : Z;
  skipped : Z;
  unchanged : Z;
}.

Record BatchResult : Type := mkBatchResult {
  files : list BatchFileResult;
  summary : BatchSummary;
}.

Record BatchOptions : Type := mkBatchOptions {
  cwd : string;
  outDir : option string;
  shorthands : bool;
  dryRun : bool;
  htmlExtensions : list string;
  tsExtensions : list string;
  concurrency : Z;
}.

Definition DEFAULT_HTML_EXTENSIONS : list string := [".html"; ".htm"].
Definition DEFAULT_TS_EXTENSIONS : list string := [".ts"; ".tsx"; ".js"; ".jsx"].

(** The file system: the text of each file, by path. *)
Definition FileSystem : Type := gmap string string.

(** What the batch takes from its surroundings: the path functions of
    [pathe], the two rewriters and the pretty-printer, and the behaviour of
    the disk.  A rewriter yields [inl message] where it throws;
    [readFailure] is the message of a failed read and [writeFailure] is the
    message with which [mkdir] or [writeFile] fails for a path, if they do. *)
Record Env : Type := mkEnv {
  join : string -> string -> string;
  extname : string -> string;
  basename : string -> string -> string;
  rewriteHtmlToPanda : string -> string -> bool -> string + (string * list string);
  rewriteTwFileContentToPanda : string -> string -> bool -> string + string;
  maybePretty : string -> string;
  readFailure : string -> string;
  writeFailure : string -> option string;
}.

(** [readFileSync(path, "utf-8")] *)
Definition readFileSync (env : Env) (fs : FileSystem) (path : string) : string + string :=
  match fs !! path with
  | Some content => inr content
  | None => inl (readFailure env path)
  end.

(** [mkdir] of the directory followed by [writeFile]. *)
Definition writeFile (env : Env) (fs : FileSystem) (path content : string)
    : string + FileSystem :=
  match writeFailure env path with
  | Some message => inl message
  | None => inr (<[path := content]> fs)
  end.

(** [outputPath.replace(/\.(html?|htm)$/i, ".tsx")] *)
Definition replaceHtmlExtension (outputPath : string) : string :=
  let lower := Js.stringToLowerCase outputPath in
  let n := String.length outputPath in
  if Js.endsWith ".html" lower
  then String.substring 0 (n - 5) outputPath +:+ ".tsx"
  else if Js.endsWith ".htm" lower
  then String.substring 0 (n - 4) outputPath +:+ ".tsx"
  else outputPath.

(** The result of the [catch] clause. *)
Definition errorResult (filePath outputPath message : string) : BatchFileResult :=
  mkResult filePath outputPath Error None None (Some message) None.

(** The output path of a file: under [outDir] when it is set, and with
    the extension [.tsx] for an HTML file. *)
Definition outputPathOf (env : Env) (options : BatchOptions) (filePath : string)
    : string :=
  let ext := Js.stringToLowerCase (extname env filePath) in
  let outputPath :=
    match outDir options with
    | Some dir => if Js.truthy dir then join env dir filePath else filePath
    | None => filePath
    end in
  if Js.listIncludes ext (htmlExtensions options)
  then replaceHtmlExtension outputPath else outputPath.

(** Where [processFile] stands at its first [await]: either it has
    returned its result, or the converted text is still to be written. *)
Inductive Started : Type :=
| Finished (result : BatchFileResult)
| ToWrite (absoluteOutputPath converted : string) (written : BatchFileResult).

(** The part of [processFile] before its first [await]: the read and the
    conversion, which run without interruption. *)
Definition startFile (env : Env) (options : BatchOptions) (fs : FileSystem)
    (filePath : string) : Started :=
  let absolutePath := join env (cwd options) filePath in
  let ext := Js.stringToLowerCase (extname env filePath) in
  let outputPath := outputPathOf env options filePath in
  match readFileSync env fs absolutePath with
  | inl message => Finished (errorResult filePath outputPath message)
  | inr content =>
      let rewritten : option (string + (string * list string)) :=
        if Js.listIncludes ext (htmlExtensions options) then
          Some match rewriteHtmlToPanda env content (basename env filePath ext)
                       (shorthands options) with
               | inl message => inl message
               | inr (output, unconverted) => inr (maybePretty env output, unconverted)
               end
        else if Js.listIncludes ext (tsExtensions options) then
          Some match rewriteTwFileContentToPanda env content filePath
                       (shorthands options) with
               | inl message => inl message
               | inr output => inr (output, [])
               end
        else None in
      match rewritten with
      | None => Finished (mkResult filePath outputPath Skipped None None None None)
      | Some (inl message) => Finished (errorResult filePath outputPath message)
      | Some (inr (converted, unconverted)) =>
          if String.eqb converted content then
            Finished (mkResult filePath outputPath Unchanged (Some content)
                        (Some converted) None None)
          else
            let written :=
              mkResult filePath outputPath Success (Some content) (Some converted)
                None (Some unconverted) in
            if dryRun options then Finished written
            else ToWrite (join env (cwd options) outputPath) converted written
      end
  end.

(** The rest of [processFile]: the write, whose failure is caught like
    any other. *)
Definition finishFile (env : Env) (fs : FileSystem) (started : Started)
    : BatchFileResult * FileSystem :=
  match started with
  | Finished result => (result, fs)
  | ToWrite path converted written =>
      match writeFile env fs path converted with
      | inl message =>
          (errorResult (inputPath written) (outputPath written) message, fs)
      | inr fs' => (written, fs')
      end
  end.

(** Process one file: the result and the file system afterwards. *)
Definition processFile (env : Env) (options : BatchOptions) (fs : FileSystem)
    (filePath : string) : BatchFileResult * FileSystem :=
  finishFile env fs (startFile env options fs filePath).

(** The result of each file of a list, were it processed on [fs]. *)
Definition resultsOn (env : Env) (options : BatchOptions) (fs : FileSystem)
    (files : list string) : list BatchFileResult :=
  map (fun file => fst (processFile env options fs file)) files.

(** No file of the list is read after an earlier file of the list has been
    written to its path. *)
Fixpoint readsUntouched (env : Env) (options : BatchOptions) (files : list string)
    : bool :=
  match files with
  | [] => true
  | file :: rest =>
      List.forallb
        (fun later =>
           negb (String.eqb
                   (join env (cwd options) (outputPathOf env options file))
                   (join env (cwd options) later)))
        rest
      && readsUntouched env options rest
  end.

(** [chunkArray]: the loop advances by [size]; it does not end ([None]) for
    a non-empty array and a size below one. *)
Fixpoint chunkArrayFrom {A : Type} (fuel size : nat) (array : list A)
    : option (list (list A)) :=
  match array with
  | [] => Some []
  | _ :: _ =>
      match fuel with
      | O => None
      | S fuel' =>
          match chunkArrayFrom fuel' size (drop size array) with
          | Some chunks => Some (take size array :: chunks)
          | None => None
          end
      end
  end.

Definition chunkArray {A : Type} (array : list A) (size : Z) : option (list (list A)) :=
  chunkArrayFrom (length array) (Z.to_nat size) array.

(** One chunk under [Promise.all]: every file of the chunk is read and
    converted before the first write of the chunk takes place; the writes
    are then taken in the order of the files. *)
Definition processChunk (env : Env) (options : BatchOptions)
    (acc : list BatchFileResult * FileSystem) (chunk : list string)
    : list BatchFileResult * FileSystem :=
  let started := map (startFile env options (snd acc)) chunk in
  fold_left
    (fun acc s =>
       let '(result, fs') := finishFile env (snd acc) s in
       (fst acc ++ [result], fs'))
    started acc.

Definition countStatus (s : Status) (results : list BatchFileResult) : Z :=
  Z.of_nat (length (List.filter (fun r => Status_eqb (status r) s) results)).

Definition summarize (results : list BatchFileResult) : BatchSummary :=
  mkSummary (Z.of_nat (length results)) (countStatus Success results)
    (countStatus Error results) (countStatus Skipped results)
    (countStatus Unchanged results).

(** Process the files that the glob patterns matched ([files]); [None] when
    the run does not end. *)
Definition batchProcess (env : Env) (options : BatchOptions) (fs : FileSystem)
    (files : list string) : option (BatchResult * FileSystem) :=
  match files with
  | [] => Some (mkBatchResult [] (mkSummary 0 0 0 0 0), fs)
  | _ :: _ =>
      match chunkArray files (concurrency options) with
      | None => None
      | Some chunks =>
          let '(results, fs') := fold_left (processChunk env options) chunks ([], fs) in
          Some (mkBatchResult results (summarize results), fs')
      end
  end.

(** The line feed, and a number in decimal notation. *)
Definition newline : string := String "010" EmptyString.

Definition decimal (n : nat) : string := NilEmpty.string_of_uint (Nat.to_uint n).

(** The variables of the loop of [generateDiff]. *)
Record DiffState : Type := mkDiffState {
  inHunk : bool;
  hunkStart : nat;
  hunkLines : list string;
  lines : list string;
}.

(** The header of a hunk that starts at line [start] (counted from one). *)
Definition hunkHeader (start : nat) : string :=
  "@@ -" +:+ decimal start +:+ " +" +:+ decimal start +:+ " @@".

(** The flush of a hunk: its header, then its lines. *)
Definition flushHunk (st : DiffState) : list string :=
  lines st ++ [hunkHeader (hunkStart st)] ++ hunkLines st.

(** A hunk that starts at line [start] is open or has been flushed as the
    first one after the lines [header]. *)
Definition firstHunkAt (header : list string) (start : nat) (st : DiffState) : Prop :=
  (inHunk st = true /\ hunkStart st = start /\ hunkLines st <> []
   /\ lines st = header)
  \/ exists rest, lines st = header ++ [hunkHeader start] ++ rest.

(** One iteration of the loop of [generateDiff], for the line index [i];
    a line beyond the end of a text is [undefined] ([None]). *)
Definition diffStep (originalLines convertedLines : list string) (st : DiffState)
    (i : nat) : DiffState :=
  let orig := originalLines !! i in
  let conv := convertedLines !! i in
  if negb (bool_decide (orig = conv)) then
    let opened :=
      if inHunk st then st
      else
        mkDiffState true (i + 1)
          (if (0 <? i)%nat
           then hunkLines st ++ [" " +:+ default EmptyString (originalLines !! (i - 1)%nat)]
           else hunkLines st)
          (lines st) in
    let withOrig :=
      match orig with
      | Some o => hunkLines opened ++ ["-" +:+ o]
      | None => hunkLines opened
      end in
    let withConv :=
      match conv with
      | Some c => withOrig ++ ["+" +:+ c]
      | None => withOrig
      end in
    mkDiffState (inHunk opened) (hunkStart opened) withConv (lines opened)
  else if inHunk st then
    let closed :=
      mkDiffState true (hunkStart st)
        (hunkLines st ++ [" " +:+ default EmptyString orig]) (lines st) in
    mkDiffState false (hunkStart st) [] (flushHunk closed)
  else st.

(** The lines of the diff before they are joined. *)
Definition diffLines (original converted filePath : string) : list string :=
  let originalLines := Js.split "010" original in
  let convertedLines := Js.split "010" converted in
  let maxLines := Nat.max (length originalLines) (length convertedLines) in
  let st :=
    fold_left (diffStep originalLines convertedLines) (seq 0 maxLines)
      (mkDiffState false 0 [] ["--- " +:+ filePath; "+++ " +:+ filePath]) in
  if (0 <? length (hunkLines st))%nat then flushHunk st else lines st.

(** Generate a simple diff between original and converted content. *)
Definition generateDiff (original converted filePath : string) : string :=
  Js.join newline (diffLines original converted filePath).

(** What [startFile] leaves to be written: the converted text of a
    result with status [success], at the absolute output path, and only
    outside a dry run. *)
Definition pendingWrite (env : Env) (options : BatchOptions) (s : Started) : Prop :=
  match s with
  | Finished _ => True
  | ToWrite path text written =>
      path = join env (cwd options) (outputPath written)
      /\ status written = Success
      /\ converted written = Some text
      /\ dryRun options = false
  end.

End Batch.

(** ** tw-context.ts *)

Module TwContext.

(** The argument of [createTailwindContext]: a string, a configuration
    object, or nothing. *)
Inductive Input : Type :=
| CssOrConfigText (text : string)
| ConfigObject
| NoInput.

(** The text [@import "tailwindcss";]. *)
Definition DEFAULT_TAILWIND_CSS : string :=
  "@import " +:+ String (ascii_of_nat 34) "tailwindcss"
  +:+ String (ascii_of_nat 34) ";".

(** The CSS text from which the design system is built. *)
Definition deriveCss (cssOrConfig : Input) : string :=
  match cssOrConfig with
  | CssOrConfigText text =>
      if Js.includes "@import" text || Js.includes "@tailwind" text
         || Js.includes "@theme" text
      then text else DEFAULT_TAILWIND_CSS
  | ConfigObject => DEFAULT_TAILWIND_CSS
  | NoInput => DEFAULT_TAILWIND_CSS
  end.

(** A design-system object: its identity (the rank of its construction)
    and the context it offers. *)
Record DesignSystem : Type := mkDesignSystem {
  identity : nat;
  context : TailwindContext;
}.

(** The module-level variables, and the number of constructions so far. *)
Record Cache : Type := mkCache {
  cachedDesignSystem : option DesignSystem;
  cachedCss : option string;
  constructions : nat;
}.

Definition emptyCache : Cache := mkCache None None 0.

Section Loader.

(** [__unstable__loadDesignSystem]: [None] where it throws. *)
Variable loadDesignSystem : string -> option TailwindContext.

(** The construction of a new design system and its caching; a failed
    construction leaves the cached pair as it was. *)
Definition construct (css : string) (st : Cache) : option DesignSystem * Cache :=
  match loadDesignSystem css with
  | Some ctx =>
      let designSystem := mkDesignSystem (constructions st) ctx in
      (Some designSystem, mkCache (Some designSystem) (Some css) (S (constructions st)))
  | None =>
      (None, mkCache (cachedDesignSystem st) (cachedCss st) (S (constructions st)))
  end.

(** Creates a Tailwind context from CSS content: the context returned
    ([None] when the construction throws) and the cache afterwards. *)
Definition createTailwindContext (cssOrConfig : Input) (st : Cache)
    : option DesignSystem * Cache :=
  let css := deriveCss cssOrConfig in
  match cachedDesignSystem st with
  | Some cached =>
      if bool_decide (cachedCss st = Some css) then (Some cached, st)
      else construct css st
  | None => construct css st
  end.

End Loader.

(** Clear the cached design system. *)
Definition clearTailwindContextCache (st : Cache) : Cache :=
  mkCache None None (constructions st).

(** Synchronous version that returns the cached design system; it throws
    ([None]) if nothing is cached. *)
Definition createTailwindContextSync (st : Cache) : option DesignSystem :=
  cachedDesignSystem st.

(** Initialize the default Tailwind context ([createTailwindContext()]);
    [loadTailwindContext] of [config/load-context.ts] makes the same call
    whatever its options are. *)
Definition initTailwindContext (loadDesignSystem : string -> option TailwindContext)
    (st : Cache) : option DesignSystem * Cache :=
  createTailwindContext loadDesignSystem NoInput st.

End TwContext.

(** ** html-to-jsx.ts: component names *)

Module HtmlToJsx.

(** [[-_\s]] *)
Definition isNameSeparator (c : ascii) : bool :=
  Ascii.eqb c "-" || Ascii.eqb c "_" || Js.isSpace c.

(** [str.split(/[-_\s]+/)]: the pieces between the maximal runs of
    separators, the empty pieces at both ends included; [inRun] tells that
    the character before was a separator. *)
Fixpoint splitNames (inRun : bool) (str : string) : list string :=
  match str with
  | EmptyString => [EmptyString]
  | String c r =>
      if isNameSeparator c
      then (if inRun then splitNames true r else EmptyString :: splitNames true r)
      else match splitNames false r with
           | h :: t => String c h :: t
           | [] => [String c EmptyString]
           end
  end.

(** [word.charAt(0).toUpperCase() + word.slice(1).toLowerCase()] *)
Definition capitalize (word : string) : string :=
  match word with
  | EmptyString => EmptyString
  | String c r => String (Js.toUpperCase c) (Js.stringToLowerCase r)
  end.

(** Convert a kebab-case string to PascalCase. *)
Definition toPascalCase (str : string) : string :=
  Js.join EmptyString (map capitalize (splitNames false str)).

(** The conversion read character by character, to compare with
    [toPascalCase]: the separators are dropped, a character at the start
    of a word is put in upper case and every other one in lower case. *)
Fixpoint pascalCharacters (wordStart : bool) (str : string) : string :=
  match str with
  | EmptyString => EmptyString
  | String c r =>
      if isNameSeparator c then pascalCharacters true r
      else String (if wordStart then Js.toUpperCase c else Js.toLowerCase c)
             (pascalCharacters false r)
  end.

End HtmlToJsx.

(** ** rewrite-html-to-panda.ts: one class attribute *)

Module HtmlRewrite.

(** [classString.split(/\s+/).map((c) => c.trim()).filter(Boolean)]: the
    maximal runs of characters that are not white space; [cur] is the run
    that is being read. *)
Fixpoint wordsFrom (cur : string) (s : string) : list string :=
  match s with
  | EmptyString => if Js.truthy cur then [cur] else []
  | String c r =>
      if Js.isSpace c
      then (if Js.truthy cur then cur :: wordsFrom EmptyString r
            else wordsFrom EmptyString r)
      else wordsFrom (cur +:+ String c EmptyString) r
  end.

Definition words (s : string) : list string := wordsFrom EmptyString s.

Record ConvertedClass : Type := mkConvertedClass {
  pandaString : string;
  unconverted : list string;
  classesToKeep : list string;
}.

(** What the conversion takes from its surroundings: the candidate parser
    and the declaration tokenizer, [mergeCss] and [mapToShorthands] of
    Panda ([None] where they throw), and [formatStyles], the text of a
    style object ([JSON.stringify] with the two replacements). *)
Record Env : Type := mkEnv {
  parseTwClassName : string -> option TailwindClass;
  parseCssProperties : string -> TailwindContext -> list ParsedCssProperty;
  mergeCss : list StyleObject -> option StyleObject;
  mapToShorthands : StyleObject -> PandaContext -> option StyleObject;
  formatStyles : StyleObject -> string;
}.

(** Convert a Tailwind class list to a Panda CSS object string; [None]
    where it throws.  The loop over the class list is the one of
    [categorizeClasses]. *)
Definition convertClassesToPandaString (env : Env) (classString : string)
    (tailwind : TailwindContext) (panda : PandaContext) (shorthands : bool)
    : option ConvertedClass :=
  let classList := Js.uniq (words classString) in
  let categorized := Rewrite.categorizeClasses classList tailwind in
  let customClasses := Rewrite.customClasses categorized in
  let classesToKeep := Rewrite.markerClasses categorized ++ customClasses in
  if (length (Rewrite.twClasses categorized) =? 0)%nat then
    Some (mkConvertedClass EmptyString customClasses classesToKeep)
  else
    let styles :=
      Styles.twClassListToPandaStyles (parseTwClassName env) (parseCssProperties env)
        (Rewrite.twClasses categorized) tailwind panda in
    if (length styles =? 0)%nat then
      Some (mkConvertedClass EmptyString customClasses classesToKeep)
    else
      match mergeCss env (map snd styles) with
      | None => None
      | Some merged =>
          match (if shorthands then mapToShorthands env merged panda
                 else Some merged) with
          | None => None
          | Some finalStyles =>
              Some (mkConvertedClass (formatStyles env finalStyles) customClasses
                      classesToKeep)
          end
      end.

(** The double quote. *)
Definition quote : string := String (ascii_of_nat 34) EmptyString.

(** The attribute that [rewriteHtmlToPanda] puts in the place of a class
    attribute, if it replaces it. *)
Definition classAttribute (c : ConvertedClass) : option string :=
  if Js.truthy (pandaString c) then
    let cssCall := "css(" +:+ pandaString c +:+ ")" in
    if (0 <? length (classesToKeep c))%nat then
      let keptClassesStr :=
        Js.join ", " (map (fun cls => quote +:+ cls +:+ quote) (classesToKeep c)) in
      Some ("className={cx(" +:+ cssCall +:+ ", " +:+ keptClassesStr +:+ ")}")
    else Some ("className={" +:+ cssCall +:+ "}")
  else if (0 <? length (classesToKeep c))%nat then
    Some ("className=" +:+ quote +:+ Js.join " " (classesToKeep c) +:+ quote)
  else None.

(** [options.componentName || (options.fileName ?
    toPascalCase(options.fileName) : "Component")] *)
Definition componentName (componentNameOption fileName : option string) : string :=
  let fromFileName :=
    match fileName with
    | Some name => if Js.truthy name then HtmlToJsx.toPascalCase name else "Component"
    | None => "Component"
    end in
  match componentNameOption with
  | Some name => if Js.truthy name then name else fromFileName
  | None => fromFileName
  end.

End HtmlRewrite.

(** ** Sample inputs *)

Module Examples.

(** The class [md:hover:bg-red-500] as the parser reads it. *)
Definition mdHoverRed : TailwindClass :=
  mkTailwindClass "md:hover:bg-red-500" (Some "red-500") None ["md"; "hover"] false.

Definition parseTwClassName (cls : string) : option TailwindClass :=
  if String.eqb cls "md:hover:bg-red-500" then Some mdHoverRed else None.

Definition redCss : string := ".c { background-color: var(--color-red-500); }".

Definition tailwind : TailwindContext :=
  mkTailwindContext
    (map (fun cls => if String.eqb cls "md:hover:bg-red-500" then Some redCss else None))
    (fun _ => [])
    (fun name => if String.eqb name "--color-red-500" then Some "#ef4444" else None).

Definition parseCssProperties (css : string) (_ : TailwindContext)
    : list ParsedCssProperty :=
  if String.eqb css redCss
  then [mkParsedCssProperty "background-color" "red.500" "#ef4444"]
  else [].

Definition panda : PandaContext :=
  mkPandaContext
    (<["_hover" := mkCondition "&:hover"]>
       (<["md" := mkCondition "@media (min-width: 768px)"]> ∅))
    (fun _ => false).

(** Two patterns sharing two of their four classes: similarity 0.5. *)
Definition redButton : ExtractedPattern.t :=
  ExtractedPattern.mk "bg-red-500|flex|p-4" ["flex"; "p-4"; "bg-red-500"]
    (SObject []) 2 ["a.tsx"; "b.tsx"].

Definition blueButton : ExtractedPattern.t :=
  ExtractedPattern.mk "bg-blue-500|flex|p-4" ["flex"; "p-4"; "bg-blue-500"]
    (SObject []) 2 ["c.tsx"; "d.tsx"].

(** A pattern with the two classes that the buttons share, and three
    patterns of which the second is similar to both others, while the first
    and the third are not similar. *)
Definition plainButton : ExtractedPattern.t :=
  ExtractedPattern.mk "flex|p-4" ["flex"; "p-4"] (SObject []) 2 ["e.tsx"; "f.tsx"].

Definition marginRow : ExtractedPattern.t :=
  ExtractedPattern.mk "flex|m-2|p-4" ["flex"; "p-4"; "m-2"] (SObject []) 2
    ["a.tsx"; "b.tsx"].

Definition spacedRow : ExtractedPattern.t :=
  ExtractedPattern.mk "flex|gap-2|m-2|p-4" ["flex"; "p-4"; "gap-2"; "m-2"] (SObject []) 2
    ["c.tsx"; "d.tsx"].

Definition wideRow : ExtractedPattern.t :=
  ExtractedPattern.mk "flex|gap-2|p-4|w-4" ["flex"; "p-4"; "gap-2"; "w-4"] (SObject []) 2
    ["e.tsx"; "f.tsx"].

(** A project of two readable files with the same classes and one file
    that cannot be read.  The stand-in for [mergeCss] joins the fields of
    the style objects. *)
Definition fieldsOf (o : StyleObject) : list (string * StyleObject) :=
  match o with
  | SObject fields => fields
  | SValue _ => []
  end.

Definition analyzeEnv : Analyze.Env :=
  Analyze.mkEnv
    (fun path =>
       if String.eqb path "src/a.tsx" || String.eqb path "src/b.tsx"
       then Some "<div className='md:hover:bg-red-500 card' />" else None)
    (fun _ => ["md:hover:bg-red-500"; "card"])
    (fun path => path)
    tailwind panda parseTwClassName parseCssProperties
    (fun styles => Some (SObject (flat_map fieldsOf styles)))
    (fun styles _ => Some styles).

Definition projectFiles : list string := ["src/a.tsx"; "src/missing.tsx"; "src/b.tsx"].

(** Two patterns none of whose prefixes occurs twice, and a pattern whose
    most frequent prefix is a single letter. *)
Definition rowPattern : ExtractedPattern.t :=
  ExtractedPattern.mk "flex|items-center" ["flex"; "items-center"] (SObject []) 2 [].

Definition gridPattern : ExtractedPattern.t :=
  ExtractedPattern.mk "grid|justify-between" ["grid"; "justify-between"] (SObject []) 2 [].

Definition paddedPattern : ExtractedPattern.t :=
  ExtractedPattern.mk "flex|p-2|p-4" ["p-4"; "p-2"; "flex"] (SObject []) 2 [].

(** A batch over three TypeScript files, the second of which is not on
    the disk. *)
Definition batchEnv : Batch.Env :=
  Batch.mkEnv
    (fun dir file => dir +:+ "/" +:+ file)
    (fun file => if Js.endsWith ".tsx" file then ".tsx" else EmptyString)
    (fun file _ => file)
    (fun content _ _ => inr (content, []))
    (fun content _ _ => inr ("css " +:+ content))
    (fun output => output)
    (fun file => "ENOENT: no such file, open " +:+ file)
    (fun _ => None).

Definition batchOptions : Batch.BatchOptions :=
  Batch.mkBatchOptions "/proj" None false false
    Batch.DEFAULT_HTML_EXTENSIONS Batch.DEFAULT_TS_EXTENSIONS 4.

Definition disk : Batch.FileSystem :=
  <["/proj/a.tsx" := "flex"]> (<["/proj/c.tsx" := "grid"]> ∅).

Definition batchFiles : list string := ["a.tsx"; "b.tsx"; "c.tsx"].

(** The class [!bg-red-500] as the parser reads it, with a design system
    that knows it. *)
Definition importantRed : TailwindClass :=
  mkTailwindClass "!bg-red-500" (Some "red-500") None [] true.

Definition importantParse (cls : string) : option TailwindClass :=
  if String.eqb cls "!bg-red-500" then Some importantRed else None.

Definition importantTailwind : TailwindContext :=
  mkTailwindContext
    (map (fun cls => if String.eqb cls "!bg-red-500" then Some redCss else None))
    (fun _ => [])
    (fun name => if String.eqb name "--color-red-500" then Some "#ef4444" else None).

(** The surroundings of the conversion of a class attribute, with
    stand-ins for Panda's functions. *)
Definition htmlEnv : HtmlRewrite.Env :=
  HtmlRewrite.mkEnv parseTwClassName parseCssProperties
    (fun styles => Some (SObject (flat_map fieldsOf styles)))
    (fun styles _ => Some styles)
    (fun _ => "{ }").

(** A project directory with a file of its own, a source directory and
    installed packages. *)
Definition projectTree : list Scan.Entry :=
  [ Scan.FileEntry "App.tsx";
    Scan.DirectoryEntry "src"
      [ Scan.FileEntry "Button.tsx"; Scan.FileEntry "notes.md";
        Scan.DirectoryEntry "ui" [Scan.FileEntry "card.html"] ];
    Scan.DirectoryEntry "node_modules"
      [Scan.DirectoryEntry "pkg" [Scan.FileEntry "index.js"]] ].

(** Stand-ins for [join] and [relative] of [pathe] on the paths of the
    samples, whose base is [.] or a path in normal form. *)
Definition joinPath (dir name : string) : string :=
  if String.eqb dir "." then name else dir +:+ "/" +:+ name.

Definition relativePath (baseDir path : string) : string :=
  if String.eqb baseDir "." then path
  else default path (Js.stripPrefix (baseDir +:+ "/") path).

(** The same batch as a dry run. *)
Definition dryRunOptions : Batch.BatchOptions :=
  Batch.mkBatchOptions "/proj" None false true
    Batch.DEFAULT_HTML_EXTENSIONS Batch.DEFAULT_TS_EXTENSIONS 2.

End Examples.

(** ** Readings of the specification's wording

    Definitions that follow the words of the specification where the
    source does otherwise; the properties compare them with the source. *)

Module SpecWords.

(** The nesting with the first-listed modifier as the outermost key. *)
Definition nestFirstOutermost (panda : PandaContext) (mods : list string)
    (init : StyleObject) : StyleObject :=
  foldr (fun modifier acc => SObject [(Styles.conditionValue panda modifier, acc)])
    init mods.

(** The clustering as the specification describes it: in discovery order,
    each pattern that is not yet grouped opens a group and absorbs every
    later pattern that is not yet grouped and whose similarity to it exceeds
    0.5; a group without absorbed patterns is dropped. *)
Fixpoint greedyGroups (used : gset string) (patterns : list ExtractedPattern.t)
    : list (list ExtractedPattern.t) :=
  match patterns with
  | [] => []
  | pattern :: rest =>
      if bool_decide (ExtractedPattern.id pattern ∈ used) then greedyGroups used rest
      else
        let absorbed :=
          List.filter
            (fun other =>
               negb (bool_decide (ExtractedPattern.id other ∈ used))
               && Analyze.aboveHalf
                    (Analyze.calculateSimilarity (ExtractedPattern.classes pattern)
                       (ExtractedPattern.classes other)))
            rest in
        let used' :=
          used ∪ {[ExtractedPattern.id pattern]}
          ∪ list_to_set (map ExtractedPattern.id absorbed) in
        match absorbed with
        | [] => greedyGroups used' rest
        | _ :: _ => (pattern :: absorbed) :: greedyGroups used' rest
        end
  end.

(** The estimate in hours before rounding. *)
Definition effortHours (unconverted patterns : Z) : Q :=
  ((inject_Z unconverted * 1 + inject_Z patterns * (1 # 2)) / 60)%Q.

(** Rounding to one decimal, to the nearest tenth (halves go up). *)
Definition roundToOneDecimal (x : Q) : Q :=
  (inject_Z (Qfloor (x * 10 + (1 # 2))) / 10)%Q.

(** How many of the classes have the dash-delimited prefix [q], whatever
    its length. *)
Definition dashPrefixCount (q : string) (classes : list string) : Z :=
  Z.of_nat (length (List.filter
                      (fun cls => bool_decide (Analyze.classPrefix cls = q)) classes)).

End SpecWords.

(* ===================================================================== *)
(** * Part II: the properties                                            *)
(* ===================================================================== *)

(** ** Evaluations on sample inputs *)

Example kebabToCamel_samples :
  Styles.kebabToCamel "focus-visible" = "focusVisible"
  /\ Styles.kebabToCamel "md" = "md"
  /\ Styles.kebabToCamel "group-hover" = "groupHover".
Proof. repeat split. Qed.

Example isResolvableValue_samples :
  Styles.isResolvableValue "#3b82f6" = true
  /\ Styles.isResolvableValue "oklch(0.551 0.027 264.364)" = true
  /\ Styles.isResolvableValue "0.75rem" = true
  /\ Styles.isResolvableValue "space-between" = true
  /\ Styles.isResolvableValue "var(--container-lg)" = false
  /\ Styles.isResolvableValue "calc(var(--spacing) * 4)" = false
  /\ Styles.isResolvableValue "1px solid" = false.
Proof. repeat split. Qed.

Example formatTokenValue_samples :
  Styles.formatTokenValue "color" "blue.500" "#3b82f6" = "token(colors.blue.500, #3b82f6)"
  /\ Styles.formatTokenValue "color" "gray.500" "#6b7280" = "token(colors.gray.500, #6b7280)"
  /\ Styles.formatTokenValue "maxWidth" "lg" "var(--container-lg)" = "var(--container-lg)"
  /\ Styles.formatTokenValue "display" "flex" "flex" = "flex"
  /\ Styles.formatTokenValue "cursor" "pointer.x" "auto" = "auto".
Proof. vm_compute. repeat split. Qed.

Example categorizeClasses_sample :
  Rewrite.categorizeClasses ["group"; "card"; "md:hover:bg-red-500"; "peer/menu"]
    Examples.tailwind
  = Rewrite.mkCategorized ["md:hover:bg-red-500"] ["group"; "peer/menu"] ["card"].
Proof. reflexivity. Qed.

Example tokenMatches_samples :
  Analyze.tokenMatches "token(colors.blue.500, #3b82f6) token(spacing.4)"
  = [("colors.blue.500", Some "#3b82f6"); ("spacing.4", None)]
  /\ Analyze.tokenMatches "1px solid token(colors.red.500, #ef4444" = [].
Proof. repeat split. Qed.

Example generatePatternId_sample :
  Analyze.generatePatternId ["flex"; "p-4"; "bg-red-500"] = "bg-red-500|flex|p-4".
Proof. reflexivity. Qed.

Example replaceHtmlExtension_samples :
  Batch.replaceHtmlExtension "pages/index.HTML" = "pages/index.tsx"
  /\ Batch.replaceHtmlExtension "pages/index.htm" = "pages/index.tsx"
  /\ Batch.replaceHtmlExtension "pages/index.tsx" = "pages/index.tsx".
Proof. repeat split. Qed.

(** ** Facts about strings *)

Lemma string_length_app (s t : string) :
  String.length (s +:+ t) = (String.length s + String.length t)%nat.
Proof. induction s as [|c s IH]; simpl; [reflexivity | now rewrite IH]. Qed.

Lemma string_app_inv_tail (s1 s2 t : string) :
  s1 +:+ t = s2 +:+ t -> s1 = s2.
Proof.
  revert s2. induction s1 as [|c s1 IH]; intros [|d s2] H.
  - reflexivity.
  - apply (f_equal String.length) in H.
    rewrite !string_length_app in H. simpl in H. lia.
  - apply (f_equal String.length) in H.
    rewrite !string_length_app in H. simpl in H. lia.
  - change (String c (s1 +:+ t) = String d (s2 +:+ t)) in H.
    injection H as -> H. f_equal. now apply IH.
Qed.

Lemma truthy_true (s : string) : Js.truthy s = true <-> s <> EmptyString.
Proof.
  unfold Js.truthy. rewrite negb_true_iff. apply String.eqb_neq.
Qed.

Lemma listIncludes_true (x : string) (l : list string) :
  Js.listIncludes x l = true <-> x ∈ l.
Proof.
  unfold Js.listIncludes. rewrite existsb_exists, list_elem_of_In. split.
  - intros (y & Hy & Heq). apply String.eqb_eq in Heq. now subst.
  - intros Hx. exists x. split; [assumption | apply String.eqb_refl].
Qed.

Lemma listIncludes_false (x : string) (l : list string) :
  Js.listIncludes x l = false <-> x ∉ l.
Proof.
  rewrite <- listIncludes_true. destruct (Js.listIncludes x l); intuition congruence.
Qed.

(** ** Token formatting *)

Section FormatTokenValue.

Import Styles.

Lemma category_entries_truthy :
  Forall (fun e => Js.truthy (snd e) = true) PROP_TO_TOKEN_CATEGORY_entries.
Proof. unfold PROP_TO_TOKEN_CATEGORY_entries. repeat constructor. Qed.

Lemma inherited_entries_truthy :
  Forall (fun e => Js.truthy (snd e) = true
                   /\ PROP_TO_TOKEN_CATEGORY !! fst e = None)
    OBJECT_PROTOTYPE_entries.
Proof. unfold OBJECT_PROTOTYPE_entries. repeat constructor. Qed.

(** No name of [Object.prototype] is a property of the table itself. *)
Lemma inherited_not_own (p t : string) :
  OBJECT_PROTOTYPE !! p = Some t ->
  Js.truthy t = true /\ PROP_TO_TOKEN_CATEGORY !! p = None.
Proof.
  intros H. apply elem_of_list_to_map_2 in H.
  pose proof inherited_entries_truthy as HF.
  rewrite Forall_forall in HF. exact (HF _ H).
Qed.

Lemma categoryLookup_own (p c : string) :
  PROP_TO_TOKEN_CATEGORY !! p = Some c -> categoryLookup p = Some c.
Proof. intros H. unfold categoryLookup. now rewrite H. Qed.

Lemma category_truthy (p c : string) :
  categoryLookup p = Some c -> Js.truthy c = true.
Proof.
  unfold categoryLookup.
  destruct (PROP_TO_TOKEN_CATEGORY !! p) as [c'|] eqn:Hown.
  - intros [= <-]. apply elem_of_list_to_map_2 in Hown.
    pose proof category_entries_truthy as HF.
    rewrite Forall_forall in HF. exact (HF _ Hown).
  - intros H. now apply inherited_not_own in H.
Qed.

Lemma tokenCall_longer (c t r : string) :
  (String.length r < String.length (tokenCall c t r))%nat.
Proof.
  unfold tokenCall. repeat rewrite string_length_app. simpl. lia.
Qed.

Lemma tokenCall_neq_raw (c t r : string) : tokenCall c t r <> r.
Proof.
  intros H. pose proof (tokenCall_longer c t r) as Hl. rewrite H in Hl. lia.
Qed.

Lemma tokenCall_category_inj (c c' t r : string) :
  tokenCall c t r = tokenCall c' t r -> c = c'.
Proof.
  unfold tokenCall. intros H. apply (inj (String.app "token(")) in H.
  now apply string_app_inv_tail in H.
Qed.

Lemma resolvable_no_var (v : string) :
  isResolvableValue v = true -> Js.includes "var(--" v = false.
Proof.
  unfold isResolvableValue. destruct (Js.includes "var(--" v); congruence.
Qed.

(** C3.  The formatted value is [token(category.tokenPath, rawValue)]
    exactly when the token path differs from the raw value, the raw value
    has a usable literal shape and the lookup of the property in the table
    gives a value; in every other case it is the raw value, unwrapped.  A
    usable value holds no [var(--] reference, so a raw value that still
    refers to a variable is emitted as it stands.  The lookup gives the
    entry of the table for every property name but the twelve names of
    [Object.prototype]: for these, which have no entry, it gives the
    inherited value, and the value is wrapped all the same, with the text
    of a built-in function as its category.  So does the property
    [constructor] with the token path [red.500] and the value [#ef4444]. *)
Theorem formatTokenValue_wraps_iff (propName tokenPath rawValue : string) :
  (forall category,
     formatTokenValue propName tokenPath rawValue
       = tokenCall category tokenPath rawValue
     <-> tokenPath <> rawValue
         /\ isResolvableValue rawValue = true
         /\ categoryLookup propName = Some category)
  /\ ((tokenPath = rawValue
       \/ isResolvableValue rawValue = false
       \/ categoryLookup propName = None)
      <-> formatTokenValue propName tokenPath rawValue = rawValue)
  /\ (isResolvableValue rawValue = true -> Js.includes "var(--" rawValue = false)
  /\ (Js.includes "var(--" rawValue = true
      -> formatTokenValue propName tokenPath rawValue = rawValue)
  /\ (OBJECT_PROTOTYPE !! propName = None
      <-> categoryLookup propName = PROP_TO_TOKEN_CATEGORY !! propName)
  /\ (forall inherited,
        OBJECT_PROTOTYPE !! propName = Some inherited ->
        PROP_TO_TOKEN_CATEGORY !! propName = None
        /\ (tokenPath <> rawValue -> isResolvableValue rawValue = true ->
            formatTokenValue propName tokenPath rawValue
            = tokenCall inherited tokenPath rawValue))
  /\ (PROP_TO_TOKEN_CATEGORY !! "constructor" = None
      /\ formatTokenValue "constructor" "red.500" "#ef4444"
         = "token(function Object() { [native code] }.red.500, #ef4444)"
      /\ formatTokenValue "constructor" "red.500" "#ef4444" <> "#ef4444").
Proof.
  assert (Hcases :
    (tokenPath <> rawValue /\ isResolvableValue rawValue = true
     /\ exists c, categoryLookup propName = Some c
                  /\ formatTokenValue propName tokenPath rawValue
                     = tokenCall c tokenPath rawValue)
    \/ ((tokenPath = rawValue \/ isResolvableValue rawValue = false
         \/ categoryLookup propName = None)
        /\ formatTokenValue propName tokenPath rawValue = rawValue)).
  { unfold formatTokenValue.
    destruct (String.eqb_spec tokenPath rawValue) as [Heq | Hne].
    - right. split; [left; assumption | reflexivity].
    - destruct (isResolvableValue rawValue) eqn:Hres; cbn [negb].
      + destruct (categoryLookup propName) as [c|] eqn:Hcat.
        * rewrite (category_truthy _ _ Hcat). left. eauto.
        * right. split; [right; right; reflexivity | reflexivity].
      + right. split; [right; left; reflexivity | reflexivity]. }
  split; [|split; [|split; [|split; [|split; [|split]]]]].
  - intros category. split.
    + intros Hfmt. destruct Hcases as [(Hne & Hres & c & Hcat & Hc) | [_ Hraw]].
      * rewrite Hc in Hfmt. apply tokenCall_category_inj in Hfmt. subst c. auto.
      * rewrite Hraw in Hfmt. symmetry in Hfmt. now apply tokenCall_neq_raw in Hfmt.
    + intros (Hne & Hres & Hcat).
      destruct Hcases as [(_ & _ & c & Hcat' & Hc) | [[Heq | [Hno | Hnone]] _]];
        congruence.
  - split.
    + intros Hor. destruct Hcases as [(Hne & Hres & c & Hcat & _) | [_ Hraw]].
      * destruct Hor as [Heq | [Hno | Hnone]]; congruence.
      * exact Hraw.
    + intros Hraw. destruct Hcases as [(_ & _ & c & _ & Hc) | [Hor _]].
      * rewrite Hc in Hraw. now apply tokenCall_neq_raw in Hraw.
      * exact Hor.
  - apply resolvable_no_var.
  - intros Hvar. destruct Hcases as [(_ & Hres & _) | [_ Hraw]].
    + apply resolvable_no_var in Hres. congruence.
    + exact Hraw.
  - unfold categoryLookup. split.
    + intros Hnone. rewrite Hnone. now destruct (PROP_TO_TOKEN_CATEGORY !! propName).
    + destruct (OBJECT_PROTOTYPE !! propName) as [t|] eqn:Hin; [|reflexivity].
      destruct (inherited_not_own _ _ Hin) as [_ Hown]. rewrite Hown. discriminate.
  - intros inherited Hin. destruct (inherited_not_own _ _ Hin) as [Ht Hown].
    split; [exact Hown|]. intros Hne Hres.
    unfold formatTokenValue, categoryLookup. rewrite Hown, Hin, Hres, Ht.
    destruct (String.eqb_spec tokenPath rawValue); [contradiction | reflexivity].
  - split; [reflexivity|]. split; [reflexivity|]. apply tokenCall_neq_raw.
Qed.

End FormatTokenValue.

(** ** Condition nesting *)

Section ModifierNesting.

Import Styles.

Variable parseTwClassName : string -> option TailwindClass.
Variable parseCssProperties : string -> TailwindContext -> list ParsedCssProperty.

Lemma nestModifiers_snoc (panda : PandaContext) (mods : list string) (m : string)
    (init : StyleObject) :
  nestModifiers panda (mods ++ [m]) init
  = SObject [(conditionValue panda m, nestModifiers panda mods init)].
Proof. unfold nestModifiers. now rewrite fold_left_app. Qed.

(** The source nests the list in reverse: its last modifier is outermost. *)
Lemma nestModifiers_reverse (panda : PandaContext) (mods : list string)
    (init : StyleObject) :
  nestModifiers panda mods init = SpecWords.nestFirstOutermost panda (rev mods) init.
Proof.
  unfold nestModifiers, SpecWords.nestFirstOutermost.
  rewrite <- fold_left_rev_right. reflexivity.
Qed.

Lemma twClassListToPandaStyles_entry (classList : list string)
    (tailwind : TailwindContext) (panda : PandaContext)
    (m : MatchingToken) (st : StyleObject) :
  (m, st) ∈ twClassListToPandaStyles parseTwClassName parseCssProperties
              classList tailwind panda
  <-> exists className,
        className ∈ classList
        /\ m ∈ getMatchingTwCandidates parseTwClassName parseCssProperties
                 className tailwind panda
        /\ st = tokenStyles panda m.
Proof.
  unfold twClassListToPandaStyles.
  rewrite list_elem_of_In, in_flat_map. split.
  - intros (c & Hc & Hin). apply in_map_iff in Hin as (m' & Heq & Hm').
    injection Heq as -> <-. exists c. rewrite !list_elem_of_In. auto.
  - intros (c & Hc & Hm & ->). exists c. rewrite list_elem_of_In in Hc.
    split; [assumption|]. apply in_map_iff. exists m.
    rewrite list_elem_of_In in Hm. auto.
Qed.

Lemma conditionValue_resolution (panda : PandaContext) (modifier : string) :
  let camel := kebabToCamel modifier in
  let values := conditions_values panda in
  (is_Some (values !! ("_" +:+ camel))
   -> conditionValue panda modifier = "_" +:+ camel)
  /\ (values !! ("_" +:+ camel) = None -> is_Some (values !! camel)
      -> conditionValue panda modifier = camel)
  /\ (values !! ("_" +:+ camel) = None -> values !! camel = None
      -> conditionValue panda modifier = modifier).
Proof.
  intros camel values. unfold conditionValue. fold camel. fold values.
  repeat split.
  - intros H. now rewrite bool_decide_eq_true_2.
  - intros H1 H2. rewrite bool_decide_eq_false_2 by (rewrite H1; apply is_Some_None).
    now rewrite bool_decide_eq_true_2.
  - intros H1 H2. rewrite !bool_decide_eq_false_2; [reflexivity | |].
    + rewrite H2. apply is_Some_None.
    + rewrite H1. apply is_Some_None.
Qed.

(** C1, as the source has it.  For a class whose candidate carries the
    modifier list [[m1; m2]], the style object of each resolved property is
    [{k2: {k1: {property: value}}}]: the reduction wraps the accumulator once
    per modifier in listed order, so the last-listed modifier is the
    outermost key (for a list of any length, the nesting is first-outermost
    on the reversed list).  Each key is the prefixed camel-cased name when
    that is a registered condition, else the bare camel-cased name when
    registered, else the modifier as written. *)
Theorem twClassListToPandaStyles_last_modifier_outermost
    (classList : list string) (tailwind : TailwindContext) (panda : PandaContext)
    (m : MatchingToken) (st : StyleObject) (m1 m2 : string) :
  (m, st) ∈ twClassListToPandaStyles parseTwClassName parseCssProperties
              classList tailwind panda ->
  modifiers (classInfo m) = [m1; m2] ->
  st = SObject
         [(conditionValue panda m2,
           SObject
             [(conditionValue panda m1,
               SObject
                 [(propName m,
                   SValue (formatTokenValue (propName m) (tokenName m) (rawValue m)))])])]
  /\ st = SpecWords.nestFirstOutermost panda (rev (modifiers (classInfo m)))
            (SObject
               [(propName m,
                 SValue (formatTokenValue (propName m) (tokenName m) (rawValue m)))])
  /\ forall modifier,
       let camel := kebabToCamel modifier in
       let values := conditions_values panda in
       (is_Some (values !! ("_" +:+ camel))
        -> conditionValue panda modifier = "_" +:+ camel)
       /\ (values !! ("_" +:+ camel) = None -> is_Some (values !! camel)
           -> conditionValue panda modifier = camel)
       /\ (values !! ("_" +:+ camel) = None -> values !! camel = None
           -> conditionValue panda modifier = modifier).
Proof.
  intros Hin Hmods.
  apply twClassListToPandaStyles_entry in Hin as (c & _ & _ & ->).
  split; [|split].
  - unfold tokenStyles. rewrite Hmods. reflexivity.
  - unfold tokenStyles. apply nestModifiers_reverse.
  - intros modifier. apply conditionValue_resolution.
Qed.

End ModifierNesting.

(** The class [md:hover:bg-red-500], with [_hover] and [md] registered,
    yields [{_hover: {md: {backgroundColor: ...}}}]. *)
Lemma twClassListToPandaStyles_last_modifier_outermost_witness :
  let m := mkMatchingToken "backgroundColor" "red.500" "#ef4444" Examples.mdHoverRed in
  Styles.tokenStyles Examples.panda m
  = SObject
      [("_hover",
        SObject
          [("md",
            SObject [("backgroundColor", SValue "token(colors.red.500, #ef4444)")])])].
Proof.
  intros m.
  destruct (twClassListToPandaStyles_last_modifier_outermost
              Examples.parseTwClassName Examples.parseCssProperties
              ["md:hover:bg-red-500"] Examples.tailwind Examples.panda
              m (Styles.tokenStyles Examples.panda m) "md" "hover") as [H _].
  - vm_compute. constructor.
  - reflexivity.
  - rewrite H. vm_compute. reflexivity.
Defined.

(** C1 as stated fails: for the modifier list [[md; hover]] the style object
    is not [{md: {_hover: {property: value}}}]. *)
Lemma first_modifier_outermost_fails :
  let m := mkMatchingToken "backgroundColor" "red.500" "#ef4444" Examples.mdHoverRed in
  (m, Styles.tokenStyles Examples.panda m)
    ∈ Styles.twClassListToPandaStyles Examples.parseTwClassName
        Examples.parseCssProperties ["md:hover:bg-red-500"]
        Examples.tailwind Examples.panda
  /\ modifiers (classInfo m) = ["md"; "hover"]
  /\ Styles.tokenStyles Examples.panda m
     <> SObject
          [(Styles.conditionValue Examples.panda "md",
            SObject
              [(Styles.conditionValue Examples.panda "hover",
                SObject
                  [(propName m,
                    SValue (Styles.formatTokenValue (propName m) (tokenName m)
                              (rawValue m)))])])].
Proof.
  intros m. split; [|split].
  - vm_compute. constructor.
  - reflexivity.
  - vm_compute. intros H. discriminate H.
Qed.

(** ** Categorizing a class list *)

Section Categorize.

Import Rewrite.

Variable tailwind : TailwindContext.

#[local] Abbreviation isCustom := (Rewrite.isCustom tailwind).
#[local] Abbreviation isUtility := (Rewrite.isUtility tailwind).

Lemma categorize_fold (classList : list string) (acc : Categorized) :
  fold_left (categorizeStep tailwind) classList acc
  = mkCategorized
      (twClasses acc ++ List.filter isUtility classList)
      (markerClasses acc ++ List.filter isTailwindMarkerClass classList)
      (customClasses acc ++ List.filter isCustom classList).
Proof.
  revert acc. induction classList as [|cls l IH]; intros acc.
  - simpl. rewrite !app_nil_r. now destruct acc.
  - cbn [fold_left List.filter]. rewrite IH. unfold categorizeStep, isCustom, isUtility.
    destruct (isTailwindMarkerClass cls); cbn [negb andb twClasses markerClasses customClasses].
    + now rewrite <- app_assoc.
    + destruct (cssTruthy (firstCss tailwind cls));
        cbn [negb twClasses markerClasses customClasses];
        now rewrite <- app_assoc.
Qed.

Lemma categorizeClasses_filters (classList : list string) :
  categorizeClasses classList tailwind
  = mkCategorized (List.filter isUtility classList)
      (List.filter isTailwindMarkerClass classList)
      (List.filter isCustom classList).
Proof. unfold categorizeClasses. now rewrite categorize_fold. Qed.

Lemma three_way_permutation (classList : list string) :
  classList ≡ₚ List.filter isTailwindMarkerClass classList
               ++ List.filter isCustom classList
               ++ List.filter isUtility classList.
Proof.
  induction classList as [|cls l IH]; [reflexivity|].
  cbn [List.filter]. unfold isCustom at 1, isUtility at 1.
  destruct (isTailwindMarkerClass cls); cbn [negb andb].
  - cbn [app]. now constructor.
  - destruct (cssTruthy (firstCss tailwind cls)); cbn [negb].
    + etrans; [apply Permutation_skip, IH|].
      rewrite !app_assoc. apply Permutation_middle.
    + etrans; [apply Permutation_skip, IH|].
      apply (Permutation_middle _ (_ ++ _)).
Qed.

Lemma elem_of_filter_bool (f : string -> bool) (l : list string) (x : string) :
  x ∈ List.filter f l <-> x ∈ l /\ f x = true.
Proof. rewrite !list_elem_of_In. apply filter_In. Qed.

(** C2.  Categorizing a class list splits it into three parts: the marker
    classes are those matching the marker pattern, whatever the resolver
    says of them; the custom classes are the other classes for which the
    resolver yields no CSS; the Tailwind classes are the rest.  The parts
    are pairwise disjoint, together they are the list, and the style
    entries of the class list all stem from its Tailwind classes.  For a
    resolver that yields either [null] or a non-empty text, the custom
    classes are exactly the classes resolving to [null] that are not marker
    classes. *)
Theorem categorizeClasses_partition (classList : list string) :
  markerClasses (categorizeClasses classList tailwind)
    = List.filter isTailwindMarkerClass classList
  /\ customClasses (categorizeClasses classList tailwind)
     = List.filter
         (fun cls => negb (isTailwindMarkerClass cls)
                     && negb (cssTruthy (firstCss tailwind cls))) classList
  /\ twClasses (categorizeClasses classList tailwind)
     = List.filter
         (fun cls => negb (isTailwindMarkerClass cls)
                     && cssTruthy (firstCss tailwind cls)) classList
  /\ (forall cls,
        cls ∈ classList
        <-> cls ∈ markerClasses (categorizeClasses classList tailwind)
            \/ cls ∈ customClasses (categorizeClasses classList tailwind)
            \/ cls ∈ twClasses (categorizeClasses classList tailwind))
  /\ (forall cls,
        ~ (cls ∈ markerClasses (categorizeClasses classList tailwind)
           /\ cls ∈ customClasses (categorizeClasses classList tailwind))
        /\ ~ (cls ∈ markerClasses (categorizeClasses classList tailwind)
              /\ cls ∈ twClasses (categorizeClasses classList tailwind))
        /\ ~ (cls ∈ customClasses (categorizeClasses classList tailwind)
              /\ cls ∈ twClasses (categorizeClasses classList tailwind)))
  /\ classList ≡ₚ markerClasses (categorizeClasses classList tailwind)
                   ++ customClasses (categorizeClasses classList tailwind)
                   ++ twClasses (categorizeClasses classList tailwind)
  /\ ((forall cls css, firstCss tailwind cls = Some css -> css <> EmptyString)
      -> forall cls,
           cls ∈ customClasses (categorizeClasses classList tailwind)
           <-> cls ∈ classList
               /\ firstCss tailwind cls = None
               /\ isTailwindMarkerClass cls = false)
  /\ (forall parseTwClassName parseCssProperties panda m st,
        (m, st) ∈ classListStyles parseTwClassName parseCssProperties
                    classList tailwind panda
        -> exists cls,
             cls ∈ twClasses (categorizeClasses classList tailwind)
             /\ isTailwindMarkerClass cls = false
             /\ cssTruthy (firstCss tailwind cls) = true
             /\ m ∈ Styles.getMatchingTwCandidates parseTwClassName
                      parseCssProperties cls tailwind panda
             /\ st = Styles.tokenStyles panda m).
Proof.
  rewrite categorizeClasses_filters.
  cbn [twClasses markerClasses customClasses].
  split; [reflexivity|]. split; [reflexivity|]. split; [reflexivity|].
  split; [|split; [|split; [|split]]].
  - intros cls. rewrite !elem_of_filter_bool. unfold isCustom, isUtility.
    destruct (isTailwindMarkerClass cls), (cssTruthy (firstCss tailwind cls));
      cbn [negb andb]; intuition congruence.
  - intros cls. rewrite !elem_of_filter_bool. unfold isCustom, isUtility.
    destruct (isTailwindMarkerClass cls), (cssTruthy (firstCss tailwind cls));
      cbn [negb andb]; intuition congruence.
  - apply three_way_permutation.
  - intros Hres cls. rewrite elem_of_filter_bool. unfold isCustom.
    destruct (isTailwindMarkerClass cls); cbn [negb andb]; [intuition congruence|].
    destruct (firstCss tailwind cls) as [css|] eqn:Hcss; cbn [cssTruthy from_option].
    + specialize (Hres _ _ Hcss). apply truthy_true in Hres. rewrite Hres.
      cbn [negb]. intuition congruence.
    + cbn [negb]. intuition congruence.
  - intros parse parseCss panda m st Hin. unfold classListStyles in Hin.
    rewrite categorizeClasses_filters in Hin. cbn [twClasses] in Hin.
    apply twClassListToPandaStyles_entry in Hin as (cls & Hcls & Hm & ->).
    exists cls. pose proof Hcls as Hcls'.
    apply elem_of_filter_bool in Hcls' as [_ Hu]. unfold isUtility in Hu.
    apply andb_true_iff in Hu as [Hm1 Hm2]. apply negb_true_iff in Hm1. auto.
Qed.

End Categorize.

(** ** Clustering of similar patterns *)

Section Clustering.

Import Analyze.

Lemma Qdiv_le_half (i u : Z) :
  0 < u -> (inject_Z i / inject_Z u <= 1 # 2)%Q <-> 2 * i <= u.
Proof.
  intros Hu.
  assert (Hpos : (0 < inject_Z u)%Q) by (unfold Qlt; simpl; lia).
  assert (Hhalf : (inject_Z i <= (1 # 2) * inject_Z u)%Q <-> 2 * i <= u).
  { unfold Qle. simpl. lia. }
  rewrite <- Hhalf. split.
  - intros H. apply (Qmult_le_compat_r _ _ (inject_Z u)) in H; [|now apply Qlt_le_weak].
    rewrite Qmult_comm, Qmult_div_r in H; [exact H|].
    intros Heq. rewrite Heq in Hpos. discriminate Hpos.
  - intros H. now apply Qle_shift_div_r.
Qed.

Lemma aboveHalf_iff (a b : list string) :
  aboveHalf (calculateSimilarity a b) = true
  <-> (unionSize a b < 2 * intersectionSize a b)%nat.
Proof.
  unfold aboveHalf, calculateSimilarity. fold (intersectionSize a b) (unionSize a b).
  rewrite negb_true_iff, <- not_true_iff_false, Qle_bool_iff.
  destruct (0 <? unionSize a b)%nat eqn:Hu.
  - apply Nat.ltb_lt in Hu. rewrite Qdiv_le_half by lia. lia.
  - apply Nat.ltb_ge in Hu. split.
    + intros H. exfalso. apply H. unfold Qle. simpl. lia.
    + intros H. exfalso.
      unfold unionSize, intersectionSize in *.
      destruct (Js.uniq a) as [|x l]; [simpl in H; lia|].
      unfold Js.uniq in Hu at 1. cbn in Hu. lia.
Qed.

Lemma aboveHalf_true (s : Q) : aboveHalf s = true <-> (1 # 2 < s)%Q.
Proof.
  unfold aboveHalf. rewrite negb_true_iff, <- not_true_iff_false, Qle_bool_iff.
  split; [apply Qnot_le_lt | apply Qlt_not_le].
Qed.

Lemma aboveHalf_false (s : Q) : aboveHalf s = false <-> (s <= 1 # 2)%Q.
Proof.
  unfold aboveHalf. rewrite negb_false_iff. apply Qle_bool_iff.
Qed.

#[local] Abbreviation similar p o :=
  (aboveHalf (calculateSimilarity (ExtractedPattern.classes p)
                (ExtractedPattern.classes o))).

Lemma absorb_used (p o : ExtractedPattern.t) (g : list ExtractedPattern.t)
    (used : gset string) :
  ExtractedPattern.id o ∈ used -> absorb p (g, used) o = (g, used).
Proof. intros H. unfold absorb. now rewrite bool_decide_eq_true_2. Qed.

Lemma absorb_fresh (p o : ExtractedPattern.t) (g : list ExtractedPattern.t)
    (used : gset string) :
  ExtractedPattern.id o ∉ used ->
  absorb p (g, used) o
  = if similar p o then (g ++ [o], used ∪ {[ExtractedPattern.id o]}) else (g, used).
Proof. intros H. unfold absorb. now rewrite bool_decide_eq_false_2. Qed.

Lemma groupSimilarPatterns_pair (p q : ExtractedPattern.t) :
  ExtractedPattern.id p <> ExtractedPattern.id q ->
  groupSimilarPatterns [p; q] = if similar p q then [[p; q]] else [].
Proof.
  intros Hpq. unfold groupSimilarPatterns. cbn [fold_left].
  unfold openGroup at 2. rewrite bool_decide_eq_false_2 by set_solver.
  cbn [fold_left]. rewrite absorb_used by set_solver.
  rewrite absorb_fresh by set_solver.
  destruct (similar p q); cbn [length Nat.leb app].
  - unfold openGroup. now rewrite bool_decide_eq_true_2 by set_solver.
  - unfold openGroup. rewrite bool_decide_eq_false_2 by set_solver.
    cbn [fold_left]. rewrite !absorb_used by set_solver. reflexivity.
Qed.

Lemma groupSimilarPatterns_first_group (p q r : ExtractedPattern.t) :
  ExtractedPattern.id p <> ExtractedPattern.id q ->
  ExtractedPattern.id p <> ExtractedPattern.id r ->
  ExtractedPattern.id q <> ExtractedPattern.id r ->
  similar p q = false -> similar p r = true ->
  groupSimilarPatterns [p; q; r] = [[p; r]].
Proof.
  intros Hpq Hpr Hqr Hs1 Hs2. unfold groupSimilarPatterns. cbn [fold_left].
  unfold openGroup at 3. rewrite bool_decide_eq_false_2 by set_solver.
  cbn [fold_left]. rewrite absorb_used by set_solver.
  rewrite absorb_fresh by set_solver. rewrite Hs1.
  rewrite absorb_fresh by set_solver. rewrite Hs2.
  cbn [length Nat.leb app].
  unfold openGroup at 2. rewrite bool_decide_eq_false_2 by set_solver.
  cbn [fold_left]. rewrite !absorb_used by set_solver.
  cbn [length Nat.leb].
  unfold openGroup. now rewrite bool_decide_eq_true_2 by set_solver.
Qed.

Lemma absorb_fold_members (p : ExtractedPattern.t) (l : list ExtractedPattern.t) :
  forall members used,
    Forall (fun o => similar p o = true) members ->
    exists members' used',
      fold_left (absorb p) l (p :: members, used) = (p :: members', used')
      /\ Forall (fun o => similar p o = true) members'.
Proof.
  induction l as [|o l IH]; intros members used HF.
  - exists members, used. now split.
  - cbn [fold_left]. unfold absorb at 2.
    destruct (bool_decide (ExtractedPattern.id o ∈ used)); [now apply IH|].
    destruct (similar p o) eqn:Hs; [|now apply IH].
    change ((p :: members) ++ [o]) with (p :: (members ++ [o])).
    apply IH. apply Forall_app. split; [assumption|]. now constructor.
Qed.

Lemma openGroup_fold_shape (patterns l : list ExtractedPattern.t) :
  forall groups used,
    Forall groupShape groups ->
    Forall groupShape (fst (fold_left (openGroup patterns) l (groups, used))).
Proof.
  induction l as [|p l IH]; intros groups used HF; [exact HF|].
  cbn [fold_left]. unfold openGroup at 2.
  destruct (bool_decide (ExtractedPattern.id p ∈ used)); [now apply IH|].
  destruct (absorb_fold_members p patterns [] (used ∪ {[ExtractedPattern.id p]}))
    as (members & used' & -> & Hm); [constructor|].
  destruct (2 <=? length (p :: members))%nat eqn:Hlen; [|now apply IH].
  apply IH. apply Forall_app. split; [assumption|]. constructor; [|constructor].
  split; [now apply Nat.leb_le|]. exists p, members. split; [reflexivity|].
  eapply Forall_impl; [exact Hm|]. intros o Ho. now apply aboveHalf_true.
Qed.

Lemma absorb_fold_used (p : ExtractedPattern.t) (l g : list ExtractedPattern.t)
    (used : gset string) :
  (forall o, o ∈ l -> ExtractedPattern.id o ∈ used) ->
  fold_left (absorb p) l (g, used) = (g, used).
Proof.
  induction l as [|o l IH]; intros Hused; [reflexivity|].
  cbn [fold_left]. rewrite absorb_used by (apply Hused; constructor).
  apply IH. intros o' Ho'. apply Hused. now constructor.
Qed.

Lemma absorb_fold_fresh (p : ExtractedPattern.t) (l : list ExtractedPattern.t) :
  forall (g : list ExtractedPattern.t) (U X : gset string),
    NoDup (map ExtractedPattern.id l) ->
    (forall o, o ∈ l -> ExtractedPattern.id o ∉ X) ->
    fold_left (absorb p) l (g, U ∪ X)
    = (g ++ List.filter
              (fun o => negb (bool_decide (ExtractedPattern.id o ∈ U)) && similar p o) l,
       U ∪ X
       ∪ list_to_set
           (map ExtractedPattern.id
              (List.filter
                 (fun o => negb (bool_decide (ExtractedPattern.id o ∈ U))
                           && similar p o) l))).
Proof.
  induction l as [|o l IH]; intros g U X Hnd HX.
  - cbn. rewrite app_nil_r. f_equal. set_solver.
  - cbn [map] in Hnd. apply NoDup_cons in Hnd as [Ho Hnd].
    assert (HoX : ExtractedPattern.id o ∉ X) by (apply HX; constructor).
    assert (HX' : forall o', o' ∈ l -> ExtractedPattern.id o' ∉ X)
      by (intros o' Ho'; apply HX; now constructor).
    cbn [fold_left List.filter].
    destruct (decide (ExtractedPattern.id o ∈ U)) as [HU | HU].
    + rewrite absorb_used by set_solver.
      rewrite (bool_decide_eq_true_2 _ HU). cbn [negb andb]. now apply IH.
    + rewrite absorb_fresh by set_solver.
      rewrite (bool_decide_eq_false_2 _ HU). cbn [negb andb].
      destruct (similar p o); [|now apply IH].
      replace (U ∪ X ∪ {[ExtractedPattern.id o]})
        with (U ∪ (X ∪ {[ExtractedPattern.id o]})) by set_solver.
      rewrite IH; [| exact Hnd |].
      * rewrite <- app_assoc. cbn [app map list_to_set]. f_equal. set_solver.
      * intros o' Ho'. specialize (HX' o' Ho').
        assert (ExtractedPattern.id o' <> ExtractedPattern.id o).
        { intros Heq. apply Ho. rewrite <- Heq. apply list_elem_of_fmap. eauto. }
        set_solver.
Qed.

Lemma openGroup_fold_greedy (patterns suffix : list ExtractedPattern.t) :
  forall (pre : list ExtractedPattern.t) (groups : list (list ExtractedPattern.t))
         (used : gset string),
    patterns = pre ++ suffix ->
    NoDup (map ExtractedPattern.id patterns) ->
    (forall o, o ∈ pre -> ExtractedPattern.id o ∈ used) ->
    fst (fold_left (openGroup patterns) suffix (groups, used))
    = groups ++ SpecWords.greedyGroups used suffix.
Proof.
  induction suffix as [|p rest IH]; intros pre groups used Hsplit Hnd Hpre.
  - cbn. now rewrite app_nil_r.
  - assert (Hsplit' : patterns = (pre ++ [p]) ++ rest)
      by (now rewrite <- app_assoc).
    cbn [fold_left SpecWords.greedyGroups]. unfold openGroup at 2.
    destruct (decide (ExtractedPattern.id p ∈ used)) as [Hp | Hp].
    + rewrite (bool_decide_eq_true_2 _ Hp).
      apply (IH (pre ++ [p])); [exact Hsplit' | exact Hnd |].
      intros o Ho. apply elem_of_app in Ho as [Ho | Ho]; [now apply Hpre|].
      apply list_elem_of_singleton in Ho. now subst.
    + rewrite (bool_decide_eq_false_2 _ Hp).
      assert (Hnd' : NoDup (map ExtractedPattern.id rest)
                     /\ forall o, o ∈ rest
                                  -> ExtractedPattern.id o ∉ ({[ExtractedPattern.id p]} : gset string)).
      { rewrite Hsplit, map_app in Hnd. apply NoDup_app in Hnd as (_ & _ & Hnd).
        cbn [map] in Hnd. apply NoDup_cons in Hnd as [Hp' Hnd]. split; [exact Hnd|].
        intros o Ho Hin. apply elem_of_singleton in Hin. apply Hp'. rewrite <- Hin.
        apply list_elem_of_fmap. eauto. }
      destruct Hnd' as [Hndr Hfresh].
      rewrite Hsplit at 2. rewrite fold_left_app. cbn [fold_left].
      rewrite absorb_fold_used by (intros o Ho; specialize (Hpre o Ho); set_solver).
      rewrite absorb_used by set_solver.
      rewrite (absorb_fold_fresh p rest [p] used {[ExtractedPattern.id p]} Hndr Hfresh).
      set (absorbed := List.filter _ rest).
      set (used' := used ∪ {[ExtractedPattern.id p]} ∪ _).
      assert (Hpre' : forall o, o ∈ pre ++ [p] -> ExtractedPattern.id o ∈ used').
      { intros o Ho. apply elem_of_app in Ho as [Ho | Ho].
        - specialize (Hpre o Ho). set_solver.
        - apply list_elem_of_singleton in Ho. subst. set_solver. }
      destruct absorbed as [|a absorbed]; cbn [app length Nat.leb].
      * now apply (IH (pre ++ [p])).
      * rewrite (IH (pre ++ [p]) _ _ Hsplit' Hnd Hpre').
        now rewrite <- app_assoc.
Qed.

Lemma groupSimilarPatterns_greedy (patterns : list ExtractedPattern.t) :
  NoDup (map ExtractedPattern.id patterns) ->
  groupSimilarPatterns patterns = SpecWords.greedyGroups ∅ patterns.
Proof.
  intros Hnd. unfold groupSimilarPatterns.
  rewrite (openGroup_fold_greedy patterns patterns [] [] ∅ eq_refl Hnd); [reflexivity|].
  intros o Ho. inversion Ho.
Qed.

(** The groups of a list from which the patterns with an id of [U] are
    left out. *)
Lemma greedyGroups_filter (l : list ExtractedPattern.t) :
  forall U V : gset string,
    SpecWords.greedyGroups (U ∪ V) l
    = SpecWords.greedyGroups V
        (List.filter (fun o => negb (bool_decide (ExtractedPattern.id o ∈ U))) l).
Proof.
  induction l as [|o l IH]; intros U V; [reflexivity|].
  cbn [List.filter SpecWords.greedyGroups].
  destruct (decide (ExtractedPattern.id o ∈ U)) as [HU | HU].
  - rewrite (bool_decide_eq_true_2 _ HU). cbn [negb].
    rewrite bool_decide_eq_true_2 by set_solver. apply IH.
  - rewrite (bool_decide_eq_false_2 _ HU). cbn [negb SpecWords.greedyGroups].
    destruct (decide (ExtractedPattern.id o ∈ V)) as [HV | HV].
    + rewrite (bool_decide_eq_true_2 _ HV).
      rewrite bool_decide_eq_true_2 by set_solver. apply IH.
    + rewrite (bool_decide_eq_false_2 _ HV).
      rewrite bool_decide_eq_false_2 by set_solver.
      assert (Habsorbed :
        List.filter
          (fun other => negb (bool_decide (ExtractedPattern.id other ∈ U ∪ V))
                        && similar o other) l
        = List.filter
            (fun other => negb (bool_decide (ExtractedPattern.id other ∈ V))
                          && similar o other)
            (List.filter (fun x => negb (bool_decide (ExtractedPattern.id x ∈ U))) l)).
      { clear IH. induction l as [|x l IHl]; [reflexivity|]. cbn [List.filter].
        destruct (decide (ExtractedPattern.id x ∈ U)) as [HxU | HxU].
        - rewrite (bool_decide_eq_true_2 _ HxU).
          rewrite bool_decide_eq_true_2 by set_solver. cbn [negb andb]. exact IHl.
        - rewrite (bool_decide_eq_false_2 _ HxU). cbn [negb List.filter].
          destruct (decide (ExtractedPattern.id x ∈ V)) as [HxV | HxV].
          + rewrite (bool_decide_eq_true_2 _ HxV).
            rewrite bool_decide_eq_true_2 by set_solver. cbn [negb andb]. exact IHl.
          + rewrite (bool_decide_eq_false_2 _ HxV).
            rewrite bool_decide_eq_false_2 by set_solver. cbn [negb andb].
            destruct (similar o x); [now rewrite IHl | exact IHl]. }
      rewrite Habsorbed.
      set (absorbed := List.filter _ (List.filter _ l)).
      replace (U ∪ V ∪ {[ExtractedPattern.id o]}
               ∪ list_to_set (map ExtractedPattern.id absorbed))
        with (U ∪ (V ∪ {[ExtractedPattern.id o]}
                   ∪ list_to_set (map ExtractedPattern.id absorbed)))
        by set_solver.
      rewrite IH. reflexivity.
Qed.

(** Every pattern of a group is a pattern of the list. *)
Lemma greedyGroups_subset (l : list ExtractedPattern.t) :
  forall (U : gset string) g x,
    g ∈ SpecWords.greedyGroups U l -> x ∈ g -> x ∈ l.
Proof.
  induction l as [|o l IH]; intros U g x Hg Hx; [inversion Hg|].
  cbn [SpecWords.greedyGroups] in Hg.
  destruct (bool_decide (ExtractedPattern.id o ∈ U)).
  { apply list_elem_of_further. eapply IH; eauto. }
  set (absorbed := List.filter _ l) in Hg.
  assert (Habsorbed : forall y, y ∈ absorbed -> y ∈ l).
  { intros y Hy. unfold absorbed in Hy. rewrite list_elem_of_In in Hy.
    apply filter_In in Hy as [Hy _]. now apply list_elem_of_In. }
  destruct absorbed as [|a absorbed].
  { apply list_elem_of_further. eapply IH; eauto. }
  apply elem_of_cons in Hg as [-> | Hg].
  - apply elem_of_cons in Hx as [-> | Hx]; [constructor|].
    apply list_elem_of_further. now apply Habsorbed.
  - apply list_elem_of_further. eapply IH; eauto.
Qed.

Lemma NoDup_ids_filter (f : ExtractedPattern.t -> bool) (l : list ExtractedPattern.t) :
  NoDup (map ExtractedPattern.id l) -> NoDup (map ExtractedPattern.id (List.filter f l)).
Proof.
  induction l as [|o l IH]; [auto|]. cbn [map List.filter]. intros Hnd.
  apply NoDup_cons in Hnd as [Ho Hnd]. destruct (f o); [|now apply IH].
  cbn [map]. apply NoDup_cons. split; [|now apply IH].
  intros Hin. apply Ho. apply list_elem_of_fmap in Hin as (y & Hy & Hin).
  apply list_elem_of_fmap. exists y. split; [exact Hy|].
  rewrite list_elem_of_In in *. now apply filter_In in Hin as [Hin _].
Qed.

(** The group of the first pattern: the opener absorbs every later pattern
    whose similarity to it is above one half, and the patterns that it
    leaves are grouped among themselves. *)
Lemma groupSimilarPatterns_opener (p : ExtractedPattern.t)
    (rest : list ExtractedPattern.t) :
  NoDup (map ExtractedPattern.id (p :: rest)) ->
  groupSimilarPatterns (p :: rest)
  = match List.filter (fun o => similar p o) rest with
    | [] => []
    | members => [p :: members]
    end
    ++ groupSimilarPatterns (List.filter (fun o => negb (similar p o)) rest).
Proof.
  intros Hnd. rewrite (groupSimilarPatterns_greedy _ Hnd).
  cbn [map] in Hnd. apply NoDup_cons in Hnd as [Hp Hnd].
  rewrite (groupSimilarPatterns_greedy (List.filter _ rest))
    by now apply NoDup_ids_filter.
  cbn [SpecWords.greedyGroups]. rewrite bool_decide_eq_false_2 by set_solver.
  match goal with
  | |- context [match List.filter ?f rest with _ => _ end] =>
      assert (Habsorbed : List.filter f rest = List.filter (fun o => similar p o) rest)
  end.
  { apply filter_ext. intros o. now rewrite bool_decide_eq_false_2 by set_solver. }
  rewrite Habsorbed. set (members := List.filter (fun o => similar p o) rest).
  set (used := ∅ ∪ {[ExtractedPattern.id p]}
               ∪ list_to_set (map ExtractedPattern.id members)).
  assert (Hrest : SpecWords.greedyGroups used rest
                  = SpecWords.greedyGroups ∅
                      (List.filter (fun o => negb (similar p o)) rest)).
  { replace used with (used ∪ ∅) by set_solver. rewrite greedyGroups_filter.
    f_equal. apply filter_ext_in. intros o Ho. f_equal.
    assert (Hop : ExtractedPattern.id o <> ExtractedPattern.id p).
    { intros Heq. apply Hp. rewrite <- Heq. apply list_elem_of_fmap.
      exists o. split; [reflexivity | now apply list_elem_of_In]. }
    destruct (similar p o) eqn:Hs.
    - apply bool_decide_eq_true_2. unfold used.
      apply elem_of_union_r, elem_of_list_to_set, list_elem_of_fmap.
      exists o. split; [reflexivity|]. unfold members.
      apply list_elem_of_In, filter_In. now split.
    - apply bool_decide_eq_false_2. unfold used. intros Hin.
      apply elem_of_union in Hin as [Hin | Hin]; [set_solver|].
      apply elem_of_list_to_set, list_elem_of_fmap in Hin as (y & Hy & Hin).
      unfold members in Hin. apply list_elem_of_In, filter_In in Hin as [Hin Hsy].
      assert (y = o); [|congruence].
      clear - Hnd Hy Hin Ho. induction rest as [|z rest IH]; [inversion Hin|].
      cbn [map] in Hnd. apply NoDup_cons in Hnd as [Hz Hnd].
      destruct Hin as [<- | Hin], Ho as [<- | Ho]; auto.
      + exfalso. apply Hz. rewrite <- Hy. apply list_elem_of_fmap.
        exists o. split; [reflexivity | now apply list_elem_of_In].
      + exfalso. apply Hz. rewrite Hy. apply list_elem_of_fmap.
        exists y. split; [reflexivity | now apply list_elem_of_In]. }
  rewrite Hrest. now destruct members.
Qed.

(** C4, as the source has it.  A pattern that is not yet grouped opens a
    group and absorbs every later pattern, not yet grouped, whose Jaccard
    similarity to it, the opener, is strictly above one half: a pattern
    shares the group of the first pattern exactly when its similarity to
    that pattern is above 0.5, whatever its similarity to the other
    patterns, and the patterns left over are grouped among themselves in
    the same way.  Two patterns alone are grouped exactly above 0.5: at
    exactly 0.5, as at 0.49, they are left apart.  A pattern that qualifies
    for the group of the first opener joins it; every group kept has its
    opener and at least one absorbed pattern, each similar to the opener
    (singletons are discarded).  The loops compute the greedy single-pass
    grouping in discovery order. *)
Theorem groupSimilarPatterns_strict_threshold (p : ExtractedPattern.t)
    (rest : list ExtractedPattern.t) :
  NoDup (map ExtractedPattern.id (p :: rest)) ->
  groupSimilarPatterns (p :: rest)
  = match List.filter
            (fun o => aboveHalf (calculateSimilarity (ExtractedPattern.classes p)
                                   (ExtractedPattern.classes o))) rest with
    | [] => []
    | members => [p :: members]
    end
    ++ groupSimilarPatterns
         (List.filter
            (fun o => negb (aboveHalf (calculateSimilarity (ExtractedPattern.classes p)
                                         (ExtractedPattern.classes o)))) rest)
  /\ (forall q,
        q ∈ rest ->
        (exists g, g ∈ groupSimilarPatterns (p :: rest) /\ head g = Some p /\ q ∈ g)
        <-> (1 # 2 < calculateSimilarity (ExtractedPattern.classes p)
                       (ExtractedPattern.classes q))%Q)
  /\ (forall q,
        rest = [q] ->
        (groupSimilarPatterns [p; q] = [[p; q]]
         <-> (1 # 2 < calculateSimilarity (ExtractedPattern.classes p)
                        (ExtractedPattern.classes q))%Q)
        /\ (groupSimilarPatterns [p; q] = []
            <-> (calculateSimilarity (ExtractedPattern.classes p)
                   (ExtractedPattern.classes q) <= 1 # 2)%Q)
        /\ ((calculateSimilarity (ExtractedPattern.classes p)
               (ExtractedPattern.classes q) == 1 # 2)%Q
            -> groupSimilarPatterns [p; q] = [])
        /\ ((calculateSimilarity (ExtractedPattern.classes p)
               (ExtractedPattern.classes q) == 49 # 100)%Q
            -> groupSimilarPatterns [p; q] = []))
  /\ (forall q r,
        rest = [q; r] ->
        (calculateSimilarity (ExtractedPattern.classes p)
           (ExtractedPattern.classes q) <= 1 # 2)%Q ->
        (1 # 2 < calculateSimilarity (ExtractedPattern.classes p)
                   (ExtractedPattern.classes r))%Q ->
        (1 # 2 < calculateSimilarity (ExtractedPattern.classes q)
                   (ExtractedPattern.classes r))%Q ->
        groupSimilarPatterns [p; q; r] = [[p; r]])
  /\ (forall g, g ∈ groupSimilarPatterns (p :: rest) -> groupShape g)
  /\ groupSimilarPatterns (p :: rest) = SpecWords.greedyGroups ∅ (p :: rest).
Proof.
  intros Hnd. pose proof (groupSimilarPatterns_opener p rest Hnd) as Hopener.
  assert (Hfresh : forall q, q ∈ rest -> q <> p /\ p ∉ rest).
  { cbn [map] in Hnd. apply NoDup_cons in Hnd as [Hp _].
    assert (Hnot : p ∉ rest).
    { intros Hin. apply Hp. apply list_elem_of_fmap. eauto. }
    intros q Hq. split; [|exact Hnot]. intros ->. contradiction. }
  split; [exact Hopener|].
  split; [|split; [|split; [|split; [|now apply groupSimilarPatterns_greedy]]]].
  - intros q Hq. destruct (Hfresh q Hq) as [Hqp Hp]. rewrite <- aboveHalf_true. split.
    + intros (g & Hg & Hhead & Hqg). rewrite Hopener in Hg.
      apply elem_of_app in Hg as [Hg | Hg].
      * destruct (List.filter _ rest) as [|m members] eqn:Hmembers; [inversion Hg|].
        apply list_elem_of_singleton in Hg as ->.
        apply elem_of_cons in Hqg as [-> | Hqg]; [contradiction|].
        rewrite <- Hmembers in Hqg.
        now apply list_elem_of_In, filter_In in Hqg as [_ Hs].
      * exfalso. apply Hp.
        assert (Hpg : p ∈ g) by (destruct g; [discriminate | injection Hhead as ->; constructor]).
        rewrite groupSimilarPatterns_greedy in Hg.
        2:{ apply NoDup_ids_filter. cbn [map] in Hnd. now apply NoDup_cons in Hnd as [_ ?]. }
        apply (greedyGroups_subset _ _ _ _ Hg) in Hpg.
        now apply list_elem_of_In, filter_In in Hpg as [Hpg _]; apply list_elem_of_In.
    + intros Hs. exists (p :: List.filter (fun o => similar p o) rest).
      assert (Hin : q ∈ List.filter (fun o => similar p o) rest).
      { apply list_elem_of_In, filter_In. split; [now apply list_elem_of_In | exact Hs]. }
      split; [|split; [reflexivity | now apply list_elem_of_further]].
      rewrite Hopener. apply elem_of_app. left.
      destruct (List.filter _ rest); [inversion Hin | constructor].
  - intros q ->.
    assert (Hpq : ExtractedPattern.id p <> ExtractedPattern.id q).
    { cbn [map] in Hnd. apply NoDup_cons in Hnd as [Hp _]. intros Heq. apply Hp.
      rewrite Heq. constructor. }
    pose proof (groupSimilarPatterns_pair p q Hpq) as Hpair.
    assert (Hle : (calculateSimilarity (ExtractedPattern.classes p)
                     (ExtractedPattern.classes q) <= 1 # 2)%Q
                  -> groupSimilarPatterns [p; q] = []).
    { intros H. apply aboveHalf_false in H. now rewrite Hpair, H. }
    split; [|split; [|split]].
    + rewrite <- aboveHalf_true, Hpair. destruct (similar p q); split; congruence.
    + split; [|exact Hle]. rewrite <- aboveHalf_false, Hpair.
      destruct (similar p q); congruence.
    + intros H. apply Hle. apply Qle_lteq. now right.
    + intros H. apply Hle.
      eapply Qle_trans; [apply Qle_lteq; right; exact H|]. unfold Qle. simpl. lia.
  - intros q r -> H1 H2 _.
    cbn [map] in Hnd. apply NoDup_cons in Hnd as [Hp Hnd].
    apply NoDup_cons in Hnd as [Hq _].
    apply groupSimilarPatterns_first_group.
    + intros Heq. apply Hp. rewrite Heq. constructor.
    + intros Heq. apply Hp. rewrite Heq. apply list_elem_of_further. constructor.
    + intros Heq. apply Hq. rewrite Heq. constructor.
    + now apply aboveHalf_false.
    + now apply aboveHalf_true.
  - intros g Hg. unfold groupSimilarPatterns in Hg.
    pose proof (openGroup_fold_shape (p :: rest) (p :: rest) [] ∅ (Forall_nil_2 _)) as HF.
    rewrite Forall_forall in HF. now apply HF.
Qed.

End Clustering.

(** The class sets [{flex, p-4, bg-red-500}] and [{flex, p-4, bg-blue-500}]
    have similarity 2/4 and are left apart. *)
Lemma groupSimilarPatterns_strict_threshold_witness :
  NoDup (map ExtractedPattern.id [Examples.redButton; Examples.blueButton])
  /\ Analyze.groupSimilarPatterns [Examples.redButton; Examples.blueButton] = [].
Proof.
  assert (Hnd : NoDup (map ExtractedPattern.id
                         [Examples.redButton; Examples.blueButton])).
  { apply NoDup_cons. split; [|apply NoDup_singleton].
    intros H. apply list_elem_of_singleton in H. discriminate H. }
  split; [exact Hnd|].
  destruct (groupSimilarPatterns_strict_threshold Examples.redButton
              [Examples.blueButton] Hnd) as (_ & _ & H & _).
  destruct (H Examples.blueButton eq_refl) as (_ & _ & Hhalf & _).
  apply Hhalf. reflexivity.
Defined.

(** The grouping follows the opener.  After the opener [{flex, p-4}] the
    two buttons, whose similarity to each other is exactly 0.5, share its
    group; and of three patterns the third, whose similarity to the second
    is 3/5 and to the opener 2/5, stays out of the group of the first two. *)
Example grouping_follows_the_opener :
  Analyze.groupSimilarPatterns
    [Examples.plainButton; Examples.redButton; Examples.blueButton]
  = [[Examples.plainButton; Examples.redButton; Examples.blueButton]]
  /\ (Analyze.calculateSimilarity (ExtractedPattern.classes Examples.spacedRow)
        (ExtractedPattern.classes Examples.wideRow) == 3 # 5)%Q
  /\ Analyze.groupSimilarPatterns
       [Examples.marginRow; Examples.spacedRow; Examples.wideRow]
     = [[Examples.marginRow; Examples.spacedRow]].
Proof. repeat split. Qed.

(** C4 as stated fails: two patterns with similarity exactly 0.5 are not
    placed in one group. *)
Lemma similarity_one_half_not_grouped :
  (Analyze.calculateSimilarity (ExtractedPattern.classes Examples.redButton)
     (ExtractedPattern.classes Examples.blueButton) == 1 # 2)%Q
  /\ ExtractedPattern.id Examples.redButton <> ExtractedPattern.id Examples.blueButton
  /\ Analyze.groupSimilarPatterns [Examples.redButton; Examples.blueButton] = []
  /\ ~ (exists g, g ∈ Analyze.groupSimilarPatterns
                        [Examples.redButton; Examples.blueButton]
                  /\ Examples.redButton ∈ g /\ Examples.blueButton ∈ g).
Proof.
  assert (H : Analyze.groupSimilarPatterns [Examples.redButton; Examples.blueButton] = []).
  { rewrite groupSimilarPatterns_pair by discriminate. reflexivity. }
  split; [reflexivity|]. split; [discriminate|]. split; [exact H|].
  intros (g & Hg & _). rewrite H in Hg. inversion Hg.
Qed.

(** ** Insertion-ordered maps *)

Section JsMapFacts.

Context {V : Type}.
Implicit Types (m : list (string * V)) (k : string) (v : V).

Lemma get_set_eq m k v : JsMap.get k (JsMap.set k v m) = Some v.
Proof.
  induction m as [|[k' v'] m IH]; cbn [JsMap.set JsMap.get].
  - now rewrite String.eqb_refl.
  - destruct (String.eqb_spec k' k) as [->|Hne]; cbn [JsMap.get].
    + now rewrite String.eqb_refl.
    + apply String.eqb_neq in Hne. now rewrite Hne.
Qed.

Lemma get_set_ne m k k' v : k <> k' -> JsMap.get k' (JsMap.set k v m) = JsMap.get k' m.
Proof.
  intros Hne. induction m as [|[k0 v0] m IH]; cbn [JsMap.set JsMap.get].
  - apply String.eqb_neq in Hne. now rewrite Hne.
  - destruct (String.eqb_spec k0 k) as [->|Hne0]; cbn [JsMap.get].
    + apply String.eqb_neq in Hne. now rewrite Hne.
    + now rewrite IH.
Qed.

Lemma get_Some_elem m k v : JsMap.get k m = Some v -> (k, v) ∈ m.
Proof.
  induction m as [|[k' v'] m IH]; cbn [JsMap.get]; [discriminate|].
  destruct (String.eqb_spec k' k) as [->|Hne].
  - intros [= ->]. constructor.
  - intros H. constructor. now apply IH.
Qed.

Lemma get_None_keys m k : JsMap.get k m = None <-> k ∉ map fst m.
Proof.
  induction m as [|[k' v'] m IH]; cbn [JsMap.get map fst].
  - split; [intros _; apply not_elem_of_nil | reflexivity].
  - rewrite not_elem_of_cons. destruct (String.eqb_spec k' k) as [->|Hne].
    + split; [discriminate | intros [H _]; now destruct H].
    + rewrite IH. intuition congruence.
Qed.

Lemma elem_get m k v : NoDup (map fst m) -> (k, v) ∈ m -> JsMap.get k m = Some v.
Proof.
  induction m as [|[k' v'] m IH]; cbn [map fst JsMap.get]; intros Hnd Hin.
  - inversion Hin.
  - apply NoDup_cons in Hnd as [Hk Hnd].
    apply elem_of_cons in Hin as [[= <- <-]|Hin].
    + now rewrite String.eqb_refl.
    + destruct (String.eqb_spec k' k) as [->|Hne]; [|now apply IH].
      exfalso. apply Hk. apply list_elem_of_fmap. now exists (k, v).
Qed.

Lemma keys_set m k v :
  map fst (JsMap.set k v m)
  = if bool_decide (k ∈ map fst m) then map fst m else map fst m ++ [k].
Proof.
  induction m as [|[k' v'] m IH]; cbn [JsMap.set map fst].
  - rewrite bool_decide_eq_false_2 by apply not_elem_of_nil. reflexivity.
  - destruct (String.eqb_spec k' k) as [->|Hne]; cbn [map fst].
    + rewrite bool_decide_eq_true_2 by constructor. reflexivity.
    + rewrite IH. destruct (bool_decide (k ∈ map fst m)) eqn:Hk.
      * apply bool_decide_eq_true in Hk.
        rewrite bool_decide_eq_true_2 by now constructor. reflexivity.
      * apply bool_decide_eq_false in Hk.
        rewrite bool_decide_eq_false_2; [reflexivity|].
        rewrite not_elem_of_cons. split; [congruence | assumption].
Qed.

Lemma NoDup_keys_set m k v : NoDup (map fst m) -> NoDup (map fst (JsMap.set k v m)).
Proof.
  intros Hnd. rewrite keys_set. destruct (bool_decide (k ∈ map fst m)) eqn:Hk.
  - exact Hnd.
  - apply bool_decide_eq_false in Hk. apply NoDup_app. split; [exact Hnd|].
    split; [|apply NoDup_singleton].
    intros x Hx Hx'. apply list_elem_of_singleton in Hx'. now subst.
Qed.

Lemma Forall_values_set (P : V -> Prop) m k v :
  Forall P (JsMap.values m) -> P v -> Forall P (JsMap.values (JsMap.set k v m)).
Proof.
  unfold JsMap.values. intros HF Hv.
  induction m as [|[k' v'] m IH]; cbn [JsMap.set map snd].
  - now repeat constructor.
  - apply Forall_cons in HF as [Hv' HF].
    destruct (String.eqb k' k); cbn [map snd]; constructor; auto.
Qed.

Lemma Forall_values_get (P : V -> Prop) m k v :
  Forall P (JsMap.values m) -> JsMap.get k m = Some v -> P v.
Proof.
  unfold JsMap.values. intros HF Hget. apply get_Some_elem in Hget.
  rewrite Forall_forall in HF. apply HF.
  apply list_elem_of_fmap. now exists (k, v).
Qed.

End JsMapFacts.

(** ** Sorting by count *)

Section SortFacts.

Context {A : Type} (count : A -> Z).

Lemma insertByCountDesc_perm (x : A) (l : list A) :
  insertByCountDesc count x l ≡ₚ x :: l.
Proof.
  induction l as [|y l IH]; cbn [insertByCountDesc]; [reflexivity|].
  destruct (count x <? count y); [|reflexivity].
  rewrite IH. apply Permutation_swap.
Qed.

Lemma sortByCountDesc_perm (l : list A) : sortByCountDesc count l ≡ₚ l.
Proof.
  induction l as [|x l IH]; cbn [sortByCountDesc foldr]; [reflexivity|].
  rewrite insertByCountDesc_perm. now constructor.
Qed.

Lemma elem_of_sortByCountDesc (x : A) (l : list A) :
  x ∈ sortByCountDesc count l <-> x ∈ l.
Proof. now rewrite sortByCountDesc_perm. Qed.

End SortFacts.

(** ** Token usage *)

Section TokenUsageInvariant.

Import Analyze.

(** Induction on style objects, with the fields of an object covered. *)
Lemma StyleObject_nested_ind (P : StyleObject -> Prop) :
  (forall v, P (SValue v)) ->
  (forall fields, Forall (fun kv => P (snd kv)) fields -> P (SObject fields)) ->
  forall o, P o.
Proof.
  intros Hv Ho. fix IH 1. intros [v | fields]; [apply Hv|].
  apply Ho. induction fields as [|[k o] r IHr]; constructor; [apply IH | exact IHr].
Qed.

Lemma fold_left_preserves {S X : Type} (P : S -> Prop) (f : S -> X -> S) (l : list X) :
  (forall s x, P s -> P (f s x)) -> forall s, P s -> P (fold_left f l s).
Proof.
  intros Hf. induction l as [|x l IH]; intros s Hs; [exact Hs|].
  cbn [fold_left]. apply IH, Hf, Hs.
Qed.

Lemma walkObject_preserves (P : list (string * TokenUsage.t) -> Prop) (filePath : string) :
  (forall tokens m, P tokens -> P (recordToken filePath tokens m)) ->
  forall obj tokens, P tokens -> P (walkObject filePath obj tokens).
Proof.
  intros Hstep obj. induction obj as [v | fields IH] using StyleObject_nested_ind;
    intros tokens Ht; cbn [walkObject].
  - now apply fold_left_preserves.
  - revert tokens Ht. induction fields as [|[k o] r IHr]; intros tokens Ht; [exact Ht|].
    apply Forall_cons in IH as [Ho Hr]. apply IHr; [exact Hr|]. now apply Ho.
Qed.

Lemma values_set_elem (m : list (string * TokenUsage.t)) (k : string)
    (v u : TokenUsage.t) :
  u ∈ JsMap.values (JsMap.set k v m) -> u = v \/ u ∈ JsMap.values m.
Proof.
  unfold JsMap.values. induction m as [|[k' v'] m IH]; cbn [JsMap.set map snd].
  - intros H. apply list_elem_of_singleton in H. now left.
  - destruct (String.eqb k' k); cbn [map snd]; rewrite !elem_of_cons.
    + intros [->|H]; auto.
    + intros [->|H]; [auto|]. destruct (IH H); auto.
Qed.

(** What one more [token()] occurrence does to the records. *)
Lemma recordToken_step (filePath : string) (tokens : list (string * TokenUsage.t))
    (m : string * option string) (u : TokenUsage.t) :
  u ∈ JsMap.values (recordToken filePath tokens m) ->
  u ∈ JsMap.values tokens
  \/ (TokenUsage.count u = 1 /\ TokenUsage.files u = [filePath])
  \/ exists existing,
       existing ∈ JsMap.values tokens
       /\ TokenUsage.count u = TokenUsage.count existing + 1
       /\ ((filePath ∈ TokenUsage.files existing
            /\ TokenUsage.files u = TokenUsage.files existing)
           \/ ((filePath ∉ TokenUsage.files existing)
               /\ TokenUsage.files u = TokenUsage.files existing ++ [filePath])).
Proof.
  unfold recordToken. destruct (Js.truthy (Js.trim m.1)); [|now left].
  set (key := _ +:+ "." +:+ _).
  destruct (JsMap.get key tokens) as [existing|] eqn:Hget.
  - intros Hu. apply values_set_elem in Hu as [->|Hu]; [|now left].
    right. right. exists existing. split.
    + apply get_Some_elem in Hget. apply list_elem_of_fmap. now exists (key, existing).
    + cbn [TokenUsage.count TokenUsage.files]. split; [reflexivity|].
      destruct (Js.listIncludes filePath (TokenUsage.files existing)) eqn:Hinc.
      * left. split; [now apply listIncludes_true | reflexivity].
      * right. split; [now apply listIncludes_false | reflexivity].
  - intros Hu. apply values_set_elem in Hu as [->|Hu]; [|now left].
    right. left. now split.
Qed.

Lemma recordToken_shape (filePath : string) (tokens : list (string * TokenUsage.t))
    (m : string * option string) :
  Forall tokenUsageShape (JsMap.values tokens) ->
  Forall tokenUsageShape (JsMap.values (recordToken filePath tokens m)).
Proof.
  intros HF. rewrite Forall_forall in *. intros u Hu.
  apply recordToken_step in Hu as [Hu | [[Hc Hf] | (e & He & Hc & Hfiles)]].
  - now apply HF.
  - unfold tokenUsageShape. rewrite Hc, Hf. simpl.
    split; [apply NoDup_singleton | lia].
  - destruct (HF e He) as (Hnd & Hlen & Hpos). unfold tokenUsageShape.
    destruct Hfiles as [[_ ->] | [Hnot ->]].
    + split; [exact Hnd | lia].
    + split; [|rewrite length_app; simpl; lia].
      apply NoDup_app. split; [exact Hnd|]. split; [|apply NoDup_singleton].
      intros x Hx Hx'. apply list_elem_of_singleton in Hx'. now subst.
Qed.

Lemma analyzeFiles_tokens_shape (env : Env) (options : AnalyzeOptions)
    (filePaths : list string) :
  Forall tokenUsageShape (JsMap.values (allTokens (analyzeFiles env options filePaths))).
Proof.
  unfold analyzeFiles.
  apply (fold_left_preserves
           (fun st => Forall tokenUsageShape (JsMap.values (allTokens st)))).
  - intros st filePath Hst. unfold analyzeStep, analyzeFile.
    destruct (extractClassesFromFile env filePath) as [[[classes converted] unconverted]|];
      [|exact Hst].
    destruct (fileStyles env options converted) as [[finalStyles|]|];
      cbn [allTokens]; [|exact Hst|exact Hst].
    unfold extractTokensFromStyles.
    apply (walkObject_preserves
             (fun tokens => Forall tokenUsageShape (JsMap.values tokens)));
      [|exact Hst].
    intros tokens m. apply recordToken_shape.
  - constructor.
Qed.

(** One more [token()] occurrence, exactly: a record that exists gets
    its count raised by one, and the file appended unless it lists it; a
    token without record gets one with count 1 and the file; the records of
    the other tokens stay as they are. *)
Lemma recordToken_exact (filePath : string) (tokens : list (string * TokenUsage.t))
    (m : string * option string) :
  Js.truthy (Js.trim (fst m)) = true ->
  (forall existing,
     JsMap.get (tokenKey m) tokens = Some existing ->
     JsMap.get (tokenKey m) (recordToken filePath tokens m)
     = Some (TokenUsage.mk (TokenUsage.category existing) (TokenUsage.path existing)
               (TokenUsage.value existing) (TokenUsage.count existing + 1)
               (if Js.listIncludes filePath (TokenUsage.files existing)
                then TokenUsage.files existing
                else TokenUsage.files existing ++ [filePath])))
  /\ (JsMap.get (tokenKey m) tokens = None ->
      exists u,
        JsMap.get (tokenKey m) (recordToken filePath tokens m) = Some u
        /\ TokenUsage.count u = 1 /\ TokenUsage.files u = [filePath])
  /\ (forall key,
        key <> tokenKey m ->
        JsMap.get key (recordToken filePath tokens m) = JsMap.get key tokens).
Proof.
  intros Htruthy. unfold recordToken. rewrite Htruthy. fold (tokenKey m).
  split; [|split].
  - intros existing Hget. rewrite Hget. apply get_set_eq.
  - intros Hget. rewrite Hget. eexists. split; [apply get_set_eq|]. now split.
  - intros key Hkey.
    destruct (JsMap.get (tokenKey m) tokens); apply get_set_ne; congruence.
Qed.

(** C10.  Every token usage record of a project analysis lists no file
    twice, counts at least as many occurrences as it lists files, and counts
    at least one.  Each occurrence of a token is recorded: when the token
    has a record, the occurrence adds one to its count, also when it comes
    from a file that the record lists already, and the file is appended
    exactly when the record does not list it yet; when the token has no
    record, it gets one with the count 1 and the file; no other record
    changes. *)
Theorem token_usage_invariant (env : Env) (options : AnalyzeOptions)
    (filePaths : list string) (u : TokenUsage.t) :
  u ∈ ProjectAnalysis.tokens (analyzeProject env options filePaths) ->
  NoDup (TokenUsage.files u)
  /\ Z.of_nat (length (TokenUsage.files u)) <= TokenUsage.count u
  /\ 1 <= TokenUsage.count u
  /\ forall filePath tokens m,
       Js.truthy (Js.trim (fst m)) = true ->
       (forall existing,
          JsMap.get (tokenKey m) tokens = Some existing ->
          exists u',
            JsMap.get (tokenKey m) (recordToken filePath tokens m) = Some u'
            /\ TokenUsage.count u' = TokenUsage.count existing + 1
            /\ (filePath ∈ TokenUsage.files existing ->
                TokenUsage.files u' = TokenUsage.files existing)
            /\ (filePath ∉ TokenUsage.files existing ->
                TokenUsage.files u' = TokenUsage.files existing ++ [filePath])
            /\ TokenUsage.category u' = TokenUsage.category existing
            /\ TokenUsage.path u' = TokenUsage.path existing
            /\ TokenUsage.value u' = TokenUsage.value existing)
       /\ (JsMap.get (tokenKey m) tokens = None ->
           exists u',
             JsMap.get (tokenKey m) (recordToken filePath tokens m) = Some u'
             /\ TokenUsage.count u' = 1 /\ TokenUsage.files u' = [filePath])
       /\ (forall key,
             key <> tokenKey m ->
             JsMap.get key (recordToken filePath tokens m) = JsMap.get key tokens).
Proof.
  intros Hu. cbn [analyzeProject ProjectAnalysis.tokens] in Hu.
  apply elem_of_sortByCountDesc in Hu.
  pose proof (analyzeFiles_tokens_shape env options filePaths) as HF.
  rewrite Forall_forall in HF. destruct (HF u Hu) as (Hnd & Hlen & Hpos).
  split; [exact Hnd|]. split; [exact Hlen|]. split; [exact Hpos|].
  intros filePath tokens m Htruthy.
  destruct (recordToken_exact filePath tokens m Htruthy) as (Hsome & Hnone & Hother).
  split; [|split; [exact Hnone | exact Hother]].
  intros existing Hget. eexists. split; [exact (Hsome existing Hget)|].
  cbn [TokenUsage.count TokenUsage.files TokenUsage.category TokenUsage.path
         TokenUsage.value].
  split; [reflexivity|].
  destruct (Js.listIncludes filePath (TokenUsage.files existing)) eqn:Hinc.
  - apply listIncludes_true in Hinc. repeat split; tauto.
  - apply listIncludes_false in Hinc. repeat split; tauto.
Qed.

End TokenUsageInvariant.

(** The records of the sample project: the token [colors.red.500] is used
    twice, in two files.  And one more occurrence in a file that its record
    lists already raises the count and leaves the files. *)
Lemma token_usage_invariant_witness :
  let u := TokenUsage.mk "colors" "red.500" "#ef4444" 2 ["src/a.tsx"; "src/b.tsx"] in
  u ∈ ProjectAnalysis.tokens
        (Analyze.analyzeProject Examples.analyzeEnv Analyze.defaultOptions
           Examples.projectFiles)
  /\ NoDup (TokenUsage.files u)
  /\ Z.of_nat (length (TokenUsage.files u)) <= TokenUsage.count u
  /\ 1 <= TokenUsage.count u
  /\ exists u',
       JsMap.get "colors.red.500"
         (Analyze.recordToken "src/b.tsx" [("colors.red.500", u)]
            ("colors.red.500", Some "#ef4444"))
       = Some u'
       /\ TokenUsage.count u' = 3
       /\ TokenUsage.files u' = ["src/a.tsx"; "src/b.tsx"].
Proof.
  intros u.
  assert (Hu : u ∈ ProjectAnalysis.tokens
                     (Analyze.analyzeProject Examples.analyzeEnv
                        Analyze.defaultOptions Examples.projectFiles)).
  { vm_compute. constructor. }
  split; [exact Hu|].
  destruct (token_usage_invariant Examples.analyzeEnv Analyze.defaultOptions
              Examples.projectFiles u Hu) as (H1 & H2 & H3 & H4).
  split; [exact H1|]. split; [exact H2|]. split; [exact H3|].
  destruct (H4 "src/b.tsx" [("colors.red.500", u)] ("colors.red.500", Some "#ef4444")
              eq_refl) as (Hrepeat & _).
  destruct (Hrepeat u eq_refl) as (u' & Hget & Hcount & Hsame & _).
  exists u'. split; [exact Hget|]. split; [exact Hcount|].
  apply Hsame. apply list_elem_of_further. constructor.
Defined.

(** A style object that uses one token for two properties, in one file:
    the token is counted twice and the file is listed once. *)
Example token_counted_twice_in_one_file :
  Analyze.extractTokensFromStyles
    (SObject [("color", SValue "token(colors.red.500, #ef4444)");
              ("borderColor", SValue "token(colors.red.500, #ef4444)")])
    "src/a.tsx" []
  = [("colors.red.500", TokenUsage.mk "colors" "red.500" "#ef4444" 2 ["src/a.tsx"])].
Proof. reflexivity. Qed.

(** ** Pattern detection *)

Section PatternThreshold.

Import Analyze.

Variable env : Env.
Variable options : AnalyzeOptions.

#[local] Abbreviation obs h l := (observations env options h l).
#[local] Abbreviation patternsTrack l cp := (Analyze.patternsTrack env options l cp).

Lemma observations_snoc (h : string) (l : list string) (f : string) :
  obs h (l ++ [f])
  = obs h l ++ (if bool_decide (observation env options f = Some h) then [f] else []).
Proof. unfold observations. now rewrite List.filter_app. Qed.

Lemma analyzeFiles_snoc (l : list string) (f : string) :
  analyzeFiles env options (l ++ [f])
  = analyzeStep env options (analyzeFiles env options l) f.
Proof. unfold analyzeFiles. now rewrite fold_left_app. Qed.

Lemma elem_set {V : Type} (m : list (string * V)) (k k' : string) (v v' : V) :
  (k', v') ∈ JsMap.set k v m -> (k', v') = (k, v) \/ (k', v') ∈ m.
Proof.
  induction m as [|[k0 v0] m IH]; cbn [JsMap.set].
  - intros H. apply list_elem_of_singleton in H. now left.
  - destruct (String.eqb k0 k); rewrite !elem_of_cons.
    + intros [H|H]; auto.
    + intros [H|H]; [auto|]. destruct (IH H); auto.
Qed.

Lemma patternsTrack_skip (l : list string) (f : string)
    (cp : list (string * ExtractedPattern.t)) :
  observation env options f = None -> patternsTrack l cp -> patternsTrack (l ++ [f]) cp.
Proof.
  intros Hobs (Hnd & Hid & Hget). split; [exact Hnd|]. split; [exact Hid|].
  intros h. specialize (Hget h). rewrite observations_snoc, Hobs.
  rewrite bool_decide_eq_false_2 by discriminate. rewrite app_nil_r.
  destruct (JsMap.get h cp) as [p|]; [|exact Hget].
  destruct Hget as (Hc & Hpos & Hfiles). repeat split; try assumption.
  intros Hnodup. apply Hfiles. rewrite map_app in Hnodup.
  now apply NoDup_app in Hnodup as [? _].
Qed.

Lemma obs_subset (h : string) (l : list string) (x : string) :
  x ∈ map (relative env) (obs h l) -> x ∈ map (relative env) l.
Proof.
  rewrite !list_elem_of_fmap. intros (f & -> & Hf). exists f. split; [reflexivity|].
  unfold observations in Hf. rewrite list_elem_of_In in *.
  now apply filter_In in Hf as [? _].
Qed.

Lemma patternsTrack_record (l : list string) (f : string)
    (converted : list string) (finalStyles : StyleObject)
    (cp : list (string * ExtractedPattern.t)) :
  observation env options f = Some (generatePatternId converted) ->
  patternsTrack l cp ->
  patternsTrack (l ++ [f]) (trackPattern converted finalStyles (relative env f) cp).
Proof.
  intros Hobs (Hnd & Hid & Hget). unfold trackPattern.
  set (pid := generatePatternId converted) in *.
  pose proof (Hget pid) as Hpid.
  destruct (JsMap.get pid cp) as [existing|] eqn:Hex.
  - destruct Hpid as (Hc & Hpos & Hfiles).
    split; [now apply NoDup_keys_set|]. split.
    + intros k p Hin. apply elem_set in Hin as [[= -> ->]|Hin]; [|now apply Hid].
      cbn [ExtractedPattern.id]. apply Hid. now apply get_Some_elem.
    + intros h. rewrite observations_snoc, Hobs.
      destruct (decide (pid = h)) as [<-|Hne].
      * rewrite get_set_eq, bool_decide_eq_true_2 by reflexivity.
        cbn [ExtractedPattern.count ExtractedPattern.files].
        rewrite length_app. cbn [length]. split; [lia|]. split; [lia|].
        intros Hnodup. rewrite map_app in Hnodup.
        apply NoDup_app in Hnodup as (Hl & Hdisj & _).
        rewrite (Hfiles Hl). rewrite map_app. cbn [map].
        assert (Hfresh : relative env f ∉ map (relative env) (obs pid l)).
        { intros Hin. apply obs_subset in Hin. apply (Hdisj _ Hin). constructor. }
        apply listIncludes_false in Hfresh. now rewrite Hfresh.
      * rewrite get_set_ne by assumption.
        rewrite bool_decide_eq_false_2 by congruence. rewrite app_nil_r.
        specialize (Hget h). destruct (JsMap.get h cp) as [p|]; [|exact Hget].
        destruct Hget as (Hc' & Hpos' & Hfiles'). repeat split; try assumption.
        intros Hnodup. apply Hfiles'. rewrite map_app in Hnodup.
        now apply NoDup_app in Hnodup as [? _].
  - split; [now apply NoDup_keys_set|]. split.
    + intros k p Hin. apply elem_set in Hin as [[= -> ->]|Hin]; [|now apply Hid].
      reflexivity.
    + intros h. rewrite observations_snoc, Hobs.
      destruct (decide (pid = h)) as [<-|Hne].
      * rewrite get_set_eq, bool_decide_eq_true_2 by reflexivity.
        cbn [ExtractedPattern.count ExtractedPattern.files].
        rewrite Hpid. cbn [app length map]. split; [reflexivity|]. split; [lia|].
        reflexivity.
      * rewrite get_set_ne by assumption.
        rewrite bool_decide_eq_false_2 by congruence. rewrite app_nil_r.
        specialize (Hget h). destruct (JsMap.get h cp) as [p|]; [|exact Hget].
        destruct Hget as (Hc' & Hpos' & Hfiles'). repeat split; try assumption.
        intros Hnodup. apply Hfiles'. rewrite map_app in Hnodup.
        now apply NoDup_app in Hnodup as [? _].
Qed.

Lemma analyzeStep_patternsTrack (l : list string) (f : string) (st : State) :
  patternsTrack l (classPatterns st) ->
  patternsTrack (l ++ [f]) (classPatterns (analyzeStep env options st f)).
Proof.
  intros Hst. unfold analyzeStep, analyzeFile.
  pose proof (eq_refl (observation env options f)) as Hobs.
  unfold observation at 2 in Hobs.
  destruct (extractClassesFromFile env f) as [[[classes converted] unconverted]|];
    [|now apply patternsTrack_skip].
  destruct (fileStyles env options converted) as [[finalStyles|]|];
    cbn [classPatterns].
  - now apply patternsTrack_record.
  - now apply patternsTrack_skip.
  - now apply patternsTrack_skip.
Qed.

Lemma analyzeFiles_patternsTrack (l : list string) :
  patternsTrack l (classPatterns (analyzeFiles env options l)).
Proof.
  induction l as [|f l IH] using rev_ind.
  - split; [constructor|]. split; [intros k p H; inversion H|]. reflexivity.
  - rewrite analyzeFiles_snoc. now apply analyzeStep_patternsTrack.
Qed.

Lemma elem_of_detectedPatterns (st : State) (p : ExtractedPattern.t) :
  p ∈ detectedPatterns options st
  <-> p ∈ JsMap.values (classPatterns st)
      /\ minPatternCount options <= ExtractedPattern.count p.
Proof.
  unfold detectedPatterns. rewrite elem_of_sortByCountDesc.
  rewrite !list_elem_of_In, filter_In, Z.leb_le. reflexivity.
Qed.

Lemma pattern_of_id (l : list string) (p : ExtractedPattern.t) :
  p ∈ JsMap.values (classPatterns (analyzeFiles env options l))
  <-> JsMap.get (ExtractedPattern.id p) (classPatterns (analyzeFiles env options l))
      = Some p.
Proof.
  destruct (analyzeFiles_patternsTrack l) as (Hnd & Hid & _).
  unfold JsMap.values. rewrite list_elem_of_fmap. split.
  - intros ([k p'] & -> & Hin). cbn [snd]. rewrite (Hid _ _ Hin).
    now apply elem_get.
  - intros Hget. apply get_Some_elem in Hget.
    exists (ExtractedPattern.id p, p). split; [reflexivity | exact Hget].
Qed.

(** C5.  A pattern observed [minPatternCount - 1] times is absent from the
    detected patterns, and a pattern observed exactly [minPatternCount]
    times (the threshold being at least one) is present, with that count.
    Each further observation of a known pattern adds one to its count and,
    the scanned files being distinct, appends the file to its file list. *)
Theorem pattern_promotion_threshold (filePaths : list string) (h : string) :
  (Z.of_nat (length (obs h filePaths)) = minPatternCount options - 1
   -> forall p,
        p ∈ ProjectAnalysis.patterns (analyzeProject env options filePaths)
        -> ExtractedPattern.id p <> h)
  /\ (Z.of_nat (length (obs h filePaths)) = minPatternCount options
      -> 1 <= minPatternCount options
      -> exists p,
           p ∈ ProjectAnalysis.patterns (analyzeProject env options filePaths)
           /\ ExtractedPattern.id p = h
           /\ ExtractedPattern.count p = minPatternCount options
           /\ (NoDup (map (relative env) filePaths)
               -> ExtractedPattern.files p = map (relative env) (obs h filePaths)))
  /\ (forall p,
        p ∈ ProjectAnalysis.patterns (analyzeProject env options filePaths)
        -> ExtractedPattern.id p = h
        -> ExtractedPattern.count p = Z.of_nat (length (obs h filePaths))
           /\ minPatternCount options <= ExtractedPattern.count p)
  /\ (forall f p,
        NoDup (map (relative env) (filePaths ++ [f]))
        -> observation env options f = Some h
        -> JsMap.get h (classPatterns (analyzeFiles env options filePaths)) = Some p
        -> exists p',
             JsMap.get h (classPatterns (analyzeFiles env options (filePaths ++ [f])))
             = Some p'
             /\ ExtractedPattern.count p' = ExtractedPattern.count p + 1
             /\ ExtractedPattern.files p'
                = ExtractedPattern.files p ++ [relative env f]).
Proof.
  assert (Hgen : forall p,
            p ∈ ProjectAnalysis.patterns (analyzeProject env options filePaths)
            -> ExtractedPattern.id p = h
            -> ExtractedPattern.count p = Z.of_nat (length (obs h filePaths))
               /\ minPatternCount options <= ExtractedPattern.count p).
  { intros p Hp Hid. cbn [analyzeProject ProjectAnalysis.patterns] in Hp.
    apply elem_of_detectedPatterns in Hp as [Hp Hmin]. split; [|exact Hmin].
    apply pattern_of_id in Hp. rewrite Hid in Hp.
    destruct (analyzeFiles_patternsTrack filePaths) as (_ & _ & Hget).
    specialize (Hget h). rewrite Hp in Hget. now destruct Hget. }
  split; [|split; [|split]].
  - intros Hn p Hp Hid. destruct (Hgen p Hp Hid). lia.
  - intros Hn Hmin.
    destruct (analyzeFiles_patternsTrack filePaths) as (_ & Hid & Hget).
    specialize (Hget h).
    destruct (JsMap.get h (classPatterns (analyzeFiles env options filePaths)))
      as [p|] eqn:Hp.
    + destruct Hget as (Hc & _ & Hfiles). exists p.
      assert (Hidp : ExtractedPattern.id p = h).
      { apply Hid. now apply get_Some_elem. }
      split; [|split; [exact Hidp | split; [lia | exact Hfiles]]].
      cbn [analyzeProject ProjectAnalysis.patterns].
      apply elem_of_detectedPatterns. split; [|lia].
      apply pattern_of_id. now rewrite Hidp.
    + rewrite Hget in Hn. simpl in Hn. lia.
  - exact Hgen.
  - intros f p Hnodup Hobs Hp.
    destruct (analyzeFiles_patternsTrack filePaths) as (_ & _ & Hget).
    destruct (analyzeFiles_patternsTrack (filePaths ++ [f])) as (_ & _ & Hget').
    specialize (Hget h). specialize (Hget' h). rewrite Hp in Hget.
    destruct Hget as (Hc & Hpos & Hfiles).
    rewrite observations_snoc, Hobs, bool_decide_eq_true_2 in Hget' by reflexivity.
    destruct (JsMap.get h (classPatterns (analyzeFiles env options (filePaths ++ [f]))))
      as [p'|].
    + destruct Hget' as (Hc' & _ & Hfiles'). exists p'. split; [reflexivity|].
      rewrite length_app in Hc'. cbn [length] in Hc'. split; [lia|].
      rewrite (Hfiles' Hnodup), map_app. cbn [map]. f_equal. symmetry.
      apply Hfiles. rewrite map_app in Hnodup. now apply NoDup_app in Hnodup as [? _].
    + destruct (obs h filePaths); discriminate Hget'.
Qed.

End PatternThreshold.

(** In the sample project the pattern of [md:hover:bg-red-500] is observed
    in two files; with the default threshold of two it is detected. *)
Lemma pattern_promotion_threshold_witness :
  exists p,
    p ∈ ProjectAnalysis.patterns
          (Analyze.analyzeProject Examples.analyzeEnv Analyze.defaultOptions
             Examples.projectFiles)
    /\ ExtractedPattern.id p = "md:hover:bg-red-500"
    /\ ExtractedPattern.count p = 2.
Proof.
  destruct (pattern_promotion_threshold Examples.analyzeEnv Analyze.defaultOptions
              Examples.projectFiles "md:hover:bg-red-500") as (_ & H & _).
  destruct H as (p & Hp & Hid & Hc & _).
  - vm_compute. reflexivity.
  - vm_compute. discriminate.
  - exists p. auto.
Defined.

(** ** The effort estimate *)

Section Effort.

Import Analyze.

Lemma estimatedHours_ceiling (u p : Z) :
  (estimatedHours u p == inject_Z (Qceiling (SpecWords.effortHours u p * 10)) / 10)%Q.
Proof. reflexivity. Qed.

Lemma tenth_le (k : Z) (x : Q) : (x * 10 <= inject_Z k)%Q <-> (x <= inject_Z k / 10)%Q.
Proof.
  split; intros H.
  - apply Qle_shift_div_l; [reflexivity | exact H].
  - apply (Qmult_le_compat_r _ _ 10) in H; [|discriminate].
    rewrite (Qmult_comm (inject_Z k / 10)), Qmult_div_r in H by discriminate.
    exact H.
Qed.

(** C8, as the source has it.  The estimated effort is one minute per
    unique unconverted class plus half a minute per detected pattern,
    converted to hours and rounded up to the next tenth of an hour: it is
    the least multiple of 0.1 that is not below the exact value. *)
Theorem estimated_effort_rounds_up (env : Env) (options : AnalyzeOptions)
    (filePaths : list string) :
  (Summary.estimatedEffortHours
     (ProjectAnalysis.summary (analyzeProject env options filePaths))
   == inject_Z
        (Qceiling
           (SpecWords.effortHours
              (Summary.unconvertedClasses
                 (ProjectAnalysis.summary (analyzeProject env options filePaths)))
              (Summary.detectedPatterns
                 (ProjectAnalysis.summary (analyzeProject env options filePaths)))
            * 10)) / 10)%Q
  /\ (SpecWords.effortHours
        (Summary.unconvertedClasses
           (ProjectAnalysis.summary (analyzeProject env options filePaths)))
        (Summary.detectedPatterns
           (ProjectAnalysis.summary (analyzeProject env options filePaths)))
      <= Summary.estimatedEffortHours
           (ProjectAnalysis.summary (analyzeProject env options filePaths)))%Q
  /\ (forall k : Z,
        (SpecWords.effortHours
           (Summary.unconvertedClasses
              (ProjectAnalysis.summary (analyzeProject env options filePaths)))
           (Summary.detectedPatterns
              (ProjectAnalysis.summary (analyzeProject env options filePaths)))
         <= inject_Z k / 10)%Q
        -> (Summary.estimatedEffortHours
              (ProjectAnalysis.summary (analyzeProject env options filePaths))
            <= inject_Z k / 10)%Q)
  /\ Summary.unconvertedClasses
       (ProjectAnalysis.summary (analyzeProject env options filePaths))
     = Z.of_nat
         (length
            (Js.uniq
               (flat_map FileAnalysis.unconvertedClasses
                  (ProjectAnalysis.files (analyzeProject env options filePaths)))))
  /\ Summary.detectedPatterns
       (ProjectAnalysis.summary (analyzeProject env options filePaths))
     = Z.of_nat
         (length (ProjectAnalysis.patterns (analyzeProject env options filePaths))).
Proof.
  cbn [analyzeProject ProjectAnalysis.summary ProjectAnalysis.files
       ProjectAnalysis.patterns Summary.estimatedEffortHours
       Summary.unconvertedClasses Summary.detectedPatterns].
  set (u := Z.of_nat (length (Js.uniq _))).
  set (p := Z.of_nat (length (detectedPatterns _ _))).
  split; [apply estimatedHours_ceiling|]. split; [|split; [|split; reflexivity]].
  - rewrite estimatedHours_ceiling. apply tenth_le. apply Qle_ceiling.
  - intros k Hk. rewrite estimatedHours_ceiling.
    apply tenth_le in Hk. apply tenth_le.
    apply Qceiling_resp_le in Hk. rewrite Qceiling_Z in Hk.
    set (c := Qceiling _) in *.
    rewrite (Qmult_comm (inject_Z c / 10) 10), Qmult_div_r by discriminate.
    now rewrite <- Zle_Qle.
Qed.

End Effort.

(** C8 as stated fails for rounding to the nearest tenth: the sample
    project has one unconverted class and one detected pattern, 0.025 hours,
    estimated at 0.1 hours and not at 0.0. *)
Lemma estimated_effort_not_nearest :
  let s := ProjectAnalysis.summary
             (Analyze.analyzeProject Examples.analyzeEnv Analyze.defaultOptions
                Examples.projectFiles) in
  Summary.unconvertedClasses s = 1
  /\ Summary.detectedPatterns s = 1
  /\ (Summary.estimatedEffortHours s == 1 # 10)%Q
  /\ (SpecWords.roundToOneDecimal
        (SpecWords.effortHours (Summary.unconvertedClasses s)
           (Summary.detectedPatterns s)) == 0)%Q
  /\ ~ (Summary.estimatedEffortHours s
        == SpecWords.roundToOneDecimal
             (SpecWords.effortHours (Summary.unconvertedClasses s)
                (Summary.detectedPatterns s)))%Q.
Proof.
  intros s. vm_compute. repeat split; discriminate.
Qed.

(** ** Recipe names *)

Section RecipeName.

Import Analyze.

Lemma countPrefix_counted (m : list (string * Z)) (cls : string) :
  countPrefix m cls
  = match countedPrefix cls with
    | Some q => JsMap.set q (default 0 (JsMap.get q m) + 1) m
    | None => m
    end.
Proof.
  unfold countPrefix, countedPrefix.
  now destruct (Js.truthy (classPrefix cls) && (2 <? String.length (classPrefix cls))%nat).
Qed.

Lemma prefixCount_snoc (q : string) (l : list string) (cls : string) :
  prefixCount q (l ++ [cls])
  = prefixCount q l + (if bool_decide (countedPrefix cls = Some q) then 1 else 0).
Proof.
  unfold prefixCount. rewrite List.filter_app, length_app. cbn [List.filter].
  destruct (bool_decide (countedPrefix cls = Some q)); cbn [length]; lia.
Qed.

Lemma prefixCount_nonneg (q : string) (l : list string) : 0 <= prefixCount q l.
Proof. unfold prefixCount. lia. Qed.

Lemma prefixCount_pos (q : string) (l : list string) :
  1 <= prefixCount q l -> exists cls, cls ∈ l /\ countedPrefix cls = Some q.
Proof.
  unfold prefixCount. intros H.
  destruct (List.filter _ l) as [|cls r] eqn:Hf; [simpl in H; lia|].
  assert (Hin : In cls (List.filter
                          (fun cls => bool_decide (countedPrefix cls = Some q)) l))
    by (rewrite Hf; now left).
  apply filter_In in Hin as [Hin Hq]. apply bool_decide_eq_true in Hq.
  exists cls. now rewrite list_elem_of_In.
Qed.

Lemma prefixCount_zero (q : string) (l : list string) :
  (forall cls, cls ∈ l -> countedPrefix cls = None) -> prefixCount q l = 0.
Proof.
  intros H. destruct (Z.le_gt_cases 1 (prefixCount q l)) as [Hpos|Hlt].
  - apply prefixCount_pos in Hpos as (cls & Hin & Hq). rewrite (H _ Hin) in Hq.
    discriminate.
  - pose proof (prefixCount_nonneg q l). lia.
Qed.

Lemma countPrefix_tallies (l : list string) :
  tallies l (fold_left countPrefix l []).
Proof.
  induction l as [|cls l IH] using rev_ind.
  - split; [constructor | reflexivity].
  - rewrite fold_left_app. cbn [fold_left]. destruct IH as [Hnd Hget].
    set (m := fold_left countPrefix l []) in *.
    rewrite countPrefix_counted.
    destruct (countedPrefix cls) as [p|] eqn:Hp.
    + split; [now apply NoDup_keys_set|]. intros q. rewrite prefixCount_snoc, Hp.
      destruct (decide (p = q)) as [<-|Hne].
      * rewrite get_set_eq, bool_decide_eq_true_2 by reflexivity.
        specialize (Hget p). destruct (JsMap.get p m) as [n|]; cbn [from_option id].
        -- destruct Hget as [-> ?]. split; [reflexivity | lia].
        -- rewrite Hget. split; [reflexivity | lia].
      * rewrite get_set_ne by assumption.
        rewrite bool_decide_eq_false_2 by congruence. rewrite Z.add_0_r.
        apply Hget.
    + split; [exact Hnd|]. intros q. rewrite prefixCount_snoc, Hp.
      rewrite bool_decide_eq_false_2 by discriminate. rewrite Z.add_0_r.
      apply Hget.
Qed.

Lemma pickMax_fold (l : list (string * Z)) :
  forall (a : string) (n : Z),
    (fold_left pickMax l (a, n) = (a, n) /\ forall e, e ∈ l -> snd e <= n)
    \/ (n < snd (fold_left pickMax l (a, n))
        /\ exists l1 l2,
             l = l1 ++ fold_left pickMax l (a, n) :: l2
             /\ (forall e, e ∈ l1 -> snd e < snd (fold_left pickMax l (a, n)))
             /\ (forall e, e ∈ l2 -> snd e <= snd (fold_left pickMax l (a, n)))).
Proof.
  induction l as [|[k c] l IH]; intros a n.
  - left. split; [reflexivity|]. intros e He. inversion He.
  - cbn [fold_left pickMax]. destruct (n <? c) eqn:Hlt.
    + apply Z.ltb_lt in Hlt. right.
      destruct (IH k c) as [[-> Hall] | (Hgt & l1 & l2 & Hsplit & H1 & H2)].
      * split; [exact Hlt|]. exists [], l. split; [reflexivity|]. split.
        -- intros e He. inversion He.
        -- exact Hall.
      * split; [lia|]. exists ((k, c) :: l1), l2. split; [now rewrite Hsplit at 1|].
        split; [|exact H2].
        intros e He. apply elem_of_cons in He as [->|He]; [exact Hgt | now apply H1].
    + apply Z.ltb_ge in Hlt.
      destruct (IH a n) as [[-> Hall] | (Hgt & l1 & l2 & Hsplit & H1 & H2)].
      * left. split; [reflexivity|].
        intros e He. apply elem_of_cons in He as [->|He]; [exact Hlt | now apply Hall].
      * right. split; [exact Hgt|]. exists ((k, c) :: l1), l2.
        split; [now rewrite Hsplit at 1|]. split; [|exact H2].
        intros e He. apply elem_of_cons in He as [->|He]; [simpl; lia | now apply H1].
Qed.

Lemma tallies_key (l : list string) (m : list (string * Z)) (cls q : string) :
  tallies l m -> cls ∈ l -> countedPrefix cls = Some q -> q ∈ map fst m.
Proof.
  intros [_ Hget] Hcls Hq. specialize (Hget q).
  destruct (JsMap.get q m) as [n|] eqn:Hn.
  - apply get_Some_elem in Hn. apply list_elem_of_fmap. now exists (q, n).
  - exfalso. unfold prefixCount in Hget.
    assert (Hin : In cls (List.filter
                            (fun c => bool_decide (countedPrefix c = Some q)) l)).
    { apply filter_In. rewrite <- list_elem_of_In. split; [exact Hcls|].
      now apply bool_decide_eq_true. }
    destruct (List.filter _ l); [inversion Hin | simpl in Hget; lia].
Qed.

(** The keys of the tally stand in the order in which the prefixes first
    occur: before the first class with the prefix [k], every counted prefix
    is one of the keys before [k]. *)
Lemma countPrefix_key_order (l : list string) :
  forall K1 k K2,
    map fst (fold_left countPrefix l []) = K1 ++ k :: K2 ->
    exists l1 cls l2,
      l = l1 ++ cls :: l2
      /\ countedPrefix cls = Some k
      /\ forall c q, c ∈ l1 -> countedPrefix c = Some q -> q ∈ K1.
Proof.
  induction l as [|x l IH] using rev_ind; intros K1 k K2 HK.
  - destruct K1; discriminate HK.
  - pose proof (countPrefix_tallies l) as Htal.
    rewrite fold_left_app in HK. cbn [fold_left] in HK.
    rewrite countPrefix_counted in HK.
    set (m := fold_left countPrefix l []) in *.
    assert (Hold : forall K2',
              map fst m = K1 ++ k :: K2' ->
              exists l1 cls l2,
                l ++ [x] = l1 ++ cls :: l2
                /\ countedPrefix cls = Some k
                /\ forall c q, c ∈ l1 -> countedPrefix c = Some q -> q ∈ K1).
    { intros K2' HK'. destruct (IH _ _ _ HK') as (l1 & cls & l2 & -> & Hk & Hbefore).
      exists l1, cls, (l2 ++ [x]). split; [now rewrite <- app_assoc|]. auto. }
    destruct (countedPrefix x) as [p|] eqn:Hp; [|now apply (Hold K2)].
    rewrite keys_set in HK.
    destruct (bool_decide (p ∈ map fst m)) eqn:Hpm; [now apply (Hold K2)|].
    destruct K2 as [|z K2 _] using rev_ind.
    + apply app_inj_tail in HK as [HK ->].
      exists l, x, []. split; [reflexivity|]. split; [exact Hp|].
      intros c q Hc Hq. rewrite <- HK. exact (tallies_key _ _ _ _ Htal Hc Hq).
    + rewrite app_comm_cons, app_assoc in HK. apply app_inj_tail in HK as [HK _].
      now apply (Hold K2).
Qed.

(** C9, as the source has it.  Only prefixes longer than two characters
    are counted.  When some class of the group has such a prefix, the name
    is one of these prefixes with the highest count, even if that count is
    one, and among equally frequent prefixes the one that occurs first;
    when no class has one, the name is the placeholder [component]. *)
Theorem inferRecipeName_most_frequent_counted (patterns : list ExtractedPattern.t) :
  ((forall cls, cls ∈ flat_map ExtractedPattern.classes patterns
                -> countedPrefix cls = None)
   -> inferRecipeName patterns = "component")
  /\ ((exists cls, cls ∈ flat_map ExtractedPattern.classes patterns
                   /\ countedPrefix cls <> None)
      -> (exists cls, cls ∈ flat_map ExtractedPattern.classes patterns
                      /\ countedPrefix cls = Some (inferRecipeName patterns))
         /\ (forall q,
               prefixCount q (flat_map ExtractedPattern.classes patterns)
               <= prefixCount (inferRecipeName patterns)
                    (flat_map ExtractedPattern.classes patterns))
         /\ (forall q,
               q <> inferRecipeName patterns ->
               prefixCount q (flat_map ExtractedPattern.classes patterns)
               = prefixCount (inferRecipeName patterns)
                   (flat_map ExtractedPattern.classes patterns) ->
               exists l1 cls l2,
                 flat_map ExtractedPattern.classes patterns = l1 ++ cls :: l2
                 /\ countedPrefix cls = Some (inferRecipeName patterns)
                 /\ forall c, c ∈ l1 -> countedPrefix c <> Some q))
  /\ (forall cls q,
        countedPrefix cls = Some q
        <-> q = classPrefix cls /\ (2 < String.length q)%nat).
Proof.
  unfold inferRecipeName.
  set (classes := flat_map ExtractedPattern.classes patterns).
  destruct (countPrefix_tallies classes) as [Hnd Hget].
  set (m := fold_left countPrefix classes []) in *.
  assert (Hentry : forall e, e ∈ m -> 1 <= snd e /\ snd e = prefixCount (fst e) classes).
  { intros [k c] He. apply elem_get in He; [|exact Hnd].
    specialize (Hget k). rewrite He in Hget. cbn [fst snd]. lia. }
  split; [|split].
  - intros Hnone.
    destruct (pickMax_fold m "component" 0)
      as [[-> _] | (_ & l1 & l2 & Hsplit & _ & _)]; [reflexivity|].
    assert (Hin : fold_left pickMax m ("component", 0) ∈ m).
    { rewrite Hsplit at 2. apply elem_of_app. right. constructor. }
    destruct (Hentry _ Hin) as [Hpos Hc].
    rewrite (prefixCount_zero _ _ Hnone) in Hc. lia.
  - intros (cls & Hcls & Hsome).
    destruct (countedPrefix cls) as [p|] eqn:Hp; [|congruence].
    assert (Hp1 : 1 <= prefixCount p classes).
    { unfold prefixCount.
      assert (Hin : In cls (List.filter
                              (fun c => bool_decide (countedPrefix c = Some p)) classes)).
      { apply filter_In. rewrite <- list_elem_of_In. split; [exact Hcls|].
        now apply bool_decide_eq_true. }
      destruct (List.filter _ classes); [inversion Hin | simpl; lia]. }
    assert (Hpm : exists n, (p, n) ∈ m /\ n = prefixCount p classes).
    { specialize (Hget p). destruct (JsMap.get p m) as [n|] eqn:Hn; [|lia].
      exists n. split; [now apply get_Some_elem | tauto]. }
    destruct Hpm as (n & Hpn & Hn).
    destruct (pickMax_fold m "component" 0)
      as [[_ Hall] | (_ & m1 & m2 & Hsplit & Hm1 & Hm2)].
    + specialize (Hall _ Hpn). cbn [snd] in Hall. lia.
    + set (r := fold_left pickMax m ("component", 0)) in *.
      assert (Hin : r ∈ m).
      { rewrite Hsplit. apply elem_of_app. right. constructor. }
      assert (Hall : forall e, e ∈ m -> snd e <= snd r).
      { intros e He. rewrite Hsplit in He.
        apply elem_of_app in He as [He | He]; [specialize (Hm1 _ He); lia|].
        apply elem_of_cons in He as [->|He]; [reflexivity | now apply Hm2]. }
      destruct (Hentry _ Hin) as [Hpos Hc]. split; [|split].
      * apply prefixCount_pos. now rewrite <- Hc.
      * intros q. rewrite <- Hc. specialize (Hget q).
        destruct (JsMap.get q m) as [nq|] eqn:Hq.
        -- apply get_Some_elem in Hq. specialize (Hall _ Hq). cbn [snd] in Hall. lia.
        -- rewrite Hget. lia.
      * intros q Hne Heq.
        destruct (countPrefix_key_order classes (map fst m1) (fst r) (map fst m2))
          as (l1 & c0 & l2 & Hl & Hc0 & Hbefore).
        { fold m. rewrite Hsplit at 1. now rewrite map_app. }
        exists l1, c0, l2. split; [exact Hl|]. split; [exact Hc0|].
        intros c Hcin Hcq. specialize (Hbefore c q Hcin Hcq).
        apply list_elem_of_fmap in Hbefore as ([q' nq] & -> & Hq1).
        pose proof (Hm1 _ Hq1) as Hlt. cbn [snd fst] in *.
        assert (Hqm : (q', nq) ∈ m).
        { rewrite Hsplit. apply elem_of_app. now left. }
        destruct (Hentry _ Hqm) as [_ Hnq]. cbn [fst snd] in Hnq. lia.
  - intros cls q. unfold countedPrefix.
    destruct (Js.truthy (classPrefix cls)) eqn:Ht; cbn [andb].
    + destruct (2 <? String.length (classPrefix cls))%nat eqn:Hlen.
      * apply Nat.ltb_lt in Hlen. split.
        -- intros [= <-]. auto.
        -- intros [-> _]. reflexivity.
      * apply Nat.ltb_ge in Hlen. split; [discriminate|]. intros [-> ?]. lia.
    + split; [discriminate|]. intros [-> Hlen].
      unfold Js.truthy in Ht. apply negb_false_iff, String.eqb_eq in Ht.
      rewrite Ht in Hlen. simpl in Hlen. lia.
Qed.

End RecipeName.

(** C9 as stated fails.  In the first group no prefix occurs twice, yet the
    name is [flex] and not the placeholder; in the second the most frequent
    prefix is [p], yet the name is [flex]. *)
Lemma inferRecipeName_no_recurring_prefix :
  (forall q,
     SpecWords.dashPrefixCount q
       (flat_map ExtractedPattern.classes [Examples.rowPattern; Examples.gridPattern])
     <= 1)
  /\ Analyze.inferRecipeName [Examples.rowPattern; Examples.gridPattern] = "flex"
  /\ Analyze.inferRecipeName [Examples.rowPattern; Examples.gridPattern] <> "component"
  /\ SpecWords.dashPrefixCount "p" (ExtractedPattern.classes Examples.paddedPattern) = 2
  /\ SpecWords.dashPrefixCount "flex" (ExtractedPattern.classes Examples.paddedPattern) = 1
  /\ Analyze.inferRecipeName [Examples.paddedPattern] = "flex".
Proof.
  split; [|repeat split; try reflexivity; discriminate].
  intros q. unfold SpecWords.dashPrefixCount. cbn [flat_map Examples.rowPattern
    Examples.gridPattern ExtractedPattern.classes app List.filter].
  change (Analyze.classPrefix "flex") with "flex".
  change (Analyze.classPrefix "items-center") with "items".
  change (Analyze.classPrefix "grid") with "grid".
  change (Analyze.classPrefix "justify-between") with "justify".
  repeat case_bool_decide; subst; try discriminate; cbn [length]; lia.
Qed.

(** ** The cached design system *)

Section ContextCache.

Import TwContext.

Variable loadDesignSystem : string -> option TailwindContext.

#[local] Abbreviation create := (createTailwindContext loadDesignSystem).

Lemma construct_constructions (css : string) (st : Cache) :
  constructions (snd (construct loadDesignSystem css st)) = S (constructions st).
Proof. unfold construct. now destruct (loadDesignSystem css). Qed.

Lemma create_hit (i : Input) (st : Cache) (ds : DesignSystem) :
  cachedDesignSystem st = Some ds -> cachedCss st = Some (deriveCss i) ->
  create i st = (Some ds, st).
Proof.
  intros Hds Hcss. unfold createTailwindContext. rewrite Hds.
  now rewrite bool_decide_eq_true_2.
Qed.

Lemma create_miss (i : Input) (st : Cache) :
  cachedDesignSystem st = None \/ cachedCss st <> Some (deriveCss i) ->
  create i st = construct loadDesignSystem (deriveCss i) st.
Proof.
  intros H. unfold createTailwindContext.
  destruct (cachedDesignSystem st) as [ds|]; [|reflexivity].
  destruct H as [H|H]; [discriminate|]. now rewrite bool_decide_eq_false_2.
Qed.

Lemma create_cases (i : Input) (st : Cache) :
  (exists ds, cachedDesignSystem st = Some ds /\ cachedCss st = Some (deriveCss i))
  \/ (cachedDesignSystem st = None \/ cachedCss st <> Some (deriveCss i)).
Proof.
  destruct (cachedDesignSystem st) as [ds|]; [|right; now left].
  destruct (decide (cachedCss st = Some (deriveCss i))) as [H|H]; eauto.
Qed.

(** C6.  The design system is cached under the CSS text derived from the
    input.  Where the design system can be constructed for that text, a
    call returns a context and leaves it cached under the text: the cached
    object itself and the state as it was on a hit, a newly constructed
    object with one more construction otherwise.  A second call whose
    input derives the same text returns that very object, constructs
    nothing and leaves the cache as it is.  A call whose input derives
    another text, and a call after [clearTailwindContextCache], construct
    a new object, which differs from the cached one.  For every call, a
    construction takes place exactly when nothing is cached or the derived
    text differs from the cached key. *)
Theorem createTailwindContext_memoized (st : Cache) (i1 i2 : Input)
    (ctx : TailwindContext) :
  deriveCss i1 = deriveCss i2 ->
  loadDesignSystem (deriveCss i1) = Some ctx ->
  exists ds st1,
    create i1 st = (Some ds, st1)
    /\ cachedDesignSystem st1 = Some ds
    /\ cachedCss st1 = Some (deriveCss i1)
    /\ create i2 st1 = (Some ds, st1)
    /\ (forall cached,
          cachedDesignSystem st = Some cached -> cachedCss st = Some (deriveCss i1) ->
          ds = cached /\ st1 = st)
    /\ (cachedDesignSystem st = None \/ cachedCss st <> Some (deriveCss i1) ->
        ds = mkDesignSystem (constructions st) ctx
        /\ constructions st1 = S (constructions st)
        /\ mkDesignSystem (constructions st1) ctx <> ds)
    /\ (forall i3 ctx3,
          deriveCss i3 <> deriveCss i1 ->
          loadDesignSystem (deriveCss i3) = Some ctx3 ->
          create i3 st1
          = (Some (mkDesignSystem (constructions st1) ctx3),
             mkCache (Some (mkDesignSystem (constructions st1) ctx3))
               (Some (deriveCss i3)) (S (constructions st1))))
    /\ create i2 (clearTailwindContextCache st1)
       = (Some (mkDesignSystem (constructions st1) ctx),
          mkCache (Some (mkDesignSystem (constructions st1) ctx))
            (Some (deriveCss i1)) (S (constructions st1)))
    /\ (forall st' i,
          constructions (snd (create i st')) <> constructions st'
          <-> (cachedDesignSystem st' = None \/ cachedCss st' <> Some (deriveCss i)))
    /\ (forall st' i,
          constructions (snd (create i st')) = constructions st'
          \/ constructions (snd (create i st')) = S (constructions st')).
Proof.
  intros Hcss Hload.
  assert (Hfirst : exists ds st1,
             create i1 st = (Some ds, st1)
             /\ cachedDesignSystem st1 = Some ds
             /\ cachedCss st1 = Some (deriveCss i1)
             /\ (forall cached,
                   cachedDesignSystem st = Some cached ->
                   cachedCss st = Some (deriveCss i1) -> ds = cached /\ st1 = st)
             /\ (cachedDesignSystem st = None \/ cachedCss st <> Some (deriveCss i1) ->
                 ds = mkDesignSystem (constructions st) ctx
                 /\ constructions st1 = S (constructions st)
                 /\ mkDesignSystem (constructions st1) ctx <> ds)).
  { destruct (create_cases i1 st) as [(cached & Hds & Hkey) | Hmiss].
    - exists cached, st. rewrite (create_hit _ _ _ Hds Hkey).
      split; [reflexivity|]. split; [exact Hds|]. split; [exact Hkey|]. split.
      + intros c Hc _. split; [congruence | reflexivity].
      + intros [H | H]; congruence.
    - rewrite (create_miss _ _ Hmiss). unfold construct. rewrite Hload.
      eexists _, _. split; [reflexivity|]. cbn [cachedDesignSystem cachedCss constructions].
      split; [reflexivity|]. split; [reflexivity|]. split.
      + intros c Hc Hk. destruct Hmiss as [H | H]; congruence.
      + intros _. split; [reflexivity|]. split; [reflexivity|].
        intros [= H]. lia. }
  destruct Hfirst as (ds & st1 & Hcreate & Hds & Hkey & Hhit & Hmiss).
  exists ds, st1. split; [exact Hcreate|]. split; [exact Hds|]. split; [exact Hkey|].
  split; [apply create_hit; [exact Hds | now rewrite <- Hcss]|].
  split; [exact Hhit|]. split; [exact Hmiss|]. split; [|split; [|split]].
  - intros i3 ctx3 Hother Hload3. rewrite create_miss.
    + unfold construct. now rewrite Hload3.
    + right. rewrite Hkey. congruence.
  - rewrite create_miss by now left. unfold construct. rewrite <- Hcss, Hload.
    reflexivity.
  - intros st' i. split.
    + intros Hne. destruct (create_cases i st') as [(c & Hc & Hk) | H]; [|exact H].
      rewrite (create_hit _ _ _ Hc Hk) in Hne. now destruct Hne.
    + intros H. rewrite (create_miss _ _ H), construct_constructions. lia.
  - intros st' i. destruct (create_cases i st') as [(c & Hc & Hk) | H].
    + left. now rewrite (create_hit _ _ _ Hc Hk).
    + right. rewrite (create_miss _ _ H). apply construct_constructions.
Qed.

End ContextCache.

(** From the empty cache, a call without input constructs the design
    system, and a call with a configuration object then returns the same
    object from the cache. *)
Lemma createTailwindContext_memoized_witness :
  exists ds st1,
    TwContext.createTailwindContext (fun _ => Some Examples.tailwind)
      TwContext.NoInput TwContext.emptyCache = (Some ds, st1)
    /\ TwContext.createTailwindContext (fun _ => Some Examples.tailwind)
         TwContext.ConfigObject st1 = (Some ds, st1)
    /\ TwContext.constructions st1 = 1%nat.
Proof.
  destruct (createTailwindContext_memoized (fun _ => Some Examples.tailwind)
              TwContext.emptyCache TwContext.NoInput TwContext.ConfigObject
              Examples.tailwind eq_refl eq_refl)
    as (ds & st1 & Hfirst & _ & _ & Hsecond & _ & Hmiss & _).
  exists ds, st1. split; [exact Hfirst|]. split; [exact Hsecond|].
  destruct Hmiss as (_ & Hcount & _); [now left | exact Hcount].
Defined.

(** ** Failures of single files *)

Section FileFailures.

Import Batch.

Variable env : Env.
Variable options : BatchOptions.

#[local] Abbreviation absIn file := (join env (cwd options) file).
#[local] Abbreviation absOut file :=
  (join env (cwd options) (outputPathOf env options file)).

Lemma startFile_ext (fs fs' : FileSystem) (file : string) :
  fs !! absIn file = fs' !! absIn file ->
  startFile env options fs file = startFile env options fs' file.
Proof. intros H. unfold startFile, readFileSync. now rewrite H. Qed.

Lemma startFile_write_path (fs : FileSystem) (file path converted : string)
    (written : BatchFileResult) :
  startFile env options fs file = ToWrite path converted written ->
  path = absOut file.
Proof.
  unfold startFile.
  repeat match goal with
         | |- context [match ?x with _ => _ end] => destruct x
         end; intros [= <- _ _] || discriminate; reflexivity.
Qed.

Lemma finishFile_result (fs fs' : FileSystem) (s : Started) :
  fst (finishFile env fs s) = fst (finishFile env fs' s).
Proof.
  destruct s as [r | path converted written]; [reflexivity|].
  unfold finishFile, writeFile. now destruct (writeFailure env path).
Qed.

Lemma finishFile_lookup (fs : FileSystem) (s : Started) (p : string) :
  (forall path converted written, s = ToWrite path converted written -> p <> path) ->
  snd (finishFile env fs s) !! p = fs !! p.
Proof.
  intros Hp. destruct s as [r | path converted written]; [reflexivity|].
  unfold finishFile, writeFile. destruct (writeFailure env path); [reflexivity|].
  cbn [snd]. apply lookup_insert_ne. intros Heq.
  now apply (Hp path converted written eq_refl).
Qed.

Lemma processFile_ext (fs fs' : FileSystem) (file : string) :
  fs !! absIn file = fs' !! absIn file ->
  fst (processFile env options fs file) = fst (processFile env options fs' file).
Proof.
  intros H. unfold processFile. rewrite (startFile_ext _ _ _ H).
  apply finishFile_result.
Qed.

Lemma processFile_error (fs : FileSystem) (file : string) :
  status (fst (processFile env options fs file)) = Error ->
  inputPath (fst (processFile env options fs file)) = file
  /\ is_Some (error (fst (processFile env options fs file)))
  /\ converted (fst (processFile env options fs file)) = None
  /\ snd (processFile env options fs file) = fs.
Proof.
  unfold processFile, startFile.
  repeat match goal with
         | |- context [match ?x with _ => _ end] => destruct x
         end;
    cbn [finishFile]; unfold writeFile;
    try destruct (writeFailure env _);
    cbn; intros H; try discriminate H; eauto.
Qed.

Lemma processFile_inputPath (fs : FileSystem) (file : string) :
  inputPath (fst (processFile env options fs file)) = file.
Proof.
  unfold processFile, startFile.
  repeat match goal with
         | |- context [match ?x with _ => _ end] => destruct x
         end;
    cbn [finishFile]; unfold writeFile;
    try destruct (writeFailure env _); reflexivity.
Qed.

(** The writes of a chunk: the results do not depend on the file system
    on which the writes take place, and only the written paths change. *)
Lemma finish_fold (started : list Started) :
  forall (acc : list BatchFileResult) (fs : FileSystem),
    fst (fold_left
           (fun acc s =>
              let '(result, fs') := finishFile env (snd acc) s in
              (fst acc ++ [result], fs'))
           started (acc, fs))
    = acc ++ map (fun s => fst (finishFile env fs s)) started
    /\ forall p,
         (forall s path converted written,
            s ∈ started -> s = ToWrite path converted written -> p <> path) ->
         snd (fold_left
                (fun acc s =>
                   let '(result, fs') := finishFile env (snd acc) s in
                   (fst acc ++ [result], fs'))
                started (acc, fs)) !! p
         = fs !! p.
Proof.
  induction started as [|s started IH]; intros acc fs.
  - cbn. now rewrite app_nil_r.
  - cbn [fold_left map fst snd].
    destruct (finishFile env fs s) as [r fs1] eqn:Hs.
    destruct (IH (acc ++ [r]) fs1) as [Hres Hfs]. split.
    + rewrite Hres, <- app_assoc. cbn [app]. f_equal. f_equal.
      apply map_ext. intros s'. apply finishFile_result.
    + intros p Hp. rewrite Hfs.
      * change fs1 with (snd (r, fs1)). rewrite <- Hs. apply finishFile_lookup.
        intros path converted written Heq.
        apply (Hp s path converted written); [constructor | exact Heq].
      * intros s' path converted written Hs' Heq.
        apply (Hp s' path converted written); [now constructor | exact Heq].
Qed.

Lemma processChunk_spec (chunk : list string) (acc : list BatchFileResult)
    (fs : FileSystem) :
  fst (processChunk env options (acc, fs) chunk) = acc ++ resultsOn env options fs chunk
  /\ forall p,
       (forall file, file ∈ chunk -> p <> absOut file) ->
       snd (processChunk env options (acc, fs) chunk) !! p = fs !! p.
Proof.
  unfold processChunk. cbn [snd].
  destruct (finish_fold (map (startFile env options fs) chunk) acc fs) as [Hres Hfs].
  split.
  - rewrite Hres. unfold resultsOn, processFile. now rewrite map_map.
  - intros p Hp. apply Hfs. intros s path converted written Hs Heq.
    apply list_elem_of_fmap in Hs as (file & Hstart & Hfile). subst s.
    apply startFile_write_path in Heq. subst path. now apply Hp.
Qed.

Lemma readsUntouched_app (l1 l2 : list string) :
  readsUntouched env options (l1 ++ l2) = true
  <-> readsUntouched env options l1 = true
      /\ readsUntouched env options l2 = true
      /\ forall file later, file ∈ l1 -> later ∈ l2 -> absOut file <> absIn later.
Proof.
  induction l1 as [|f l1 IH]; cbn [app readsUntouched].
  - split; [intros H; repeat split; [exact H | intros ? ? Hf; inversion Hf] | tauto].
  - rewrite andb_true_iff, IH, andb_true_iff, !forallb_forall.
    setoid_rewrite negb_true_iff. setoid_rewrite String.eqb_neq.
    setoid_rewrite <- list_elem_of_In. setoid_rewrite elem_of_app.
    setoid_rewrite elem_of_cons. split.
    + intros (Hf & H1 & H2 & Hcross). repeat split; auto.
      intros file later [-> | Hfile] Hlater; auto.
    + intros ((Hf & H1) & H2 & Hcross). repeat split; auto.
      intros later [Hl | Hl]; auto.
Qed.

Lemma processChunks_spec (fs0 : FileSystem) (chunks : list (list string)) :
  forall (processed : list string) (acc : list BatchFileResult) (fs : FileSystem),
    readsUntouched env options (concat chunks) = true ->
    (forall file later, file ∈ processed -> later ∈ concat chunks
                        -> absOut file <> absIn later) ->
    (forall p, (forall file, file ∈ processed -> p <> absOut file)
               -> fs !! p = fs0 !! p) ->
    fst (fold_left (processChunk env options) chunks (acc, fs))
    = acc ++ resultsOn env options fs0 (concat chunks).
Proof.
  induction chunks as [|c cs IH]; intros processed acc fs Hread Hcross Hfs.
  - cbn. now rewrite app_nil_r.
  - cbn [fold_left concat] in *.
    apply readsUntouched_app in Hread as (_ & Hcs & Hccs).
    destruct (processChunk_spec c acc fs) as [Hres Hlook].
    destruct (processChunk env options (acc, fs) c) as [acc1 fs1].
    cbn [fst snd] in *. subst acc1.
    rewrite (IH (processed ++ c) _ fs1 Hcs).
    + rewrite <- app_assoc. f_equal. unfold resultsOn. rewrite map_app. f_equal.
      apply map_ext_in. intros file Hfile. rewrite <- list_elem_of_In in Hfile.
      apply processFile_ext. apply Hfs. intros earlier He.
      apply not_eq_sym, Hcross; [exact He | apply elem_of_app; now left].
    + intros file later Hfile Hlater. apply elem_of_app in Hfile as [Hfile | Hfile].
      * apply Hcross; [exact Hfile | apply elem_of_app; now right].
      * now apply Hccs.
    + intros p Hp. rewrite Hlook.
      * apply Hfs. intros file Hfile. apply Hp. apply elem_of_app. now left.
      * intros file Hfile. apply Hp. apply elem_of_app. now right.
Qed.

Lemma chunkArrayFrom_some {A : Type} (size : nat) (array : list A) :
  (1 <= size)%nat ->
  forall fuel, (length array <= fuel)%nat ->
    exists chunks, chunkArrayFrom fuel size array = Some chunks /\ concat chunks = array.
Proof.
  intros Hsize fuel. revert array. induction fuel as [|fuel IH]; intros array Hlen.
  - destruct array; [|simpl in Hlen; lia]. exists []. now split.
  - destruct array as [|x array]; [exists []; now split|].
    cbn [chunkArrayFrom].
    destruct (IH (drop size (x :: array))) as (chunks & -> & Hconcat).
    { rewrite length_drop. simpl in *. lia. }
    exists (take size (x :: array) :: chunks). split; [reflexivity|].
    cbn [concat]. rewrite Hconcat. apply take_drop.
Qed.

Lemma chunkArrayFrom_diverges {A : Type} (array : list A) :
  array <> [] -> forall fuel, chunkArrayFrom fuel 0 array = None.
Proof.
  intros Hne fuel. induction fuel as [|fuel IH]; destruct array; try congruence.
  - reflexivity.
  - cbn [chunkArrayFrom]. rewrite drop_0. now rewrite IH.
Qed.

(** With a concurrency of at least one the batch ends, and when no file is
    read after an earlier one has written to its path, each file has the
    result that it has on the initial file system. *)
Lemma batchProcess_results (fs : FileSystem) (files : list string) :
  1 <= concurrency options ->
  readsUntouched env options files = true ->
  exists fs',
    batchProcess env options fs files
    = Some (mkBatchResult (resultsOn env options fs files)
              (summarize (resultsOn env options fs files)), fs').
Proof.
  intros Hc Hread. unfold batchProcess. destruct files as [|f l]; [now exists fs|].
  unfold chunkArray.
  destruct (chunkArrayFrom_some (Z.to_nat (concurrency options)) (f :: l))
    with (fuel := length (f :: l)) as (chunks & -> & Hconcat); [lia | lia |].
  pose proof (processChunks_spec fs chunks [] [] fs) as Hspec.
  rewrite Hconcat in Hspec. cbn [app] in Hspec.
  destruct (fold_left (processChunk env options) chunks ([], fs)) as [results fs'].
  cbn [fst] in Hspec. rewrite Hspec; [now exists fs' | exact Hread | |].
  - intros file later Hfile. inversion Hfile.
  - reflexivity.
Qed.

(** With a concurrency below one the chunking loop never advances. *)
Lemma batchProcess_diverges (fs : FileSystem) (files : list string) :
  concurrency options <= 0 -> files <> [] ->
  batchProcess env options fs files = None.
Proof.
  intros Hc Hne. unfold batchProcess, chunkArray.
  destruct files as [|f l]; [congruence|].
  replace (Z.to_nat (concurrency options)) with 0%nat by lia.
  now rewrite chunkArrayFrom_diverges.
Qed.

Lemma countStatus_app (s : Status) (r1 r2 : list BatchFileResult) :
  countStatus s (r1 ++ r2) = countStatus s r1 + countStatus s r2.
Proof. unfold countStatus. rewrite List.filter_app, length_app. lia. Qed.

End FileFailures.

Section AnalysisFailures.

Import Analyze.

Lemma analyzeFiles_skips (env : Env) (options : AnalyzeOptions)
    (l1 l2 : list string) (bad : string) :
  (forall st, analyzeFile env options st bad = None) ->
  analyzeFiles env options (l1 ++ bad :: l2) = analyzeFiles env options (l1 ++ l2).
Proof.
  intros Hbad. unfold analyzeFiles. rewrite !fold_left_app. cbn [fold_left].
  unfold analyzeStep at 2. now rewrite Hbad.
Qed.

End AnalysisFailures.

(** C7, as the source has it.  A file whose processing throws does not
    stop the run.  In project analysis the file is skipped: the analysis is
    the one of the remaining files, and nothing in it records the failure.
    In batch processing (with a concurrency of at least one, and no file
    read after an earlier one has written to its path) the file gets a
    result of its own with status [error] and the message, which the error
    tally counts; every other file has the result that it has in the run
    without the failing file. *)
Theorem failing_file_is_isolated :
  (forall (env : Analyze.Env) (options : Analyze.AnalyzeOptions)
          (l1 l2 : list string) (bad : string),
     (forall st, Analyze.analyzeFile env options st bad = None) ->
     Analyze.analyzeProject env options (l1 ++ bad :: l2)
     = Analyze.analyzeProject env options (l1 ++ l2))
  /\ (forall (env : Batch.Env) (options : Batch.BatchOptions) (fs : Batch.FileSystem)
             (l1 l2 : list string) (bad : string),
        1 <= Batch.concurrency options ->
        Batch.readsUntouched env options (l1 ++ bad :: l2) = true ->
        Batch.status (fst (Batch.processFile env options fs bad)) = Batch.Error ->
        exists (result : Batch.BatchFileResult) (fs' fs'' : Batch.FileSystem),
          Batch.batchProcess env options fs (l1 ++ bad :: l2)
          = Some (Batch.mkBatchResult
                    (Batch.resultsOn env options fs l1
                     ++ result :: Batch.resultsOn env options fs l2)
                    (Batch.summarize
                       (Batch.resultsOn env options fs l1
                        ++ result :: Batch.resultsOn env options fs l2)),
                  fs')
          /\ Batch.batchProcess env options fs (l1 ++ l2)
             = Some (Batch.mkBatchResult
                       (Batch.resultsOn env options fs l1
                        ++ Batch.resultsOn env options fs l2)
                       (Batch.summarize
                          (Batch.resultsOn env options fs l1
                           ++ Batch.resultsOn env options fs l2)),
                     fs'')
          /\ Batch.inputPath result = bad
          /\ Batch.status result = Batch.Error
          /\ is_Some (Batch.error result)
          /\ Batch.errors
               (Batch.summarize
                  (Batch.resultsOn env options fs l1
                   ++ result :: Batch.resultsOn env options fs l2))
             = Batch.errors
                 (Batch.summarize
                    (Batch.resultsOn env options fs l1
                     ++ Batch.resultsOn env options fs l2))
               + 1
          /\ Batch.total
               (Batch.summarize
                  (Batch.resultsOn env options fs l1
                   ++ result :: Batch.resultsOn env options fs l2))
             = Z.of_nat (length (l1 ++ bad :: l2))).
Proof.
  split.
  - intros env options l1 l2 bad Hbad. unfold Analyze.analyzeProject.
    now rewrite (analyzeFiles_skips env options l1 l2 bad Hbad).
  - intros env options fs l1 l2 bad Hc Hread Herr.
    destruct (processFile_error env options _ _ Herr) as (Hin & Hmsg & _).
    assert (Hread' : Batch.readsUntouched env options (l1 ++ l2) = true).
    { apply readsUntouched_app in Hread as (H1 & H2 & Hcross).
      cbn [Batch.readsUntouched] in H2. apply andb_true_iff in H2 as [_ H2].
      apply readsUntouched_app. repeat split; try assumption.
      intros file later Hfile Hlater. apply Hcross; [exact Hfile | now constructor]. }
    destruct (batchProcess_results env options fs _ Hc Hread) as (fs' & Hbad).
    destruct (batchProcess_results env options fs _ Hc Hread') as (fs'' & Hgood).
    exists (fst (Batch.processFile env options fs bad)), fs', fs''.
    unfold Batch.resultsOn in *. rewrite map_app in Hbad, Hgood. cbn [map] in Hbad.
    split; [exact Hbad|]. split; [exact Hgood|]. split; [exact Hin|].
    split; [exact Herr|]. split; [exact Hmsg|]. split.
    + cbn [Batch.summarize Batch.errors]. rewrite !countStatus_app.
      change (?r :: ?l) with ([r] ++ l). rewrite countStatus_app.
      unfold Batch.countStatus at 2. cbn [List.filter]. rewrite Herr. cbn. lia.
    + cbn [Batch.summarize Batch.total]. f_equal.
      rewrite !length_app. cbn [length]. now rewrite !length_map.
Qed.

(** In the sample project the file that cannot be read is skipped; in the
    sample batch the missing file [b.tsx] gets an error result between the
    results of its neighbours. *)
Lemma failing_file_is_isolated_witness :
  Analyze.analyzeProject Examples.analyzeEnv Analyze.defaultOptions
    Examples.projectFiles
  = Analyze.analyzeProject Examples.analyzeEnv Analyze.defaultOptions
      ["src/a.tsx"; "src/b.tsx"]
  /\ exists result fs',
       Batch.batchProcess Examples.batchEnv Examples.batchOptions Examples.disk
         Examples.batchFiles
       = Some (Batch.mkBatchResult
                 (Batch.resultsOn Examples.batchEnv Examples.batchOptions
                    Examples.disk ["a.tsx"]
                  ++ result
                     :: Batch.resultsOn Examples.batchEnv Examples.batchOptions
                          Examples.disk ["c.tsx"])
                 (Batch.summarize
                    (Batch.resultsOn Examples.batchEnv Examples.batchOptions
                       Examples.disk ["a.tsx"]
                     ++ result
                        :: Batch.resultsOn Examples.batchEnv Examples.batchOptions
                             Examples.disk ["c.tsx"])),
               fs')
       /\ Batch.inputPath result = "b.tsx"
       /\ Batch.status result = Batch.Error.
Proof.
  destruct failing_file_is_isolated as [HA HB]. split.
  - apply (HA Examples.analyzeEnv Analyze.defaultOptions
              ["src/a.tsx"] ["src/b.tsx"] "src/missing.tsx").
    intros st. reflexivity.
  - destruct (HB Examples.batchEnv Examples.batchOptions Examples.disk
                 ["a.tsx"] ["c.tsx"] "b.tsx")
      as (result & fs' & fs'' & H1 & _ & H3 & H4 & _).
    + vm_compute. discriminate.
    + vm_compute. reflexivity.
    + vm_compute. reflexivity.
    + exists result, fs'. auto.
Defined.

(** C7 as stated fails for project analysis: the analysis of a project
    whose only file cannot be read is the analysis of a project without
    files, so that no field of the result records the failure. *)
Lemma analysis_failure_leaves_no_record :
  Analyze.readFileSync Examples.analyzeEnv "src/missing.tsx" = None
  /\ Analyze.analyzeProject Examples.analyzeEnv Analyze.defaultOptions
       ["src/missing.tsx"]
     = Analyze.analyzeProject Examples.analyzeEnv Analyze.defaultOptions []
  /\ ProjectAnalysis.files
       (Analyze.analyzeProject Examples.analyzeEnv Analyze.defaultOptions
          ["src/missing.tsx"]) = [].
Proof. repeat split. Qed.

(* ===================================================================== *)
(** * Part III: further properties of the code                           *)
(* ===================================================================== *)

(** ** batch-processor.ts: the run as a whole *)

Section BatchRun.

Import Batch.

Variable env : Env.
Variable options : BatchOptions.

#[local] Abbreviation absOut' file :=
  (join env (cwd options) (outputPathOf env options file)).

Lemma startFile_pendingWrite (fs : FileSystem) (file : string) :
  pendingWrite env options (startFile env options fs file).
Proof.
  unfold startFile.
  repeat match goal with
         | |- context [match ?x with _ => _ end] => destruct x eqn:?
         end; cbn; auto.
Qed.

Lemma started_inputPath (fs fs0 : FileSystem) (file : string) :
  inputPath (fst (finishFile env fs (startFile env options fs0 file))) = file.
Proof.
  rewrite (finishFile_result env fs fs0). apply processFile_inputPath.
Qed.

Lemma finishFile_changes (fs : FileSystem) (s : Started) (p : string) :
  pendingWrite env options s ->
  (status (fst (finishFile env fs s)) = Success ->
   p <> join env (cwd options) (outputPath (fst (finishFile env fs s)))) ->
  snd (finishFile env fs s) !! p = fs !! p.
Proof.
  destruct s as [r | path text written]; [reflexivity|].
  intros (-> & Hs & _) Hp. revert Hp. unfold finishFile, writeFile.
  destruct (writeFailure env _); [reflexivity|]. cbn [fst snd]. intros Hp.
  apply lookup_insert_ne. intros Heq. now apply (Hp Hs).
Qed.

Lemma finishFile_dry (fs : FileSystem) (s : Started) :
  pendingWrite env options s -> dryRun options = true -> snd (finishFile env fs s) = fs.
Proof.
  destruct s as [r | path text written]; [reflexivity|].
  intros (_ & _ & _ & Hd) Hdry. congruence.
Qed.

Lemma finish_fold_account (started : list Started) :
  Forall (pendingWrite env options) started ->
  forall (acc : list BatchFileResult) (fs : FileSystem),
    let run :=
      fold_left
        (fun acc s =>
           let '(result, fs') := finishFile env (snd acc) s in
           (fst acc ++ [result], fs'))
        started (acc, fs) in
    fst run = acc ++ map (fun s => fst (finishFile env fs s)) started
    /\ (dryRun options = true -> snd run = fs)
    /\ forall p,
         (forall r, r ∈ map (fun s => fst (finishFile env fs s)) started ->
                    status r = Success ->
                    p <> join env (cwd options) (outputPath r)) ->
         snd run !! p = fs !! p.
Proof.
  induction 1 as [|s started Hs Hall IH]; intros acc fs; cbn zeta.
  - cbn. rewrite app_nil_r. auto.
  - cbn [fold_left map fst snd].
    destruct (finishFile env fs s) as [r fs1] eqn:Hfin.
    destruct (IH (acc ++ [r]) fs1) as (Hres & Hdry & Hlook).
    assert (Hmap : map (fun s => fst (finishFile env fs1 s)) started
                   = map (fun s => fst (finishFile env fs s)) started).
    { apply map_ext. intros s'. apply finishFile_result. }
    rewrite Hmap in Hres, Hlook. repeat split.
    + rewrite Hres, <- app_assoc. reflexivity.
    + intros Hd. rewrite (Hdry Hd). change fs1 with (snd (r, fs1)).
      rewrite <- Hfin. now apply finishFile_dry.
    + intros p Hp. rewrite Hlook.
      * change fs1 with (snd (r, fs1)). rewrite <- Hfin.
        apply finishFile_changes; [exact Hs|]. rewrite Hfin. cbn [fst].
        apply Hp. constructor.
      * intros r' Hr'. apply Hp. now constructor.
Qed.

(** The results of a run list one result per file, in the order of the
    files, whatever the files write; a path changes only where a result
    with status [success] has its output. *)
Lemma processChunks_account (chunks : list (list string)) :
  forall (acc : list BatchFileResult) (fs : FileSystem),
    let run := fold_left (processChunk env options) chunks (acc, fs) in
    exists added,
      fst run = acc ++ added
      /\ map inputPath added = concat chunks
      /\ (dryRun options = true -> snd run = fs)
      /\ forall p,
           (forall r, r ∈ added -> status r = Success ->
                      p <> join env (cwd options) (outputPath r)) ->
           snd run !! p = fs !! p.
Proof.
  induction chunks as [|c cs IH]; intros acc fs; cbn zeta.
  - exists []. cbn. rewrite app_nil_r. auto.
  - cbn [fold_left concat].
    assert (Hall : Forall (pendingWrite env options) (map (startFile env options fs) c)).
    { apply Forall_forall. intros s Hs. apply list_elem_of_fmap in Hs as (f & -> & _).
      apply startFile_pendingWrite. }
    pose proof (finish_fold_account _ Hall acc fs) as Hchunk. cbn zeta in Hchunk.
    change (fold_left _ (map (startFile env options fs) c) (acc, fs))
      with (processChunk env options (acc, fs) c) in Hchunk.
    destruct Hchunk as (Hres1 & Hdry1 & Hlook1).
    destruct (processChunk env options (acc, fs) c) as [acc1 fs1].
    cbn [fst snd] in *. subst acc1.
    set (added1 := map (fun s => fst (finishFile env fs s))
                     (map (startFile env options fs) c)) in *.
    destruct (IH (acc ++ added1) fs1) as (added2 & Hres2 & Hpaths2 & Hdry2 & Hlook2).
    exists (added1 ++ added2). repeat split.
    + rewrite Hres2, app_assoc. reflexivity.
    + rewrite map_app, Hpaths2. f_equal. unfold added1. rewrite !map_map.
      rewrite <- (map_id c) at 2. apply map_ext. intros f. apply started_inputPath.
    + intros Hd. rewrite (Hdry2 Hd). auto.
    + intros p Hp. rewrite Hlook2, Hlook1; [reflexivity | |].
      * intros r Hr. apply Hp. apply elem_of_app. now left.
      * intros r Hr. apply Hp. apply elem_of_app. now right.
Qed.

End BatchRun.

Section BatchTotals.

Import Batch.

Lemma countStatus_partition (results : list BatchFileResult) :
  countStatus Success results + countStatus Error results
  + countStatus Skipped results + countStatus Unchanged results
  = Z.of_nat (length results).
Proof.
  unfold countStatus. induction results as [|r results IH]; [reflexivity|].
  cbn [List.filter length]. destruct (status r); cbn [Status_eqb length]; lia.
Qed.

Lemma chunkArrayFrom_shape {A : Type} (size : nat) (array : list A) :
  (1 <= size)%nat ->
  forall fuel chunks,
    chunkArrayFrom fuel size array = Some chunks ->
    Forall (fun chunk => (1 <= length chunk <= size)%nat) chunks
    /\ forall i chunk,
         chunks !! i = Some chunk -> (S i < length chunks)%nat ->
         length chunk = size.
Proof.
  intros Hsize fuel. revert array.
  induction fuel as [|fuel IH]; intros array chunks.
  - destruct array; [|discriminate]. intros [= <-]. split; [constructor|].
    intros i chunk Hi. discriminate.
  - destruct array as [|x array]; cbn [chunkArrayFrom].
    { intros [= <-]. split; [constructor|]. intros i chunk Hi. discriminate. }
    destruct (chunkArrayFrom fuel size (drop size (x :: array))) as [rest|] eqn:Hrest;
      [|discriminate].
    intros [= <-]. destruct (IH _ _ Hrest) as [Hall Hfull]. split.
    + constructor; [|exact Hall]. rewrite length_take. cbn [length]. lia.
    + intros [|i] chunk Hi Hlen.
      * injection Hi as <-. rewrite length_take.
        destruct rest as [|c rest]; [cbn in Hlen; lia|].
        destruct (drop size (x :: array)) as [|y l] eqn:Hdrop.
        { destruct fuel; discriminate. }
        assert (Hd : (1 <= length (drop size (x :: array)))%nat)
          by (rewrite Hdrop; cbn; lia).
        rewrite length_drop in Hd. lia.
      * cbn in Hi, Hlen. apply (Hfull i chunk Hi). lia.
Qed.

End BatchTotals.

(** X1.  [chunkArray] with a size of at least one returns: it cuts the
    array into consecutive chunks that put together give the array back,
    none of them empty or longer than the size, and all but the last one
    of exactly the size. *)
Theorem chunkArray_cuts_in_order {A : Type} (array : list A) (size : Z) :
  1 <= size ->
  exists chunks,
    Batch.chunkArray array size = Some chunks
    /\ concat chunks = array
    /\ Forall (fun chunk => (1 <= length chunk)%nat /\ Z.of_nat (length chunk) <= size)
         chunks
    /\ forall i chunk,
         chunks !! i = Some chunk -> (S i < length chunks)%nat ->
         Z.of_nat (length chunk) = size.
Proof.
  intros Hsize. unfold Batch.chunkArray.
  destruct (chunkArrayFrom_some (Z.to_nat size) array) with (fuel := length array)
    as (chunks & Hchunks & Hconcat); [lia | lia |].
  destruct (chunkArrayFrom_shape (Z.to_nat size) array ltac:(lia) _ _ Hchunks)
    as [Hall Hfull].
  exists chunks. repeat split; try assumption.
  - eapply Forall_impl; [exact Hall|]. cbn. intros chunk Hc. lia.
  - intros i chunk Hi Hlen. rewrite (Hfull i chunk Hi Hlen). lia.
Qed.

Lemma chunkArray_cuts_in_order_witness :
  Batch.chunkArray [1; 2; 3; 4; 5] 2 = Some [[1; 2]; [3; 4]; [5]].
Proof.
  destruct (chunkArray_cuts_in_order [1; 2; 3; 4; 5] 2) as (chunks & H & _); [lia|].
  rewrite H. vm_compute in H. symmetry. exact H.
Defined.

(** X2.  With a concurrency of at least one the batch returns, with one
    result per matched file, in the order of the files and under the
    file's path; the total of the summary is the number of files and the
    four tallies add up to it. *)
Theorem batchProcess_accounts_for_every_file (env : Batch.Env)
    (options : Batch.BatchOptions) (fs : Batch.FileSystem) (paths : list string) :
  1 <= Batch.concurrency options ->
  exists result fs',
    Batch.batchProcess env options fs paths = Some (result, fs')
    /\ map Batch.inputPath (Batch.files result) = paths
    /\ Batch.total (Batch.summary result) = Z.of_nat (length paths)
    /\ Batch.success (Batch.summary result) + Batch.errors (Batch.summary result)
       + Batch.skipped (Batch.summary result) + Batch.unchanged (Batch.summary result)
       = Batch.total (Batch.summary result).
Proof.
  intros Hc. unfold Batch.batchProcess.
  destruct paths as [|f l]; [exists (Batch.mkBatchResult [] (Batch.mkSummary 0 0 0 0 0)), fs; now cbn|].
  unfold Batch.chunkArray.
  destruct (chunkArrayFrom_some (Z.to_nat (Batch.concurrency options)) (f :: l))
    with (fuel := length (f :: l)) as (chunks & -> & Hconcat); [lia | lia |].
  destruct (processChunks_account env options chunks [] fs)
    as (added & Hres & Hpaths & _).
  destruct (fold_left (Batch.processChunk env options) chunks ([], fs))
    as [results fs'].
  cbn [fst snd app] in *. subst results. rewrite Hconcat in Hpaths.
  eexists _, fs'. split; [reflexivity|]. cbn [Batch.files Batch.summary].
  split; [exact Hpaths|]. unfold Batch.summarize.
  cbn [Batch.total Batch.success Batch.errors Batch.skipped Batch.unchanged].
  split; [|apply countStatus_partition].
  rewrite <- Hpaths. now rewrite length_map.
Qed.

Lemma batchProcess_accounts_for_every_file_witness :
  exists result fs',
    Batch.batchProcess Examples.batchEnv Examples.batchOptions Examples.disk
      Examples.batchFiles = Some (result, fs')
    /\ map Batch.inputPath (Batch.files result) = ["a.tsx"; "b.tsx"; "c.tsx"]
    /\ Batch.total (Batch.summary result) = 3.
Proof.
  destruct (batchProcess_accounts_for_every_file Examples.batchEnv
              Examples.batchOptions Examples.disk Examples.batchFiles)
    as (result & fs' & H & Hpaths & Htotal & _).
  - vm_compute. discriminate.
  - exists result, fs'. auto.
Defined.

(** X3.  A dry run writes nothing: with a concurrency of at least one
    the batch returns and the file system is afterwards what it was. *)
Theorem batchProcess_dry_run_writes_nothing (env : Batch.Env)
    (options : Batch.BatchOptions) (fs : Batch.FileSystem) (paths : list string) :
  1 <= Batch.concurrency options ->
  Batch.dryRun options = true ->
  exists result, Batch.batchProcess env options fs paths = Some (result, fs).
Proof.
  intros Hc Hdry. unfold Batch.batchProcess.
  destruct paths as [|f l]; [eexists; reflexivity|].
  unfold Batch.chunkArray.
  destruct (chunkArrayFrom_some (Z.to_nat (Batch.concurrency options)) (f :: l))
    with (fuel := length (f :: l)) as (chunks & -> & Hconcat); [lia | lia |].
  destruct (processChunks_account env options chunks [] fs)
    as (added & _ & _ & Hfs & _).
  destruct (fold_left (Batch.processChunk env options) chunks ([], fs))
    as [results fs'].
  cbn [snd] in Hfs. rewrite (Hfs Hdry). eexists. reflexivity.
Qed.

Lemma batchProcess_dry_run_writes_nothing_witness :
  exists result,
    Batch.batchProcess Examples.batchEnv Examples.dryRunOptions Examples.disk
      Examples.batchFiles = Some (result, Examples.disk).
Proof.
  apply batchProcess_dry_run_writes_nothing; [vm_compute; discriminate | reflexivity].
Defined.

(** X4.  The batch writes only converted output: with a concurrency of
    at least one it returns, and every path of the file system that is not
    the absolute output path of a result with status [success] holds
    afterwards what it held before. *)
Theorem batchProcess_writes_only_converted_outputs (env : Batch.Env)
    (options : Batch.BatchOptions) (fs : Batch.FileSystem) (paths : list string) :
  1 <= Batch.concurrency options ->
  exists result fs',
    Batch.batchProcess env options fs paths = Some (result, fs')
    /\ forall p,
         (forall r, r ∈ Batch.files result -> Batch.status r = Batch.Success ->
                    p <> Batch.join env (Batch.cwd options) (Batch.outputPath r)) ->
         fs' !! p = fs !! p.
Proof.
  intros Hc. unfold Batch.batchProcess.
  destruct paths as [|f l]; [eexists _, fs; split; [reflexivity | auto]|].
  unfold Batch.chunkArray.
  destruct (chunkArrayFrom_some (Z.to_nat (Batch.concurrency options)) (f :: l))
    with (fuel := length (f :: l)) as (chunks & -> & Hconcat); [lia | lia |].
  destruct (processChunks_account env options chunks [] fs)
    as (added & Hres & _ & _ & Hlook).
  destruct (fold_left (Batch.processChunk env options) chunks ([], fs))
    as [results fs'].
  cbn [fst snd app] in *. subst results.
  eexists _, fs'. split; [reflexivity|]. exact Hlook.
Qed.

Lemma batchProcess_writes_only_converted_outputs_witness :
  exists result fs',
    Batch.batchProcess Examples.batchEnv Examples.batchOptions Examples.disk
      Examples.batchFiles = Some (result, fs')
    /\ fs' !! "/proj/b.tsx" = None.
Proof.
  destruct (batchProcess_writes_only_converted_outputs Examples.batchEnv
              Examples.batchOptions Examples.disk Examples.batchFiles)
    as (result & fs' & H & Hlook).
  - vm_compute. discriminate.
  - exists result, fs'. split; [exact H|]. rewrite Hlook; [reflexivity|].
    vm_compute in H. injection H as <- _. intros r Hr Hs.
    repeat (apply elem_of_cons in Hr as [-> | Hr]);
      try (vm_compute; discriminate); try discriminate Hs.
    inversion Hr.
Defined.

(** X5.  What [processFile] does, by the status of its result.  A file is
    written only with status [success] outside a dry run, and then the
    converted text, which differs from the original, is stored at the
    output path; with status [unchanged] the conversion gave the text read;
    a file is [skipped] only when it could be read and its extension is in
    neither list; an [error] carries its message.  In every case the result
    names the file and its output path. *)
Theorem processFile_outcomes (env : Batch.Env) (options : Batch.BatchOptions)
    (fs : Batch.FileSystem) (file : string) :
  let r := fst (Batch.processFile env options fs file) in
  let fs' := snd (Batch.processFile env options fs file) in
  let absolutePath := Batch.join env (Batch.cwd options) file in
  let ext := Js.stringToLowerCase (Batch.extname env file) in
  Batch.inputPath r = file
  /\ Batch.outputPath r = Batch.outputPathOf env options file
  /\ match Batch.status r with
     | Batch.Success =>
         exists content text,
           fs !! absolutePath = Some content
           /\ Batch.original r = Some content
           /\ Batch.converted r = Some text
           /\ text <> content
           /\ fs' = if Batch.dryRun options then fs
                    else <[Batch.join env (Batch.cwd options)
                             (Batch.outputPathOf env options file) := text]> fs
     | Batch.Unchanged =>
         exists content,
           fs !! absolutePath = Some content
           /\ Batch.original r = Some content
           /\ Batch.converted r = Some content
           /\ fs' = fs
     | Batch.Skipped =>
         is_Some (fs !! absolutePath)
         /\ Js.listIncludes ext (Batch.htmlExtensions options) = false
         /\ Js.listIncludes ext (Batch.tsExtensions options) = false
         /\ fs' = fs
     | Batch.Error => is_Some (Batch.error r) /\ fs' = fs
     end.
Proof.
  cbn zeta. unfold Batch.processFile, Batch.startFile, Batch.readFileSync.
  destruct (fs !! Batch.join env (Batch.cwd options) file) as [content|];
    [|cbn; eauto].
  destruct (Js.listIncludes _ (Batch.htmlExtensions options)) eqn:Hhtml;
    [destruct (Batch.rewriteHtmlToPanda env content _ _) as [message | [output unconverted]]
    |destruct (Js.listIncludes _ (Batch.tsExtensions options)) eqn:Hts;
     [destruct (Batch.rewriteTwFileContentToPanda env content _ _) as [message | output]|]];
    try (cbn; repeat split; eauto; fail).
  all: cbn.
  all: match goal with
       | |- context [String.eqb ?a ?b] => destruct (String.eqb_spec a b) as [Heq | Hne]
       end;
    [cbn; rewrite ?Heq; eauto 10|].
  all: destruct (Batch.dryRun options); [cbn; eauto 10|].
  all: cbn [Batch.finishFile]; unfold Batch.writeFile;
    destruct (Batch.writeFailure env _); cbn; eauto 10.
Qed.

(** ** batch-processor.ts: the diff *)

Section Diff.

Import Batch.

Lemma split_nonempty (sep : ascii) (s : string) : Js.split sep s <> [].
Proof.
  destruct s as [|c r]; cbn [Js.split]; [discriminate|].
  destruct (Ascii.eqb c sep); [discriminate|]. now destruct (Js.split sep r).
Qed.

(** Joining the pieces of a split with the separator gives the text back. *)
Lemma join_split (sep : ascii) (s : string) :
  Js.join (String sep EmptyString) (Js.split sep s) = s.
Proof.
  induction s as [|c r IH]; [reflexivity|]. cbn [Js.split].
  destruct (Ascii.eqb_spec c sep) as [-> | Hne].
  - pose proof (split_nonempty sep r) as Hr.
    destruct (Js.split sep r) as [|h t]; [congruence|].
    change (Js.join (String sep EmptyString) (EmptyString :: h :: t))
      with (String sep (Js.join (String sep EmptyString) (h :: t))).
    now rewrite IH.
  - pose proof (split_nonempty sep r) as Hr.
    destruct (Js.split sep r) as [|h t]; [congruence|].
    destruct t as [|h' t]; cbn [Js.join] in *; now rewrite <- IH.
Qed.

Lemma string_app_inv_head (s a b : string) : s +:+ a = s +:+ b -> a = b.
Proof.
  induction s as [|c s IH]; [auto|].
  change (String c (s +:+ a) = String c (s +:+ b) -> a = b). intros [= H]. auto.
Qed.

(** The first index at which two lists differ. *)
Lemma first_difference (l1 l2 : list string) :
  l1 <> l2 ->
  exists i,
    (i < Nat.max (length l1) (length l2))%nat
    /\ l1 !! i <> l2 !! i
    /\ forall j, (j < i)%nat -> l1 !! j = l2 !! j.
Proof.
  revert l2. induction l1 as [|x l1 IH]; intros [|y l2] Hne.
  - congruence.
  - exists 0%nat. cbn. repeat split; [lia | discriminate | lia].
  - exists 0%nat. cbn. repeat split; [lia | discriminate | lia].
  - destruct (decide (x = y)) as [-> | Hxy].
    + destruct (IH l2) as (i & Hi & Hdiff & Hsame); [congruence|].
      exists (S i). cbn. repeat split; [lia | exact Hdiff |].
      intros [|j] Hj; [reflexivity|]. cbn. apply Hsame. lia.
    + exists 0%nat. cbn. repeat split; [lia | congruence | lia].
Qed.

Variable originalLines convertedLines : list string.

Lemma diffStep_same (st : DiffState) (i : nat) :
  inHunk st = false -> originalLines !! i = convertedLines !! i ->
  diffStep originalLines convertedLines st i = st.
Proof.
  intros Hin Heq. unfold diffStep. rewrite bool_decide_eq_true_2 by exact Heq.
  cbn [negb]. now rewrite Hin.
Qed.

Lemma diff_fold_same (l : list nat) (st : DiffState) :
  inHunk st = false ->
  (forall i, i ∈ l -> originalLines !! i = convertedLines !! i) ->
  fold_left (diffStep originalLines convertedLines) l st = st.
Proof.
  intros Hin. induction l as [|i l IH]; intros Hsame; [reflexivity|].
  cbn [fold_left]. rewrite diffStep_same; [|exact Hin|apply Hsame; constructor].
  apply IH. intros j Hj. apply Hsame. now constructor.
Qed.

Lemma diffStep_opens (st : DiffState) (i : nat) :
  inHunk st = false -> originalLines !! i <> convertedLines !! i ->
  firstHunkAt (lines st) (i + 1) (diffStep originalLines convertedLines st i).
Proof.
  intros Hin Hne. left. unfold diffStep.
  rewrite bool_decide_eq_false_2 by exact Hne. cbn [negb]. rewrite Hin.
  cbn [inHunk hunkStart hunkLines lines]. repeat split.
  destruct (originalLines !! i) as [o|], (convertedLines !! i) as [c|];
    try congruence; intros H; apply app_eq_nil in H as [_ H]; discriminate H.
Qed.

Lemma diffStep_keeps (header : list string) (start : nat) (st : DiffState) (j : nat) :
  firstHunkAt header start st ->
  firstHunkAt header start (diffStep originalLines convertedLines st j).
Proof.
  intros Hinv. unfold diffStep.
  destruct (negb (bool_decide (originalLines !! j = convertedLines !! j))).
  - destruct Hinv as [(Hin & Hstart & Hlines & Hhead) | (rest & Hrest)].
    + left. rewrite Hin. cbn [inHunk hunkStart hunkLines lines]. repeat split; auto.
      destruct (originalLines !! j) as [o|], (convertedLines !! j) as [c|];
        try assumption; intros H; apply app_eq_nil in H as [_ H]; discriminate H.
    + right. exists rest. now destruct (inHunk st).
  - destruct (inHunk st) eqn:Hin; [|exact Hinv]. right.
    unfold flushHunk. cbn [inHunk hunkStart hunkLines lines].
    destruct Hinv as [(_ & Hstart & Hlines & Hhead) | (rest & Hrest)].
    + rewrite Hhead, Hstart. eauto.
    + rewrite Hrest. eexists. rewrite <- !app_assoc. reflexivity.
Qed.

Lemma diff_fold_keeps (header : list string) (start : nat) (l : list nat) :
  forall st,
    firstHunkAt header start st ->
    firstHunkAt header start (fold_left (diffStep originalLines convertedLines) l st).
Proof.
  induction l as [|j l IH]; intros st Hinv; [exact Hinv|].
  cbn [fold_left]. apply IH. now apply diffStep_keeps.
Qed.

End Diff.

(** The lines of a diff: the two header lines alone for equal texts, and
    otherwise the header of a hunk at the first differing line after them. *)
Lemma diffLines_cases (original converted filePath : string) :
  let header := ["--- " +:+ filePath; "+++ " +:+ filePath] in
  let originalLines := Js.split "010" original in
  let convertedLines := Js.split "010" converted in
  (original = converted /\ Batch.diffLines original converted filePath = header)
  \/ (original <> converted
      /\ exists i rest,
           originalLines !! i <> convertedLines !! i
           /\ (forall j, (j < i)%nat -> originalLines !! j = convertedLines !! j)
           /\ Batch.diffLines original converted filePath
              = header ++ [Batch.hunkHeader (i + 1)] ++ rest).
Proof.
  cbn zeta. destruct (decide (original = converted)) as [<- | Hne].
  - left. split; [reflexivity|]. unfold Batch.diffLines.
    now rewrite diff_fold_same.
  - right. split; [exact Hne|].
    destruct (first_difference (Js.split "010" original) (Js.split "010" converted))
      as (i & Hi & Hdiff & Hsame).
    { intros Heq. apply Hne.
      rewrite <- (join_split "010" original), <- (join_split "010" converted).
      now rewrite Heq. }
    exists i. unfold Batch.diffLines.
    set (l1 := Js.split "010" original) in *.
    set (l2 := Js.split "010" converted) in *.
    set (st0 := Batch.mkDiffState false 0 [] _).
    replace (Nat.max (length l1) (length l2))
      with (i + S (Nat.max (length l1) (length l2) - S i))%nat by lia.
    rewrite seq_app, fold_left_app. cbn [seq fold_left Nat.add].
    rewrite (diff_fold_same l1 l2 (seq 0 i) st0);
      [|reflexivity|intros j Hj; apply Hsame; apply list_elem_of_In, in_seq in Hj; lia].
    pose proof (diffStep_opens l1 l2 st0 i eq_refl Hdiff) as Hopen.
    apply (diff_fold_keeps l1 l2 _ _ (seq (S i) (Nat.max (length l1) (length l2) - S i)))
      in Hopen.
    destruct Hopen as [(_ & Hstart & Hlines & Hhead) | (rest & Hrest)].
    + destruct (Batch.hunkLines _) as [|h t] eqn:Hh; [congruence|]. cbn [length Nat.ltb Nat.leb].
      unfold Batch.flushHunk. rewrite Hh, Hhead, Hstart. eauto.
    + destruct (0 <? length (Batch.hunkLines _))%nat.
      * unfold Batch.flushHunk. rewrite Hrest. eexists. split; [exact Hdiff|].
        split; [exact Hsame|]. rewrite <- !app_assoc. reflexivity.
      * rewrite Hrest. eauto.
Qed.

(** X6.  [generateDiff] gives the two header lines alone exactly when the
    two texts are equal; for different texts the third line is the header
    of a hunk that carries the number (counted from one) of the first line
    at which the texts differ. *)
Theorem generateDiff_reports_first_difference (original converted filePath : string) :
  let header := ["--- " +:+ filePath; "+++ " +:+ filePath] in
  (Batch.generateDiff original converted filePath = Js.join Batch.newline header
   <-> original = converted)
  /\ (original <> converted ->
      exists i rest,
        Js.split "010" original !! i <> Js.split "010" converted !! i
        /\ (forall j, (j < i)%nat ->
                      Js.split "010" original !! j = Js.split "010" converted !! j)
        /\ Batch.generateDiff original converted filePath
           = Js.join Batch.newline
               (header ++ [Batch.hunkHeader (i + 1)] ++ rest)).
Proof.
  cbn zeta. unfold Batch.generateDiff.
  destruct (diffLines_cases original converted filePath)
    as [[Heq Hlines] | (Hne & i & rest & Hdiff & Hsame & Hlines)]; rewrite Hlines.
  - split; [tauto | congruence].
  - split; [|eauto]. split; [|congruence]. intros Hjoin. exfalso.
    cbn [app Js.join] in Hjoin. apply string_app_inv_head in Hjoin.
    apply string_app_inv_head in Hjoin.
    assert (Hlen : String.length
                     (("+++ " +:+ filePath) +:+ Batch.newline
                      +:+ Js.join Batch.newline (Batch.hunkHeader (i + 1) :: rest))
                   = String.length ("+++ " +:+ filePath)).
    { destruct rest; cbn [Js.join] in Hjoin |- *; now rewrite Hjoin. }
    rewrite !string_length_app in Hlen. cbn [Batch.newline String.length] in Hlen. lia.
Qed.

(** ** analyze-project.ts: pattern ids *)

Section PatternIds.

(** The order of [array.sort()] on strings. *)
Lemma string_leb_trans (a b c : string) :
  String.leb a b = true -> String.leb b c = true -> String.leb a c = true.
Proof.
  unfold String.leb. revert b c.
  induction a as [|x a IH]; intros [|y b] [|z c]; cbn [String.compare];
    try congruence.
  specialize (IH b c). unfold Ascii.compare.
  destruct (N.compare_spec (N_of_ascii x) (N_of_ascii y)) as [Hxy | Hxy | Hxy];
    destruct (N.compare_spec (N_of_ascii y) (N_of_ascii z)) as [Hyz | Hyz | Hyz];
    destruct (N.compare_spec (N_of_ascii x) (N_of_ascii z)) as [Hxz | Hxz | Hxz];
    try congruence; try lia; exact IH.
Qed.

Lemma string_ltb_leb (a b : string) : String.ltb a b = true -> String.leb a b = true.
Proof. unfold String.ltb, String.leb. now destruct (String.compare a b). Qed.

Lemma string_ltb_false_leb (a b : string) :
  String.ltb a b = false -> String.leb b a = true.
Proof.
  unfold String.ltb, String.leb. rewrite (String.compare_antisym b a).
  now destruct (String.compare a b).
Qed.

#[local] Instance string_leb_antisym :
  AntiSymm (=) (fun a b => String.leb a b = true).
Proof. intros a b. apply String.leb_antisym. Qed.

Lemma sortInsert_perm (x : string) (l : list string) :
  Js.sortInsert x l ≡ₚ x :: l.
Proof.
  induction l as [|y l IH]; [reflexivity|]. cbn [Js.sortInsert].
  destruct (String.ltb x y); [reflexivity|]. rewrite IH. apply Permutation_swap.
Qed.

Lemma sort_perm (l : list string) : Js.sort l ≡ₚ l.
Proof.
  induction l as [|x l IH]; [reflexivity|].
  cbn [Js.sort foldr]. fold (Js.sort l). now rewrite sortInsert_perm, IH.
Qed.

Lemma sortInsert_sorted (x : string) (l : list string) :
  StronglySorted (fun a b => String.leb a b = true) l ->
  StronglySorted (fun a b => String.leb a b = true) (Js.sortInsert x l).
Proof.
  induction 1 as [|y l Hl IH Hy]; cbn [Js.sortInsert].
  - repeat constructor.
  - destruct (String.ltb x y) eqn:Hxy.
    + constructor; [now constructor|]. constructor; [now apply string_ltb_leb|].
      eapply Forall_impl; [exact Hy|]. cbn. intros z Hz.
      eapply string_leb_trans; [apply string_ltb_leb, Hxy | exact Hz].
    + constructor; [exact IH|]. rewrite sortInsert_perm.
      constructor; [now apply string_ltb_false_leb | exact Hy].
Qed.

Lemma sort_sorted (l : list string) :
  StronglySorted (fun a b => String.leb a b = true) (Js.sort l).
Proof.
  induction l as [|x l IH]; [constructor|].
  cbn [Js.sort foldr]. now apply sortInsert_sorted.
Qed.

(** X7.  The pattern id does not depend on the order of the classes: two
    class lists that are rearrangements of each other have the same id. *)
Theorem generatePatternId_order_insensitive (classes1 classes2 : list string) :
  classes1 ≡ₚ classes2 ->
  Analyze.generatePatternId classes1 = Analyze.generatePatternId classes2.
Proof.
  intros Hperm. unfold Analyze.generatePatternId. f_equal.
  apply (StronglySorted_unique (fun a b => String.leb a b = true));
    [apply sort_sorted | apply sort_sorted |].
  now rewrite !sort_perm.
Qed.

Lemma generatePatternId_order_insensitive_witness :
  Analyze.generatePatternId ["p-4"; "flex"; "bg-red-500"]
  = Analyze.generatePatternId ["flex"; "bg-red-500"; "p-4"].
Proof.
  apply generatePatternId_order_insensitive.
  apply (Permutation_cons_append ["flex"; "bg-red-500"] "p-4").
Defined.

End PatternIds.

(** ** Sets as the code builds them ([new Set(list)]) *)

Section SetFacts.

Lemma listIncludes_elem (x : string) (l : list string) :
  Js.listIncludes x l = true <-> x ∈ l.
Proof.
  unfold Js.listIncludes. rewrite existsb_exists. setoid_rewrite String.eqb_eq.
  setoid_rewrite <- list_elem_of_In. split; [intros (y & Hy & ->); exact Hy | eauto].
Qed.

Lemma listIncludes_not_elem (x : string) (l : list string) :
  Js.listIncludes x l = false <-> x ∉ l.
Proof.
  rewrite <- listIncludes_elem. now destruct (Js.listIncludes x l).
Qed.

Lemma dedupe_spec (l : list string) :
  forall seen,
    NoDup (Js.dedupe seen l)
    /\ forall x, x ∈ Js.dedupe seen l <-> x ∈ l /\ x ∉ seen.
Proof.
  induction l as [|y l IH]; intros seen; cbn [Js.dedupe].
  - split; [constructor|]. intros x. split; [inversion 1 | intros [H _]; inversion H].
  - destruct (Js.listIncludes y seen) eqn:Hy.
    + apply listIncludes_elem in Hy. destruct (IH seen) as [Hnd Hel].
      split; [exact Hnd|]. intros x. rewrite Hel, elem_of_cons.
      split; [tauto|]. intros [[-> | Hx] Hs]; tauto.
    + apply listIncludes_not_elem in Hy. destruct (IH (y :: seen)) as [Hnd Hel].
      split.
      * constructor; [|exact Hnd]. rewrite Hel, elem_of_cons. tauto.
      * intros x. rewrite !elem_of_cons, Hel, elem_of_cons.
        destruct (decide (x = y)) as [-> | Hxy]; tauto.
Qed.

Lemma NoDup_uniq (l : list string) : NoDup (Js.uniq l).
Proof. apply dedupe_spec. Qed.

Lemma elem_of_uniq (x : string) (l : list string) : x ∈ Js.uniq l <-> x ∈ l.
Proof.
  unfold Js.uniq. destruct (dedupe_spec l []) as [_ H]. rewrite H.
  split; [tauto|]. intros Hx. split; [exact Hx | inversion 1].
Qed.

(** The size of [new Set(l)]. *)
Lemma length_uniq (l : list string) :
  length (Js.uniq l) = size (list_to_set l : gset string).
Proof.
  rewrite <- (size_list_to_set (C := gset string) (Js.uniq l)) by apply NoDup_uniq.
  f_equal. apply set_eq. intros x. now rewrite !elem_of_list_to_set, elem_of_uniq.
Qed.

Lemma NoDup_filter_bool (f : string -> bool) (l : list string) :
  NoDup l -> NoDup (List.filter f l).
Proof.
  induction 1 as [|x l Hx Hl IH]; cbn [List.filter]; [constructor|].
  destruct (f x); [|exact IH]. constructor; [|exact IH].
  intros Hin. apply Hx. apply list_elem_of_In, filter_In in Hin as [Hin _].
  now apply list_elem_of_In.
Qed.

End SetFacts.

(** ** analyze-project.ts: the similarity of class sets *)

Section Similarity.

Lemma intersectionSize_size (a b : list string) :
  Analyze.intersectionSize a b
  = size ((list_to_set a : gset string) ∩ list_to_set b).
Proof.
  unfold Analyze.intersectionSize.
  rewrite <- (size_list_to_set (C := gset string))
    by apply NoDup_filter_bool, NoDup_uniq.
  f_equal. apply set_eq. intros x.
  rewrite elem_of_intersection, !elem_of_list_to_set, list_elem_of_In, filter_In.
  rewrite <- list_elem_of_In, listIncludes_elem, !elem_of_uniq. reflexivity.
Qed.

Lemma unionSize_size (a b : list string) :
  Analyze.unionSize a b = size ((list_to_set a : gset string) ∪ list_to_set b).
Proof.
  unfold Analyze.unionSize. rewrite length_uniq. f_equal. apply set_eq. intros x.
  rewrite elem_of_union, !elem_of_list_to_set, elem_of_app, !elem_of_uniq.
  reflexivity.
Qed.

Lemma calculateSimilarity_sizes (a b : list string) :
  Analyze.calculateSimilarity a b
  = if (0 <? Analyze.unionSize a b)%nat
    then (inject_Z (Z.of_nat (Analyze.intersectionSize a b))
          / inject_Z (Z.of_nat (Analyze.unionSize a b)))%Q
    else 0%Q.
Proof. reflexivity. Qed.

Lemma Qdiv_nat_bounds (i u : nat) :
  (i <= u)%nat -> (0 < u)%nat ->
  (0 <= inject_Z (Z.of_nat i) / inject_Z (Z.of_nat u)
   /\ inject_Z (Z.of_nat i) / inject_Z (Z.of_nat u) <= 1)%Q.
Proof.
  intros Hiu Hu.
  assert (Hpos : (0 < inject_Z (Z.of_nat u))%Q).
  { change 0%Q with (inject_Z 0). rewrite <- Zlt_Qlt. lia. }
  split.
  - apply Qle_shift_div_l; [exact Hpos|]. rewrite Qmult_0_l.
    change 0%Q with (inject_Z 0). rewrite <- Zle_Qle. lia.
  - apply Qle_shift_div_r; [exact Hpos|]. rewrite Qmult_1_l.
    rewrite <- Zle_Qle. lia.
Qed.

Lemma Qdiv_nat_one (i u : nat) :
  (0 < u)%nat ->
  (inject_Z (Z.of_nat i) / inject_Z (Z.of_nat u) == 1)%Q <-> i = u.
Proof.
  intros Hu.
  assert (Hne : ~ (inject_Z (Z.of_nat u) == 0)%Q).
  { change 0%Q with (inject_Z 0). rewrite inject_Z_injective. lia. }
  split.
  - intros H.
    assert (Hi : (inject_Z (Z.of_nat i) == inject_Z (Z.of_nat u))%Q).
    { rewrite <- (Qmult_div_r (inject_Z (Z.of_nat i)) (inject_Z (Z.of_nat u)) Hne).
      rewrite H. apply Qmult_1_r. }
    apply (proj1 (inject_Z_injective _ _)) in Hi. lia.
  - intros ->. unfold Qdiv. now apply Qmult_inv_r.
Qed.

End Similarity.

(** X8.  [calculateSimilarity] is the Jaccard index of the two class sets:
    the size of their intersection over the size of their union, and zero
    when both are empty.  Hence it does not depend on the order or the
    repetition of the classes, it is symmetric, it lies between zero and
    one, and it is one exactly for equal sets that are not empty. *)
Theorem calculateSimilarity_jaccard (a b : list string) :
  let A : gset string := list_to_set a in
  let B : gset string := list_to_set b in
  Analyze.calculateSimilarity a b
  = (if (0 <? size (A ∪ B))%nat
     then (inject_Z (Z.of_nat (size (A ∩ B))) / inject_Z (Z.of_nat (size (A ∪ B))))%Q
     else 0%Q)
  /\ Analyze.calculateSimilarity a b = Analyze.calculateSimilarity b a
  /\ (0 <= Analyze.calculateSimilarity a b)%Q
  /\ (Analyze.calculateSimilarity a b <= 1)%Q
  /\ ((Analyze.calculateSimilarity a b == 1)%Q <-> A = B /\ A <> ∅).
Proof.
  cbn zeta.
  assert (Hsets : forall a b,
             Analyze.calculateSimilarity a b
             = (if (0 <? size ((list_to_set a : gset string) ∪ list_to_set b))%nat
                then (inject_Z (Z.of_nat (size ((list_to_set a : gset string)
                                                ∩ list_to_set b)))
                      / inject_Z (Z.of_nat (size ((list_to_set a : gset string)
                                                  ∪ list_to_set b))))%Q
                else 0%Q)).
  { intros a' b'.
    now rewrite calculateSimilarity_sizes, intersectionSize_size, unionSize_size. }
  split; [apply Hsets|]. split.
  { rewrite (Hsets a b), (Hsets b a).
    now rewrite (comm_L (∪) (list_to_set b)), (comm_L (∩) (list_to_set b)). }
  rewrite (Hsets a b).
  set (A := list_to_set a : gset string). set (B := list_to_set b : gset string).
  assert (Hle : (size (A ∩ B) <= size (A ∪ B))%nat)
    by (apply subseteq_size; set_solver).
  destruct (0 <? size (A ∪ B))%nat eqn:Hu.
  - apply Nat.ltb_lt in Hu.
    destruct (Qdiv_nat_bounds _ _ Hle Hu) as [H0 H1].
    split; [exact H0|]. split; [exact H1|].
    rewrite (Qdiv_nat_one _ _ Hu). split.
    + intros Hsize.
      assert (Heq : A ∩ B = A ∪ B)
        by (apply set_subseteq_size_eq; [set_solver | lia]).
      split.
      * apply set_eq. intros x. set_solver.
      * intros HA. assert (HB : B ≡ ∅) by set_solver.
        assert (Hempty : A ∪ B ≡ ∅) by set_solver.
        rewrite Hempty, size_empty in Hu. lia.
    + intros [<- _]. f_equal; apply set_eq; set_solver.
  - apply Nat.ltb_ge in Hu. split; [apply Qle_refl|]. split; [discriminate|].
    split; [discriminate|]. intros [_ HA]. exfalso. apply HA.
    assert (Hempty : A ∪ B ≡ ∅) by (apply size_empty_iff; lia).
    apply set_eq. intros x. set_solver.
Qed.

(** ** analyze-project.ts: the ranking of the results *)

Section Ranking.

Context {A : Type} (count : A -> Z).

Lemma insertByCountDesc_sorted (x : A) (l : list A) :
  StronglySorted (fun a b => count b <= count a) l ->
  StronglySorted (fun a b => count b <= count a) (insertByCountDesc count x l).
Proof.
  induction 1 as [|y l Hl IH Hy]; cbn [insertByCountDesc].
  - repeat constructor.
  - destruct (count x <? count y) eqn:Hxy.
    + apply Z.ltb_lt in Hxy. constructor; [exact IH|].
      rewrite insertByCountDesc_perm. constructor; [lia | exact Hy].
    + apply Z.ltb_ge in Hxy. constructor; [now constructor|].
      constructor; [exact Hxy|]. eapply Forall_impl; [exact Hy|].
      cbn. intros z Hz. lia.
Qed.

Lemma sortByCountDesc_sorted (l : list A) :
  StronglySorted (fun a b => count b <= count a) (sortByCountDesc count l).
Proof.
  induction l as [|x l IH]; cbn [sortByCountDesc foldr]; [constructor|].
  now apply insertByCountDesc_sorted.
Qed.

(** The sort is stable: entries of equal count keep their order. *)
Lemma insertByCountDesc_stable (c : Z) (x : A) (l : list A) :
  List.filter (fun a => count a =? c) (insertByCountDesc count x l)
  = List.filter (fun a => count a =? c) (x :: l).
Proof.
  induction l as [|y l IH]; cbn [insertByCountDesc]; [reflexivity|].
  destruct (count x <? count y) eqn:Hxy; [|reflexivity].
  apply Z.ltb_lt in Hxy. cbn [List.filter] in *. rewrite IH.
  destruct (count x =? c) eqn:Hx, (count y =? c) eqn:Hy; try reflexivity.
  apply Z.eqb_eq in Hx, Hy. lia.
Qed.

Lemma sortByCountDesc_stable (c : Z) (l : list A) :
  List.filter (fun a => count a =? c) (sortByCountDesc count l)
  = List.filter (fun a => count a =? c) l.
Proof.
  induction l as [|x l IH]; cbn [sortByCountDesc foldr]; [reflexivity|].
  rewrite insertByCountDesc_stable. cbn [List.filter]. fold (sortByCountDesc count l).
  now rewrite IH.
Qed.

Lemma NoDup_map_filter {K : Type} (key : A -> K) (f : A -> bool) (l : list A) :
  NoDup (map key l) -> NoDup (map key (List.filter f l)).
Proof.
  induction l as [|x l IH]; cbn [map List.filter]; [auto|].
  intros Hnd. apply NoDup_cons in Hnd as [Hx Hnd].
  destruct (f x); [|auto]. cbn [map]. constructor; [|auto].
  intros Hin. apply Hx. apply list_elem_of_fmap in Hin as (y & -> & Hy).
  apply list_elem_of_fmap. exists y. split; [reflexivity|].
  apply list_elem_of_In, filter_In in Hy as [Hy _]. now apply list_elem_of_In.
Qed.

End Ranking.

(** X9.  The tokens and the patterns of a project analysis are listed by
    descending count, entries of equal count in the order in which the
    analysis first met them; no two listed patterns have the same id. *)
Theorem analyzeProject_ranks_by_count (env : Analyze.Env)
    (options : Analyze.AnalyzeOptions) (filePaths : list string) :
  let result := Analyze.analyzeProject env options filePaths in
  let st := Analyze.analyzeFiles env options filePaths in
  StronglySorted (fun t u => TokenUsage.count u <= TokenUsage.count t)
    (ProjectAnalysis.tokens result)
  /\ StronglySorted (fun p q => ExtractedPattern.count q <= ExtractedPattern.count p)
       (ProjectAnalysis.patterns result)
  /\ (forall c,
        List.filter (fun t => TokenUsage.count t =? c) (ProjectAnalysis.tokens result)
        = List.filter (fun t => TokenUsage.count t =? c)
            (JsMap.values (Analyze.allTokens st)))
  /\ (forall c,
        Analyze.minPatternCount options <= c ->
        List.filter (fun p => ExtractedPattern.count p =? c)
          (ProjectAnalysis.patterns result)
        = List.filter (fun p => ExtractedPattern.count p =? c)
            (JsMap.values (Analyze.classPatterns st)))
  /\ NoDup (map ExtractedPattern.id (ProjectAnalysis.patterns result)).
Proof.
  cbn zeta. cbn [Analyze.analyzeProject ProjectAnalysis.tokens ProjectAnalysis.patterns].
  split; [apply sortByCountDesc_sorted|]. split; [apply sortByCountDesc_sorted|].
  split; [intros c; apply sortByCountDesc_stable|]. split.
  - intros c Hc. unfold Analyze.detectedPatterns. rewrite sortByCountDesc_stable.
    induction (JsMap.values _) as [|p l IH]; [reflexivity|]. cbn [List.filter].
    destruct (Analyze.minPatternCount options <=? ExtractedPattern.count p) eqn:Hp;
      cbn [List.filter]; rewrite IH; [reflexivity|].
    destruct (ExtractedPattern.count p =? c) eqn:Hpc; [|reflexivity].
    apply Z.leb_gt in Hp. apply Z.eqb_eq in Hpc. lia.
  - unfold Analyze.detectedPatterns.
    rewrite (sortByCountDesc_perm ExtractedPattern.count).
    apply NoDup_map_filter.
    destruct (analyzeFiles_patternsTrack env options filePaths) as (Hnd & Hid & _).
    replace (map ExtractedPattern.id (JsMap.values _))
      with (map fst (Analyze.classPatterns (Analyze.analyzeFiles env options filePaths)));
      [exact Hnd|].
    unfold JsMap.values. rewrite map_map. apply map_ext_in.
    intros [k p] Hin. cbn [fst snd]. symmetry. apply Hid. now apply list_elem_of_In.
Qed.

(** ** analyze-project.ts: the summary *)

Section SummaryFacts.

Import Analyze.

Variable env : Env.
Variable options : AnalyzeOptions.

Lemma analyzeStep_fileAnalyses (st : State) (filePath : string) :
  fileAnalyses (analyzeStep env options st filePath)
  = fileAnalyses st ++ option_list (fileRecord env options filePath).
Proof.
  unfold analyzeStep, analyzeFile, fileRecord.
  destruct (extractClassesFromFile env filePath) as [[[classes converted] unconverted]|];
    [|now rewrite app_nil_r].
  destruct (fileStyles env options converted) as [[finalStyles|]|];
    cbn [fileAnalyses option_list]; [reflexivity | reflexivity | now rewrite app_nil_r].
Qed.

(** The records of an analysis are those of the files that could be
    processed, in the order of the scan. *)
Lemma analyzeFiles_fileAnalyses (l : list string) :
  fileAnalyses (analyzeFiles env options l) = omap (fileRecord env options) l.
Proof.
  induction l as [|f l IH] using rev_ind; [reflexivity|].
  rewrite analyzeFiles_snoc, analyzeStep_fileAnalyses, IH, omap_app. f_equal.
Qed.

Lemma length_omap_le {X Y : Type} (f : X -> option Y) (l : list X) :
  (length (omap f l) <= length l)%nat.
Proof.
  unfold omap. induction l as [|x l IH]; [reflexivity|]. simpl.
  destruct (f x); simpl; lia.
Qed.

(** What a record says of its classes. *)
Lemma fileRecord_classes (filePath : string) (r : FileAnalysis.t) :
  fileRecord env options filePath = Some r ->
  NoDup (FileAnalysis.classes r)
  /\ (forall cls,
        cls ∈ FileAnalysis.convertedClasses r
        <-> cls ∈ FileAnalysis.classes r /\ skipped cls = false
            /\ cssTruthy (firstCss (tailwind env) cls) = true)
  /\ (forall cls,
        cls ∈ FileAnalysis.unconvertedClasses r
        <-> cls ∈ FileAnalysis.classes r /\ skipped cls = false
            /\ cssTruthy (firstCss (tailwind env) cls) = false).
Proof.
  unfold fileRecord, extractClassesFromFile.
  destruct (readFileSync env filePath) as [content|]; [|discriminate].
  destruct (fileStyles env options _); [|discriminate]. intros [= <-].
  cbn [FileAnalysis.classes FileAnalysis.convertedClasses
         FileAnalysis.unconvertedClasses].
  split; [apply NoDup_uniq|].
  split; intros cls; rewrite !list_elem_of_In, !filter_In, <- !list_elem_of_In,
    ?negb_true_iff; tauto.
Qed.

End SummaryFacts.

Lemma length_uniq_le (l : list string) : (length (Js.uniq l) <= length l)%nat.
Proof.
  unfold Js.uniq. generalize (@nil string) as seen.
  induction l as [|x l IH]; intros seen; cbn [Js.dedupe length]; [lia|].
  destruct (Js.listIncludes x seen); cbn [length].
  - specialize (IH seen). lia.
  - specialize (IH (x :: seen)). lia.
Qed.

(** X10.  The records of a project analysis are those of the files that
    could be processed, in scan order, and the summary is consistent with
    them: it counts no more files than were scanned, no more unique classes
    than class usages, and the converted and the unconverted classes
    together are no more than the unique classes (a class is never counted
    as both; classes that do not look like utilities are counted as
    neither). *)
Theorem analyzeProject_summary_consistent (env : Analyze.Env)
    (options : Analyze.AnalyzeOptions) (filePaths : list string) :
  let result := Analyze.analyzeProject env options filePaths in
  let summary := ProjectAnalysis.summary result in
  ProjectAnalysis.files result = omap (Analyze.fileRecord env options) filePaths
  /\ Summary.totalFiles summary = Z.of_nat (length (ProjectAnalysis.files result))
  /\ Summary.totalFiles summary <= Z.of_nat (length filePaths)
  /\ Summary.uniqueClasses summary <= Summary.totalClasses summary
  /\ Summary.convertedClasses summary + Summary.unconvertedClasses summary
     <= Summary.uniqueClasses summary
  /\ Summary.detectedPatterns summary
     = Z.of_nat (length (ProjectAnalysis.patterns result)).
Proof.
  cbn zeta.
  cbn [Analyze.analyzeProject ProjectAnalysis.files ProjectAnalysis.summary
         ProjectAnalysis.patterns Summary.totalFiles Summary.uniqueClasses
         Summary.totalClasses Summary.convertedClasses Summary.unconvertedClasses
         Summary.detectedPatterns].
  rewrite analyzeFiles_fileAnalyses.
  set (records := omap (Analyze.fileRecord env options) filePaths).
  assert (Hrec : forall r, r ∈ records ->
                           exists path, Analyze.fileRecord env options path = Some r).
  { intros r Hr. apply list_elem_of_omap in Hr as (path & _ & Hpath). eauto. }
  split; [reflexivity|]. split; [reflexivity|].
  split; [pose proof (length_omap_le (Analyze.fileRecord env options) filePaths);
          fold records in H; lia|].
  split; [pose proof (length_uniq_le (flat_map FileAnalysis.classes records)); lia|].
  split; [|reflexivity].
  rewrite !length_uniq.
  set (C := list_to_set (flat_map FileAnalysis.convertedClasses records) : gset string).
  set (U := list_to_set (flat_map FileAnalysis.unconvertedClasses records) : gset string).
  set (All := list_to_set (flat_map FileAnalysis.classes records) : gset string).
  assert (HC : forall x, x ∈ C ->
                         x ∈ All /\ cssTruthy (firstCss (Analyze.tailwind env) x) = true).
  { intros x Hx. apply elem_of_list_to_set, list_elem_of_In, in_flat_map in Hx
      as (r & Hr & Hx).
    apply list_elem_of_In in Hr, Hx. destruct (Hrec r Hr) as (path & Hpath).
    destruct (fileRecord_classes env options path r Hpath) as (_ & Hconv & _).
    apply Hconv in Hx as (Hcls & _ & Hcss). split; [|exact Hcss].
    apply elem_of_list_to_set, list_elem_of_In, in_flat_map.
    exists r. split; now apply list_elem_of_In. }
  assert (HU : forall x, x ∈ U ->
                         x ∈ All /\ cssTruthy (firstCss (Analyze.tailwind env) x) = false).
  { intros x Hx. apply elem_of_list_to_set, list_elem_of_In, in_flat_map in Hx
      as (r & Hr & Hx).
    apply list_elem_of_In in Hr, Hx. destruct (Hrec r Hr) as (path & Hpath).
    destruct (fileRecord_classes env options path r Hpath) as (_ & _ & Hunc).
    apply Hunc in Hx as (Hcls & _ & Hcss). split; [|exact Hcss].
    apply elem_of_list_to_set, list_elem_of_In, in_flat_map.
    exists r. split; now apply list_elem_of_In. }
  assert (Hdisj : C ## U).
  { intros x HxC HxU. destruct (HC x HxC) as [_ H1], (HU x HxU) as [_ H2]. congruence. }
  assert (Hsub : C ∪ U ⊆ All).
  { intros x Hx. apply elem_of_union in Hx as [Hx | Hx]; [apply HC | apply HU]; exact Hx. }
  pose proof (size_union C U Hdisj) as Hsize.
  pose proof (subseteq_size _ _ Hsub) as Hle. lia.
Qed.

(** ** analyze-project.ts: how many patterns a project can have *)

Section PatternBudget.

Import Analyze.

Variable env : Env.
Variable options : AnalyzeOptions.

Lemma sum_list_with_plus {X : Type} (a b : X -> nat) (l : list X) :
  sum_list_with (fun x => a x + b x)%nat l
  = (sum_list_with a l + sum_list_with b l)%nat.
Proof. induction l as [|x l IH]; cbn [sum_list_with]; lia. Qed.

Lemma sum_list_with_ext {X : Type} (a b : X -> nat) (l : list X) :
  (forall x, x ∈ l -> a x = b x) -> sum_list_with a l = sum_list_with b l.
Proof.
  induction l as [|x l IH]; intros H; cbn [sum_list_with]; [reflexivity|].
  rewrite (H x) by constructor. rewrite IH; [reflexivity|].
  intros y Hy. apply H. now constructor.
Qed.

(** A file is an observation of at most one pattern. *)
Lemma sum_hits_le (o : option string) (hs : list string) :
  NoDup hs ->
  (sum_list_with (fun h => if bool_decide (o = Some h) then 1 else 0) hs
   <= match o with Some _ => 1 | None => 0 end)%nat.
Proof.
  induction 1 as [|h hs Hh Hnd IH]; cbn [sum_list_with]; [lia|].
  destruct (bool_decide (o = Some h)) eqn:Ho.
  - apply bool_decide_eq_true in Ho. subst o.
    rewrite (sum_list_with_ext _ (fun _ => 0%nat)).
    + clear. induction hs as [|x hs IH]; cbn [sum_list_with]; lia.
    + intros x Hx. rewrite bool_decide_eq_false_2; [reflexivity|].
      intros [= <-]. contradiction.
  - exact IH.
Qed.

Lemma observation_fileRecord (f : string) :
  is_Some (observation env options f) -> is_Some (fileRecord env options f).
Proof.
  unfold observation, fileRecord.
  destruct (extractClassesFromFile env f) as [[[classes converted] unconverted]|];
    [|intros [? [=]]].
  destruct (fileStyles env options converted) as [[finalStyles|]|];
    [eauto | intros [? [=]] | intros [? [=]]].
Qed.

(** The observations of distinct patterns are observations of different
    files, each of which has a record. *)
Lemma sum_observations_le (hs l : list string) :
  NoDup hs ->
  (sum_list_with (fun h => length (observations env options h l)) hs
   <= length (omap (fileRecord env options) l))%nat.
Proof.
  intros Hnd. induction l as [|f l IH].
  - cbn. clear. induction hs as [|x hs IH]; cbn [sum_list_with]; [lia | exact IH].
  - rewrite (sum_list_with_ext _
               (fun h => (if bool_decide (observation env options f = Some h)
                          then 1 else 0)
                         + length (observations env options h l))%nat).
    + rewrite sum_list_with_plus.
      pose proof (sum_hits_le (observation env options f) hs Hnd) as Hhit.
      change (f :: l) with ([f] ++ l). rewrite omap_app, length_app.
      assert (Hf : (match observation env options f with Some _ => 1 | None => 0 end
                    <= length (omap (fileRecord env options) [f]))%nat).
      { destruct (observation env options f) as [h|] eqn:Hobs; [|lia].
        destruct (observation_fileRecord f) as [r Hr]; [rewrite Hobs; eauto|].
        cbn. rewrite Hr. cbn. lia. }
      lia.
    + intros h _. unfold observations. cbn [List.filter].
      now destruct (bool_decide (observation env options f = Some h)).
Qed.

(** Patterns of at least [m] observations each: their number times [m]
    is at most the number of all observations. *)
Lemma threshold_budget (m : Z) (cp : list (string * ExtractedPattern.t))
    (l : list string) :
  (forall k p, (k, p) ∈ cp ->
               ExtractedPattern.count p
               = Z.of_nat (length (observations env options k l))) ->
  Z.of_nat (length (List.filter (fun p => m <=? ExtractedPattern.count p)
                      (JsMap.values cp))) * m
  <= Z.of_nat (sum_list_with (fun k => length (observations env options k l))
                 (map fst cp)).
Proof.
  induction cp as [|[k p] cp IH]; intros Hcount; [cbn; lia|].
  cbn [JsMap.values map snd fst List.filter sum_list_with].
  fold (JsMap.values cp).
  assert (IH' := IH (fun k' p' H => Hcount k' p' (list_elem_of_further _ _ _ H))).
  pose proof (Hcount k p ltac:(constructor)) as Hp.
  destruct (m <=? ExtractedPattern.count p) eqn:Hm.
  - apply Z.leb_le in Hm. cbn [length]. lia.
  - lia.
Qed.

End PatternBudget.

(** X11.  A project analysis never reports more patterns than its files
    allow: each processed file is an observation of at most one pattern
    and a detected pattern has at least [minPatternCount] observations, so
    the number of detected patterns times [minPatternCount] is at most the
    number of analysed files. *)
Theorem analyzeProject_pattern_budget (env : Analyze.Env)
    (options : Analyze.AnalyzeOptions) (filePaths : list string) :
  let summary :=
    ProjectAnalysis.summary (Analyze.analyzeProject env options filePaths) in
  Summary.detectedPatterns summary * Analyze.minPatternCount options
  <= Summary.totalFiles summary.
Proof.
  cbn zeta.
  cbn [Analyze.analyzeProject ProjectAnalysis.summary Summary.detectedPatterns
         Summary.totalFiles].
  rewrite analyzeFiles_fileAnalyses. unfold Analyze.detectedPatterns.
  rewrite (sortByCountDesc_perm ExtractedPattern.count).
  destruct (analyzeFiles_patternsTrack env options filePaths) as (Hnd & Hid & Hget).
  etrans; [apply (threshold_budget env options _ _ filePaths)|].
  - intros k p Hin. specialize (Hget k).
    rewrite (elem_get _ _ _ Hnd Hin) in Hget. apply Hget.
  - apply inj_le. now apply sum_observations_le.
Qed.

(** ** tw-context.ts: the cached context *)

Section ContextAccess.

Import TwContext.

Variable loadDesignSystem : string -> option TailwindContext.

#[local] Abbreviation create' := (createTailwindContext loadDesignSystem).

Lemma create_result (i : Input) (st st' : Cache) (result : option DesignSystem) :
  create' i st = (result, st') ->
  match result with
  | Some ds => cachedDesignSystem st' = Some ds /\ cachedCss st' = Some (deriveCss i)
  | None => cachedDesignSystem st' = cachedDesignSystem st
            /\ cachedCss st' = cachedCss st
  end.
Proof.
  unfold createTailwindContext, construct.
  destruct (cachedDesignSystem st) as [cached|] eqn:Hcached.
  - destruct (bool_decide (cachedCss st = Some (deriveCss i))) eqn:Hkey.
    + apply bool_decide_eq_true in Hkey. intros [= <- <-]. auto.
    + destruct (loadDesignSystem (deriveCss i)); intros [= <- <-]; cbn; auto.
  - destruct (loadDesignSystem (deriveCss i)); intros [= <- <-]; cbn; auto.
Qed.

End ContextAccess.

(** X12.  [createTailwindContextSync] throws when nothing is cached, as at
    the start and after [clearTailwindContextCache]; after a call of
    [createTailwindContext] that returned a context it returns that very
    object; and a call of [createTailwindContext] that threw changes
    nothing: the context cached before, if any, is still returned and a
    later call with its CSS text is served from the cache. *)
Theorem createTailwindContextSync_follows_cache
    (loadDesignSystem : string -> option TailwindContext) :
  TwContext.createTailwindContextSync TwContext.emptyCache = None
  /\ (forall st,
        TwContext.createTailwindContextSync (TwContext.clearTailwindContextCache st)
        = None)
  /\ (forall i st ds st',
        TwContext.createTailwindContext loadDesignSystem i st = (Some ds, st') ->
        TwContext.createTailwindContextSync st' = Some ds)
  /\ (forall i st st',
        TwContext.createTailwindContext loadDesignSystem i st = (None, st') ->
        TwContext.createTailwindContextSync st' = TwContext.createTailwindContextSync st
        /\ forall i' ds,
             TwContext.cachedDesignSystem st = Some ds ->
             TwContext.cachedCss st = Some (TwContext.deriveCss i') ->
             TwContext.createTailwindContext loadDesignSystem i' st' = (Some ds, st')).
Proof.
  split; [reflexivity|]. split; [reflexivity|]. split.
  - intros i st ds st' H. apply create_result in H as [H _]. exact H.
  - intros i st st' H. apply create_result in H as [Hds Hcss].
    split; [exact Hds|]. intros i' ds Hcached Hkey.
    apply create_hit; congruence.
Qed.

(** X13.  The content of a configuration is ignored: a text that contains
    none of [@import], [@tailwind] and [@theme], a configuration object and
    no argument at all stand for the default CSS text, so that after a call
    with one of them that returned a context, a call with any other of them
    (as [initTailwindContext] makes) returns the same object from the
    cache.  The text derived from an input always stands for itself. *)
Theorem createTailwindContext_ignores_config
    (loadDesignSystem : string -> option TailwindContext) (text : string) :
  Js.includes "@import" text = false ->
  Js.includes "@tailwind" text = false ->
  Js.includes "@theme" text = false ->
  TwContext.deriveCss (TwContext.CssOrConfigText text) = TwContext.DEFAULT_TAILWIND_CSS
  /\ (forall st ds st',
        TwContext.createTailwindContext loadDesignSystem
          (TwContext.CssOrConfigText text) st = (Some ds, st') ->
        TwContext.initTailwindContext loadDesignSystem st' = (Some ds, st')
        /\ TwContext.createTailwindContext loadDesignSystem TwContext.ConfigObject st'
           = (Some ds, st')
        /\ TwContext.createTailwindContext loadDesignSystem
             (TwContext.CssOrConfigText TwContext.DEFAULT_TAILWIND_CSS) st'
           = (Some ds, st'))
  /\ forall i,
       TwContext.deriveCss (TwContext.CssOrConfigText (TwContext.deriveCss i))
       = TwContext.deriveCss i.
Proof.
  intros H1 H2 H3.
  assert (Hdefault : TwContext.deriveCss
                       (TwContext.CssOrConfigText TwContext.DEFAULT_TAILWIND_CSS)
                     = TwContext.DEFAULT_TAILWIND_CSS) by reflexivity.
  assert (Htext : TwContext.deriveCss (TwContext.CssOrConfigText text)
                  = TwContext.DEFAULT_TAILWIND_CSS).
  { cbn [TwContext.deriveCss]. now rewrite H1, H2, H3. }
  split; [exact Htext|]. split.
  - intros st ds st' H. apply create_result in H as [Hds Hcss]. rewrite Htext in Hcss.
    unfold TwContext.initTailwindContext.
    repeat split; apply create_hit; try exact Hds; rewrite Hcss; now f_equal.
  - intros [t| |]; try exact Hdefault. cbn [TwContext.deriveCss].
    destruct (Js.includes "@import" t || Js.includes "@tailwind" t
              || Js.includes "@theme" t) eqn:Ht; [|exact Hdefault].
    cbn [TwContext.deriveCss]. now rewrite Ht.
Qed.

Lemma createTailwindContext_ignores_config_witness :
  TwContext.deriveCss (TwContext.CssOrConfigText "module.exports = { theme: {} }")
  = TwContext.DEFAULT_TAILWIND_CSS.
Proof.
  apply (createTailwindContext_ignores_config (fun _ => None)
           "module.exports = { theme: {} }"); reflexivity.
Defined.

(** ** Trimming and scanning strings *)

Section TrimFacts.

Lemma string_app_assoc (a b c : string) : (a +:+ b) +:+ c = a +:+ (b +:+ c).
Proof.
  induction a as [|x a IH]; [reflexivity|].
  change (String x ((a +:+ b) +:+ c) = String x (a +:+ (b +:+ c))). now rewrite IH.
Qed.

Lemma string_app_nil_r (a : string) : a +:+ EmptyString = a.
Proof.
  induction a as [|x a IH]; [reflexivity|].
  change (String x (a +:+ EmptyString) = String x a). now rewrite IH.
Qed.

Lemma rev_app_rev_app (y a b : string) :
  String.rev_app (String.rev_app y a) b = String.rev_app a (y +:+ b).
Proof.
  revert a. induction y as [|d y IH]; intros a; [reflexivity|].
  cbn [String.rev_app]. rewrite IH. reflexivity.
Qed.

Lemma rev_app_app (a b c : string) :
  String.rev_app (a +:+ b) c = String.rev_app b (String.rev_app a c).
Proof.
  revert c. induction a as [|x a IH]; intros c; [reflexivity|].
  change (String.rev_app (String x (a +:+ b)) c
          = String.rev_app b (String.rev_app (String x a) c)).
  cbn [String.rev_app]. apply IH.
Qed.

(** A text whose last character is no white space is not trimmed at its
    end. *)
Lemma trimEnd_last (y : string) (c : ascii) :
  Js.isSpace c = false ->
  Js.trimEnd (y +:+ String c EmptyString) = y +:+ String c EmptyString.
Proof.
  intros Hc. unfold Js.trimEnd, String.rev. rewrite rev_app_app.
  cbn [String.rev_app Js.trimStart]. rewrite Hc.
  change (String c (String.rev_app y EmptyString))
    with (String.rev_app (String c EmptyString) (String.rev_app y EmptyString)).
  rewrite <- rev_app_app, rev_app_rev_app. cbn [String.rev_app].
  now rewrite string_app_nil_r.
Qed.

Lemma trimStart_app (r t : string) (c : ascii) :
  Js.isSpace c = false ->
  exists z, Js.trimStart (r +:+ String c t) = z +:+ String c t.
Proof.
  intros Hc. induction r as [|x r IH].
  - exists EmptyString. cbn [Js.trimStart]. change (EmptyString +:+ String c t)
      with (String c t). cbn [Js.trimStart]. now rewrite Hc.
  - change (String x r +:+ String c t) with (String x (r +:+ String c t)).
    cbn [Js.trimStart]. destruct (Js.isSpace x); [exact IH|].
    now exists (String x r).
Qed.

Lemma forallb_app (p : ascii -> bool) (a b : string) :
  Js.forallb p (a +:+ b) = Js.forallb p a && Js.forallb p b.
Proof.
  induction a as [|x a IH]; [reflexivity|].
  change (Js.forallb p (String x (a +:+ b)) = Js.forallb p (String x a) && Js.forallb p b).
  cbn [Js.forallb]. rewrite IH. now rewrite andb_assoc.
Qed.

Lemma forallb_impl (p q : ascii -> bool) (s : string) :
  (forall c, p c = true -> q c = true) ->
  Js.forallb p s = true -> Js.forallb q s = true.
Proof.
  intros Himpl. induction s as [|c s IH]; [reflexivity|]. cbn [Js.forallb].
  rewrite !andb_true_iff. intros [Hc Hs]. auto.
Qed.

Lemma span_spec (p : ascii -> bool) (s : string) :
  fst (Js.span p s) +:+ snd (Js.span p s) = s
  /\ Js.forallb p (fst (Js.span p s)) = true.
Proof.
  induction s as [|c s [IH1 IH2]]; [now split|]. cbn [Js.span].
  destruct (p c) eqn:Hc; [|now split].
  destruct (Js.span p s) as [a b]. cbn [fst snd] in *. split.
  - change (String c (a +:+ b) = String c s). now rewrite IH1.
  - cbn [Js.forallb]. now rewrite Hc, IH2.
Qed.

End TrimFacts.

(** ** tw-class-list-to-panda-styles.ts: the important flag *)

Section ImportantFlag.

Import Styles.

#[local] Abbreviation noBang := (Js.forallb (fun c => negb (Ascii.eqb c "!"))).

Lemma hexColor_noBang (v : string) : hexColor v = true -> noBang v = true.
Proof.
  unfold hexColor. destruct v as [|c h]; [discriminate|].
  destruct (Ascii.eqb_spec c "#") as [-> | Hc].
  - rewrite !andb_true_iff. intros [[Hhex _] _]. cbn [Js.forallb negb Ascii.eqb].
    cbn. revert Hhex. apply forallb_impl.
    intros [[] [] [] [] [] [] [] []]; vm_compute; congruence.
  - intros H. exfalso. revert H.
    destruct c as [[] [] [] [] [] [] [] []]; try discriminate. now destruct Hc.
Qed.

Lemma keywords_noBang (v : string) :
  existsb (fun pattern : string -> bool => pattern v)
    (map (fun kws v => Js.listIncludes v kws) keywordPatterns) = true ->
  noBang v = true.
Proof.
  rewrite existsb_exists. intros (pattern & Hin & Hv).
  apply in_map_iff in Hin as (kws & <- & Hkws).
  apply listIncludes_elem in Hv.
  assert (Hall : Forall (Forall (fun k => noBang k = true)) keywordPatterns)
    by (repeat constructor).
  rewrite Forall_forall in Hall. apply list_elem_of_In in Hkws.
  specialize (Hall kws Hkws). rewrite Forall_forall in Hall. now apply Hall.
Qed.

Lemma numberWithUnit_noBang (v : string) : numberWithUnit v = true -> noBang v = true.
Proof.
  unfold numberWithUnit.
  set (body := match v with String "-" r => r | _ => v end).
  assert (Hv : noBang body = true -> noBang v = true).
  { subst body. destruct v as [|c r]; [auto|].
    destruct c as [[] [] [] [] [] [] [] []]; auto. }
  intros H. apply Hv. clear Hv. revert H.
  destruct (span_spec (fun c => Js.isDigit c || Ascii.eqb c ".") body) as [Hsplit Hnum].
  destruct (Js.span _ body) as [num rest]. cbn [fst snd] in *.
  rewrite andb_true_iff, orb_true_iff. intros [_ Hrest].
  rewrite <- Hsplit, forallb_app, andb_true_iff. split.
  - revert Hnum. apply forallb_impl.
    intros [[] [] [] [] [] [] [] []]; vm_compute; congruence.
  - destruct Hrest as [Hrest | Hrest].
    + apply String.eqb_eq in Hrest. now subst rest.
    + apply listIncludes_elem in Hrest.
      assert (Hall : Forall (fun k => noBang k = true) cssUnits)
        by (repeat constructor).
      rewrite Forall_forall in Hall. now apply Hall.
Qed.

Lemma important_hasBang (raw : string) :
  noBang (Js.trim (raw +:+ " !important")) = false.
Proof.
  unfold Js.trim.
  destruct (trimStart_app (raw +:+ " ") "important" "!" eq_refl) as [z Hz].
  rewrite string_app_assoc in Hz. change (" " +:+ "!important") with " !important" in Hz.
  rewrite Hz.
  change "!important" with ("!importan" +:+ "t"). rewrite <- string_app_assoc.
  rewrite trimEnd_last by reflexivity. rewrite string_app_assoc, forallb_app.
  apply andb_false_r.
Qed.

(** With [ !important] at its end a value matches none of the anchored
    patterns: it is usable only as a colour function, [url(] or [calc(]. *)
Lemma isResolvableValue_important (raw : string) :
  isResolvableValue (raw +:+ " !important") = true ->
  colorFunction (Js.trim (raw +:+ " !important")) = true
  \/ Js.startsWith "url(" (Js.trim (raw +:+ " !important")) = true
  \/ Js.startsWith "calc(" (Js.trim (raw +:+ " !important")) = true.
Proof.
  unfold isResolvableValue. destruct (Js.includes "var(--" _); [discriminate|].
  pose proof (important_hasBang raw) as Hbang.
  set (v := Js.trim (raw +:+ " !important")) in *.
  unfold usablePatterns. rewrite !existsb_app. cbn [existsb].
  rewrite !orb_false_r, !orb_true_iff.
  intros [[Hhex | [Hcolor | Hnum]] | [Hkw | [Hurl | Hcalc]]]; auto.
  - apply hexColor_noBang in Hhex. congruence.
  - apply numberWithUnit_noBang in Hnum. congruence.
  - apply keywords_noBang in Hkw. congruence.
Qed.

End ImportantFlag.

(** X14.  For a class with the important flag every matching token has
    [!] appended to its token name and [ !important] to its raw value.  The
    value of its style is then this raw value, without a [token()] call,
    unless the value starts with a colour function, [url(] or [calc(]: with
    [ !important] at its end it matches none of the other usable patterns. *)
Theorem important_class_keeps_raw_value
    (parseTwClassName : string -> option TailwindClass)
    (parseCssProperties : string -> TailwindContext -> list ParsedCssProperty)
    (className : string) (tailwind : TailwindContext) (panda : PandaContext)
    (info : TailwindClass) (m : MatchingToken) :
  parseTwClassName className = Some info ->
  isImportant info = true ->
  m ∈ Styles.getMatchingTwCandidates parseTwClassName parseCssProperties
        className tailwind panda ->
  (exists name raw,
     Js.truthy name = true
     /\ tokenName m = name +:+ "!"
     /\ rawValue m = raw +:+ " !important")
  /\ (Styles.colorFunction (Js.trim (rawValue m)) = false ->
      Js.startsWith "url(" (Js.trim (rawValue m)) = false ->
      Js.startsWith "calc(" (Js.trim (rawValue m)) = false ->
      Styles.tokenStyles panda m
      = Styles.nestModifiers panda (modifiers info)
          (SObject [(propName m, SValue (rawValue m))])).
Proof.
  intros Hparse Himp Hm. unfold Styles.getMatchingTwCandidates in Hm.
  rewrite Hparse in Hm.
  destruct (negb _ && negb _); [inversion Hm|].
  destruct (head _) as [[css|]|]; try (inversion Hm; fail).
  destruct (Js.truthy css); [|inversion Hm].
  apply list_elem_of_omap in Hm as (ruleProp & _ & Hm).
  unfold Styles.matchingToken in Hm. rewrite Himp in Hm.
  match type of Hm with
  | context [Js.truthy ?t] => set (name := t) in Hm
  end.
  destruct (Js.truthy name) eqn:Hname; cbn [negb] in Hm; [|discriminate].
  injection Hm as <-. cbn [tokenName rawValue propName classInfo]. split.
  - exists name, (cssRawValue ruleProp). auto.
  - intros Hcolor Hurl Hcalc. unfold Styles.tokenStyles.
    cbn [tokenName rawValue propName classInfo]. do 3 f_equal.
    unfold Styles.formatTokenValue.
    destruct (String.eqb _ _); [reflexivity|].
    destruct (Styles.isResolvableValue _) eqn:Hres; [|reflexivity].
    apply isResolvableValue_important in Hres as [H | [H | H]]; congruence.
Qed.

Lemma important_class_keeps_raw_value_witness :
  Styles.tokenStyles Examples.panda
    (mkMatchingToken "backgroundColor" "red.500!" "#ef4444 !important"
       Examples.importantRed)
  = SObject [("backgroundColor", SValue "#ef4444 !important")].
Proof.
  apply (important_class_keeps_raw_value Examples.importantParse
           Examples.parseCssProperties "!bg-red-500" Examples.importantTailwind
           Examples.panda Examples.importantRed);
    try reflexivity.
  vm_compute. constructor.
Defined.

(** ** rewrite-html-to-panda.ts: what a class attribute keeps *)

Section KeptClasses.

Import HtmlRewrite.

Lemma wordsFrom_spec (s : string) :
  forall cur,
    Js.forallb (fun c => negb (Js.isSpace c)) cur = true ->
    Forall (fun w => Js.truthy w = true
                     /\ Js.forallb (fun c => negb (Js.isSpace c)) w = true)
      (wordsFrom cur s).
Proof.
  induction s as [|c s IH]; intros cur Hcur; cbn [wordsFrom].
  - destruct (Js.truthy cur) eqn:Ht; repeat constructor; assumption.
  - destruct (Js.isSpace c) eqn:Hc.
    + destruct (Js.truthy cur) eqn:Ht; [constructor; [now split|]|]; now apply IH.
    + apply IH. rewrite forallb_app, Hcur. cbn [Js.forallb]. now rewrite Hc.
Qed.

Lemma disjoint_filters_NoDup (f g : string -> bool) (l : list string) :
  NoDup l -> (forall x, f x = true -> g x = false) ->
  NoDup (List.filter f l ++ List.filter g l).
Proof.
  intros Hnd Hfg. apply NoDup_app. split; [now apply NoDup_filter_bool|].
  split; [|now apply NoDup_filter_bool].
  intros x Hf Hg. apply elem_of_filter_bool in Hf as [_ Hf], Hg as [_ Hg].
  rewrite (Hfg x Hf) in Hg. discriminate.
Qed.

End KeptClasses.

(** X15.  The conversion of a class attribute splits its classes (the
    words of the attribute, each taken once) like [categorizeClasses]: the
    unconverted classes are the custom classes, never a marker class, and
    the classes to keep are the marker classes followed by the custom
    classes, so that a class is kept exactly when it is a word of the
    attribute that is no Tailwind utility.  When the utilities yield no
    style, the attribute is rewritten to the kept classes alone, or left as
    it is when there are none. *)
Theorem convertClassesToPandaString_keeps_the_rest (env : HtmlRewrite.Env)
    (classString : string) (tailwind : TailwindContext) (panda : PandaContext)
    (shorthands : bool) (c : HtmlRewrite.ConvertedClass) :
  HtmlRewrite.convertClassesToPandaString env classString tailwind panda shorthands
  = Some c ->
  let classList := Js.uniq (HtmlRewrite.words classString) in
  HtmlRewrite.unconverted c = List.filter (Rewrite.isCustom tailwind) classList
  /\ HtmlRewrite.classesToKeep c
     = List.filter Rewrite.isTailwindMarkerClass classList ++ HtmlRewrite.unconverted c
  /\ NoDup (HtmlRewrite.classesToKeep c)
  /\ (forall cls,
        cls ∈ HtmlRewrite.classesToKeep c
        <-> cls ∈ HtmlRewrite.words classString
            /\ Rewrite.isUtility tailwind cls = false)
  /\ (forall cls,
        cls ∈ HtmlRewrite.unconverted c -> Rewrite.isTailwindMarkerClass cls = false)
  /\ (forall cls,
        cls ∈ HtmlRewrite.classesToKeep c ->
        Js.truthy cls = true
        /\ Js.forallb (fun ch => negb (Js.isSpace ch)) cls = true)
  /\ (HtmlRewrite.pandaString c = EmptyString ->
      HtmlRewrite.classAttribute c
      = match HtmlRewrite.classesToKeep c with
        | [] => None
        | _ :: _ =>
            Some ("className=" +:+ HtmlRewrite.quote
                  +:+ Js.join " " (HtmlRewrite.classesToKeep c)
                  +:+ HtmlRewrite.quote)
        end).
Proof.
  intros Hc. cbn zeta.
  set (classList := Js.uniq (HtmlRewrite.words classString)).
  assert (Hshape : HtmlRewrite.unconverted c
                   = List.filter (Rewrite.isCustom tailwind) classList
                   /\ HtmlRewrite.classesToKeep c
                      = List.filter Rewrite.isTailwindMarkerClass classList
                        ++ List.filter (Rewrite.isCustom tailwind) classList).
  { unfold HtmlRewrite.convertClassesToPandaString in Hc. fold classList in Hc.
    rewrite categorizeClasses_filters in Hc.
    cbn [Rewrite.twClasses Rewrite.markerClasses Rewrite.customClasses] in Hc.
    destruct (length _ =? 0)%nat; [injection Hc as <-; now split|].
    destruct (length _ =? 0)%nat; [injection Hc as <-; now split|].
    destruct (HtmlRewrite.mergeCss env _) as [merged|]; [|discriminate].
    destruct (if shorthands then _ else _) as [finalStyles|]; [|discriminate].
    injection Hc as <-. now split. }
  destruct Hshape as [Hunc Hkeep]. rewrite Hunc, Hkeep.
  assert (Hmem : forall cls,
             cls ∈ List.filter Rewrite.isTailwindMarkerClass classList
                   ++ List.filter (Rewrite.isCustom tailwind) classList
             <-> cls ∈ HtmlRewrite.words classString
                 /\ Rewrite.isUtility tailwind cls = false).
  { intros cls. rewrite elem_of_app, !elem_of_filter_bool. unfold classList.
    rewrite elem_of_uniq. unfold Rewrite.isCustom, Rewrite.isUtility.
    destruct (Rewrite.isTailwindMarkerClass cls),
      (cssTruthy (firstCss tailwind cls)); cbn; intuition congruence. }
  split; [reflexivity|]. split; [reflexivity|]. split.
  { apply disjoint_filters_NoDup; [apply NoDup_uniq|].
    intros x Hx. unfold Rewrite.isCustom. now rewrite Hx. }
  split; [exact Hmem|]. split.
  { intros cls Hcls. apply elem_of_filter_bool in Hcls as [_ Hcls].
    unfold Rewrite.isCustom in Hcls. now destruct (Rewrite.isTailwindMarkerClass cls). }
  split.
  { intros cls Hcls. apply Hmem in Hcls as [Hcls _].
    pose proof (wordsFrom_spec classString EmptyString eq_refl) as Hwords.
    rewrite Forall_forall in Hwords. now apply Hwords. }
  intros Hempty. unfold HtmlRewrite.classAttribute. rewrite Hempty, Hkeep.
  cbn [Js.truthy String.eqb negb].
  now destruct (List.filter Rewrite.isTailwindMarkerClass classList
                ++ List.filter (Rewrite.isCustom tailwind) classList).
Qed.

Lemma convertClassesToPandaString_keeps_the_rest_witness :
  HtmlRewrite.classesToKeep
    (HtmlRewrite.mkConvertedClass "{ }" ["card"] ["group"; "card"])
  = List.filter Rewrite.isTailwindMarkerClass
      (Js.uniq (HtmlRewrite.words "group md:hover:bg-red-500  card group"))
    ++ ["card"].
Proof.
  apply (convertClassesToPandaString_keeps_the_rest Examples.htmlEnv
           "group md:hover:bg-red-500  card group" Examples.tailwind Examples.panda
           false (HtmlRewrite.mkConvertedClass "{ }" ["card"] ["group"; "card"])).
  vm_compute. reflexivity.
Defined.

(** ** tw-class-list-to-panda-styles.ts: token paths of theme variables *)

Section TokenPaths.

Import CssProperties.

#[local] Abbreviation noDash := (Js.forallb (fun c => negb (Ascii.eqb c "-"))).

Lemma dashesToDots_noDash (s : string) : noDash (dashesToDots s) = true.
Proof.
  induction s as [|c s IH]; [reflexivity|]. cbn [dashesToDots Js.forallb].
  rewrite IH. now destruct (Ascii.eqb_spec c "-") as [-> | Hc]; [|apply Ascii.eqb_neq in Hc; rewrite Hc].
Qed.

Lemma dashesToDots_id (s : string) : noDash s = true -> dashesToDots s = s.
Proof.
  induction s as [|c s IH]; [reflexivity|]. cbn [dashesToDots Js.forallb].
  rewrite andb_true_iff, negb_true_iff. intros [Hc Hs]. now rewrite Hc, IH.
Qed.

(** A prefix with a dash is no prefix of a text without one. *)
Lemma stripPrefix_noDash (p s : string) :
  noDash s = true -> noDash p = false -> Js.stripPrefix p s = None.
Proof.
  revert s. induction p as [|a p IH]; intros s Hs Hp; [discriminate|].
  destruct s as [|b s]; [reflexivity|]. cbn [Js.stripPrefix].
  destruct (Ascii.eqb_spec a b) as [-> | Hab]; [|reflexivity].
  cbn [Js.forallb] in Hs, Hp. apply andb_true_iff in Hs as [Hb Hs].
  rewrite Hb in Hp. now apply IH.
Qed.

Lemma dropFirstPrefix_noDash (s : string) :
  noDash s = true -> dropFirstPrefix prefixMappings s = s.
Proof.
  intros Hs. unfold prefixMappings. cbn [dropFirstPrefix].
  now rewrite !(stripPrefix_noDash _ s Hs) by reflexivity.
Qed.

End TokenPaths.

(** X16.  The token path of a theme variable holds no dash: after the
    leading [--] and the first (and only the first) of the known prefixes
    are dropped, every dash becomes a dot, so that [--<prefix><rest>] gives
    [<rest>] with dots for each known prefix.  A name without a dash is
    returned as it is; hence taking the token path twice changes nothing. *)
Theorem varNameToTokenPath_shape (varName : string) :
  Js.forallb (fun c => negb (Ascii.eqb c "-"))
    (CssProperties.varNameToTokenPath varName) = true
  /\ (Js.forallb (fun c => negb (Ascii.eqb c "-")) varName = true ->
      CssProperties.varNameToTokenPath varName = varName)
  /\ CssProperties.varNameToTokenPath (CssProperties.varNameToTokenPath varName)
     = CssProperties.varNameToTokenPath varName
  /\ Forall
       (fun p =>
          CssProperties.varNameToTokenPath ("--" +:+ p +:+ varName)
          = CssProperties.dashesToDots varName)
       CssProperties.prefixMappings.
Proof.
  assert (Hid : forall s,
             Js.forallb (fun c => negb (Ascii.eqb c "-")) s = true ->
             CssProperties.varNameToTokenPath s = s).
  { intros s Hs. unfold CssProperties.varNameToTokenPath.
    rewrite (stripPrefix_noDash "--" s Hs eq_refl). cbn [default from_option id].
    rewrite dropFirstPrefix_noDash by exact Hs. now apply dashesToDots_id. }
  split; [apply dashesToDots_noDash|]. split; [apply Hid|].
  split; [apply Hid, dashesToDots_noDash|].
  repeat constructor.
Qed.

(** ** tw-class-list-to-panda-styles.ts: resolving variable references *)

Section VariableReferences.

Import CssProperties.

Lemma stripPrefix_startsWith (p s rest : string) :
  Js.stripPrefix p s = Some rest -> Js.startsWith p s = true.
Proof.
  unfold Js.startsWith. revert s. induction p as [|a p IH]; intros s.
  - now destruct s.
  - destruct s as [|b s]; [discriminate|]. cbn [Js.stripPrefix String.prefix].
    destruct (Ascii.eqb_spec a b) as [-> | Hab]; [|discriminate].
    destruct (ascii_dec b b); [apply IH | contradiction].
Qed.

Lemma stripPrefix_app (p s : string) : Js.stripPrefix p (p +:+ s) = Some s.
Proof.
  induction p as [|a p IH]; [now destruct s|].
  change (String a p +:+ s) with (String a (p +:+ s)). cbn [Js.stripPrefix].
  now rewrite Ascii.eqb_refl.
Qed.

Lemma includes_tail (needle : string) (c : ascii) (r : string) :
  Js.includes needle (String c r) = false -> Js.includes needle r = false.
Proof. cbn [Js.includes]. now intros [_ H]%orb_false_iff. Qed.

Lemma includes_head (needle s : string) :
  Js.includes needle s = false -> Js.startsWith needle s = false.
Proof. destruct s; cbn [Js.includes]; now intros [H _]%orb_false_iff. Qed.

Lemma varMatchesFrom_none (s : string) :
  Js.includes "var(" s = false -> forall skip, varMatchesFrom skip s = [].
Proof.
  induction s as [|c r IH]; intros Hs skip; [reflexivity|].
  cbn [varMatchesFrom]. destruct skip as [|k]; [|apply IH, (includes_tail _ c), Hs].
  unfold matchVarAt.
  destruct (Js.stripPrefix "var(" (String c r)) as [s1|] eqn:Hstrip.
  - apply stripPrefix_startsWith in Hstrip. apply includes_head in Hs. congruence.
  - apply IH, (includes_tail _ c), Hs.
Qed.

Lemma varMatchesFrom_skip_all (s : string) :
  forall skip, (String.length s <= skip)%nat -> varMatchesFrom skip s = [].
Proof.
  induction s as [|c r IH]; intros skip Hlen; [reflexivity|].
  cbn [varMatchesFrom String.length] in *. destruct skip as [|k]; [lia|].
  apply IH. lia.
Qed.

Lemma span_app_stop (p : ascii -> bool) (a t : string) (c : ascii) :
  Js.forallb p a = true -> p c = false ->
  Js.span p (a +:+ String c t) = (a, String c t).
Proof.
  intros Ha Hc. induction a as [|x a IH].
  - change (EmptyString +:+ String c t) with (String c t). cbn [Js.span].
    now rewrite Hc.
  - change (String x a +:+ String c t) with (String x (a +:+ String c t)).
    cbn [Js.span Js.forallb] in *. apply andb_true_iff in Ha as [Hx Ha].
    now rewrite Hx, (IH Ha).
Qed.

(** A value that is one reference has one match, its name. *)
Lemma varMatches_single (group : string) :
  Js.truthy group = true ->
  Js.forallb (fun c => negb (Ascii.eqb c ")")) group = true ->
  varMatches ("var(" +:+ group +:+ ")") = [group].
Proof.
  intros Htruthy Hgroup. unfold varMatches.
  change ("var(" +:+ group +:+ ")")
    with (String "v" ("ar(" +:+ group +:+ ")")).
  cbn [varMatchesFrom].
  change (String "v" ("ar(" +:+ group +:+ ")"))
    with ("var(" +:+ (group +:+ ")")).
  unfold matchVarAt. rewrite stripPrefix_app.
  rewrite (span_app_stop _ group EmptyString ")" Hgroup eq_refl).
  rewrite Htruthy. cbn [negb]. f_equal.
  apply varMatchesFrom_skip_all. rewrite !string_length_app.
  cbn [String.length]. lia.
Qed.

Lemma getSubstitution_plain (matched before after replacement : string) :
  Js.forallb (fun c => negb (Ascii.eqb c "$")) replacement = true ->
  getSubstitution matched before after replacement = replacement.
Proof.
  induction replacement as [|c r IH]; [reflexivity|]. cbn [Js.forallb].
  rewrite andb_true_iff. intros [Hc Hr]. specialize (IH Hr).
  destruct c as [[] [] [] [] [] [] [] []]; try discriminate Hc;
    cbn [getSubstitution]; now rewrite IH.
Qed.

Lemma replaceFirst_whole (search replacement : string) :
  Js.forallb (fun c => negb (Ascii.eqb c "$")) replacement = true ->
  replaceFirst search replacement search = replacement.
Proof.
  intros Hplain. unfold replaceFirst.
  assert (Hsplit : splitAtFirst search search = Some (EmptyString, EmptyString)).
  { pose proof (stripPrefix_app search EmptyString) as H.
    rewrite string_app_nil_r in H. destruct search; cbn [splitAtFirst]; now rewrite H. }
  rewrite Hsplit, getSubstitution_plain by exact Hplain.
  change (EmptyString +:+ replacement +:+ EmptyString)
    with (replacement +:+ EmptyString).
  apply string_app_nil_r.
Qed.

End VariableReferences.

(** X17.  [resolveCssVariable] returns the value as it is when it holds no
    reference [var(], and when the theme resolves no variable to a text that
    is not empty and free of [var(].  A value that is one reference whose
    trimmed name the theme resolves to such a text (free of [$], which
    [replace] would expand) is replaced by that text. *)
Theorem resolveCssVariable_cases (tailwind : TailwindContext) :
  (forall value,
     Js.includes "var(" value = false ->
     CssProperties.resolveCssVariable value tailwind = value)
  /\ (forall value,
        (forall name resolvedValue,
           resolveThemeValue tailwind name = Some resolvedValue ->
           Js.truthy resolvedValue && negb (Js.includes "var(" resolvedValue) = false) ->
        CssProperties.resolveCssVariable value tailwind = value)
  /\ (forall group resolvedValue,
        Js.forallb (fun c => negb (Ascii.eqb c ")")) group = true ->
        Js.truthy (Js.trim group) = true ->
        resolveThemeValue tailwind (Js.trim group) = Some resolvedValue ->
        Js.truthy resolvedValue = true ->
        Js.includes "var(" resolvedValue = false ->
        Js.forallb (fun c => negb (Ascii.eqb c "$")) resolvedValue = true ->
        CssProperties.resolveCssVariable ("var(" +:+ group +:+ ")") tailwind
        = resolvedValue).
Proof.
  split; [|split].
  - intros value Hvalue. unfold CssProperties.resolveCssVariable, CssProperties.varMatches.
    now rewrite varMatchesFrom_none.
  - intros value Hnone. unfold CssProperties.resolveCssVariable.
    induction (CssProperties.varMatches value) as [|g l IH]; [reflexivity|].
    cbn [fold_left]. unfold CssProperties.resolveStep at 2.
    destruct (negb (Js.truthy (Js.trim g))); [exact IH|].
    destruct (resolveThemeValue tailwind (Js.trim g)) as [rv|] eqn:Hrv; [|exact IH].
    now rewrite (Hnone _ _ Hrv).
  - intros group rv Hgroup Hname Hrv Htruthy Hvar Hplain.
    unfold CssProperties.resolveCssVariable.
    rewrite varMatches_single; [|destruct group; [discriminate Hname | reflexivity]
                                |exact Hgroup].
    cbn [fold_left]. unfold CssProperties.resolveStep.
    rewrite Hname, Hrv, Htruthy, Hvar. cbn [negb andb].
    now apply replaceFirst_whole.
Qed.

(** ** tw-class-list-to-panda-styles.ts: the declarations of a rule *)

Section DeclarationFacts.

Import CssProperties.

Lemma forallb_rev_app (p : ascii -> bool) (a b : string) :
  Js.forallb p (String.rev_app a b) = Js.forallb p a && Js.forallb p b.
Proof.
  revert b. induction a as [|x a IH]; intros b; [reflexivity|].
  cbn [String.rev_app Js.forallb]. rewrite IH. cbn [Js.forallb].
  now destruct (p x), (Js.forallb p a).
Qed.

Lemma trimStart_noSpace (s : string) :
  Js.forallb (fun c => negb (Js.isSpace c)) s = true -> Js.trimStart s = s.
Proof.
  destruct s as [|c s]; [reflexivity|]. cbn [Js.forallb Js.trimStart].
  rewrite andb_true_iff, negb_true_iff. now intros [-> _].
Qed.

(** A text without white space is its own trimmed text. *)
Lemma trim_noSpace (s : string) :
  Js.forallb (fun c => negb (Js.isSpace c)) s = true -> Js.trim s = s.
Proof.
  intros Hs. unfold Js.trim, Js.trimEnd. rewrite (trimStart_noSpace s Hs).
  rewrite trimStart_noSpace.
  - unfold String.rev. rewrite rev_app_rev_app. cbn [String.rev_app].
    apply string_app_nil_r.
  - unfold String.rev. rewrite forallb_rev_app, Hs. reflexivity.
Qed.

Lemma isPropertyChar_noSpace (c : ascii) :
  isPropertyChar c = true -> negb (Js.isSpace c) = true.
Proof. destruct c as [[] [] [] [] [] [] [] []]; vm_compute; congruence. Qed.

Lemma matchDeclarationAt_name (s g1 g2 : string) (len : nat) :
  matchDeclarationAt s = Some (g1, g2, len) ->
  Js.truthy g1 = true /\ Js.forallb isPropertyChar g1 = true.
Proof.
  unfold matchDeclarationAt.
  destruct (span_spec isPropertyChar s) as [_ Hname].
  destruct (Js.span isPropertyChar s) as [name r1]. cbn [fst] in Hname.
  destruct (Js.truthy name) eqn:Htruthy; cbn [negb]; [|discriminate].
  destruct (Js.span Js.isSpace r1) as [w1 r2].
  destruct r2 as [|c r3]; [discriminate|].
  destruct (Ascii.eqb_spec c ":") as [-> | Hc].
  - destruct (Js.span Js.isSpace r3) as [w2 r4].
    destruct (Js.span isValueChar r4) as [value r5].
    destruct r5 as [|c' r6]; [discriminate|].
    destruct (Ascii.eqb_spec c' ";") as [-> | Hc'].
    + destruct (Js.truthy value); [intros [= <- _ _]; auto|].
      destruct (String.rev w2); [discriminate | intros [= <- _ _]; auto].
    + intros H. exfalso. revert H.
      destruct c' as [[] [] [] [] [] [] [] []]; try discriminate. now destruct Hc'.
  - intros H. exfalso. revert H.
    destruct c as [[] [] [] [] [] [] [] []]; try discriminate. now destruct Hc.
Qed.

Lemma declarationMatchesFrom_names (s : string) :
  forall skip,
    Forall (fun m => Js.truthy (fst m) = true
                     /\ Js.forallb isPropertyChar (fst m) = true)
      (declarationMatchesFrom skip s).
Proof.
  induction s as [|c r IH]; intros skip; [constructor|].
  cbn [declarationMatchesFrom]. destruct skip as [|k]; [|apply IH].
  destruct (matchDeclarationAt (String c r)) as [[[g1 g2] len]|] eqn:Hm; [|apply IH].
  constructor; [|apply IH]. now apply matchDeclarationAt_name in Hm.
Qed.

Lemma includes_further (needle s : string) (c : ascii) :
  Js.includes needle s = true -> Js.includes needle (String c s) = true.
Proof. intros H. cbn [Js.includes]. rewrite H. apply orb_true_r. Qed.

(** The spacing idiom holds a variable reference. *)
Lemma spacingCalcMatch_reference (s multiplier : string) :
  spacingCalcMatch s = Some multiplier -> Js.includes "var(--" s = true.
Proof.
  induction s as [|c r IH]; cbn [spacingCalcMatch].
  - unfold matchSpacingCalcAt. cbn. discriminate.
  - destruct (matchSpacingCalcAt (String c r)) eqn:Hat.
    + intros _. unfold matchSpacingCalcAt in Hat.
      destruct (Js.stripPrefix "calc(var(--spacing)" (String c r)) as [r1|] eqn:Hstrip;
        [|discriminate].
      clear Hat IH. cbn [Js.stripPrefix] in Hstrip.
      repeat match type of Hstrip with
             | (if Ascii.eqb ?a ?b then _ else _) = _ =>
                 destruct (Ascii.eqb_spec a b) as [<- | _]; [|discriminate Hstrip]
             | match ?x with EmptyString => _ | String _ _ => _ end = _ =>
                 destruct x; [discriminate Hstrip|]
             end.
      reflexivity.
    + intros H. apply includes_further. now apply IH.
Qed.

End DeclarationFacts.

(** The tokenizer on the sample rule gives what the sample tokenizer is
    defined to give. *)
Example parseCssProperties_sample :
  CssProperties.parseCssProperties (fun _ _ => None) Examples.redCss Examples.tailwind
  = Examples.parseCssProperties Examples.redCss Examples.tailwind.
Proof. reflexivity. Qed.

(** X18.  Every property that [parseCssProperties] returns stems from a
    declaration [name: value;] of the text.  Its name is not empty, is made
    of letters and dashes, and is neither a custom property ([--...]) nor
    one of the descriptors [syntax], [inherits] and [initial-value].  When
    the trimmed value holds no reference [var(--], the property is literal:
    its token path and its raw value are both the trimmed value. *)
Theorem parseCssProperties_properties (spacingProduct : string -> string -> option string)
    (css : string) (tailwind : TailwindContext) (p : ParsedCssProperty) :
  p ∈ CssProperties.parseCssProperties spacingProduct css tailwind ->
  Js.truthy (cssPropName p) = true
  /\ Js.forallb CssProperties.isPropertyChar (cssPropName p) = true
  /\ Js.startsWith "--" (cssPropName p) = false
  /\ (cssPropName p ∉ ["syntax"; "inherits"; "initial-value"])
  /\ exists value,
       (cssPropName p, value) ∈ CssProperties.declarationMatches css
       /\ Js.truthy (Js.trim value) = true
       /\ (Js.includes "var(--" (Js.trim value) = false ->
           tokenPath p = Js.trim value /\ cssRawValue p = Js.trim value).
Proof.
  intros Hp. apply list_elem_of_omap in Hp as ([name value] & Hm & Hp).
  pose proof (declarationMatchesFrom_names css 0) as Hnames.
  rewrite Forall_forall in Hnames. destruct (Hnames _ Hm) as [Htruthy Hchars].
  cbn [fst] in Htruthy, Hchars.
  assert (Htrim : Js.trim name = name).
  { apply trim_noSpace. revert Hchars. apply forallb_impl, isPropertyChar_noSpace. }
  unfold CssProperties.declarationProperty in Hp. cbn [fst snd] in Hp.
  rewrite Htrim, Htruthy in Hp. cbn [negb orb] in Hp.
  destruct (Js.truthy (Js.trim value)) eqn:Hvalue; cbn [negb] in Hp; [|discriminate].
  destruct (Js.startsWith "--" name) eqn:Hcustom; [discriminate|].
  destruct (String.eqb_spec name "syntax") as [|Hn1]; [discriminate|].
  destruct (String.eqb_spec name "inherits") as [|Hn2]; [discriminate|].
  destruct (String.eqb_spec name "initial-value") as [|Hn3]; [discriminate|].
  cbn [orb] in Hp.
  assert (Hname : cssPropName p = name).
  { destruct (CssProperties.spacingCalcMatch _); [now injection Hp as <-|].
    destruct (Js.includes "var(--" _); now injection Hp as <-. }
  rewrite Hname. split; [exact Htruthy|]. split; [exact Hchars|].
  split; [exact Hcustom|]. split.
  { rewrite !not_elem_of_cons. repeat split; auto. apply not_elem_of_nil. }
  exists value. split; [exact Hm|]. split; [exact Hvalue|]. intros Hliteral.
  destruct (CssProperties.spacingCalcMatch (Js.trim value)) as [multiplier|] eqn:Hcalc.
  - apply spacingCalcMatch_reference in Hcalc. congruence.
  - rewrite Hliteral in Hp. now injection Hp as <-.
Qed.

Lemma parseCssProperties_properties_witness :
  Js.startsWith "--" "background-color" = false
  /\ Js.forallb CssProperties.isPropertyChar "background-color" = true.
Proof.
  destruct (parseCssProperties_properties (fun _ _ => None) Examples.redCss
              Examples.tailwind
              (mkParsedCssProperty "background-color" "red.500" "#ef4444"))
    as (_ & Hchars & Hcustom & _).
  - vm_compute. constructor.
  - split; [exact Hcustom | exact Hchars].
Defined.

(** ** analyze-project.ts: the scan of the project directory *)

Section ScanFacts.

Import Scan.

Lemma Entry_nested_ind (P : Entry -> Prop) :
  (forall name, P (FileEntry name)) ->
  (forall name entries, Forall P entries -> P (DirectoryEntry name entries)) ->
  (forall name, P (OtherEntry name)) ->
  forall entry, P entry.
Proof.
  intros Hfile Hdir Hother.
  fix IH 1. intros [name | name entries | name]; [apply Hfile | | apply Hother].
  apply Hdir. induction entries as [|e entries IHentries]; constructor;
    [apply IH | exact IHentries].
Qed.

Variable join : string -> string -> string.
Variable relative : string -> string -> string.
Variable include exclude : list string.
Variable cwd : string.

Hypothesis include_supported : Forall (fun p => is_Some (globTokens p)) include.
Hypothesis exclude_supported : Forall (fun p => is_Some (globTokens p)) exclude.

#[local] Abbreviation scanEntry' := (scanEntry join relative include exclude cwd).
#[local] Abbreviation reaches' := (reaches join relative exclude cwd).

Lemma someGlob_total (patterns : list string) (path : string) :
  Forall (fun p => is_Some (globTokens p)) patterns ->
  exists b, someGlob patterns path = Some b.
Proof.
  induction 1 as [|p patterns [tokens Hp] _ IH]; cbn [someGlob]; [eauto|].
  unfold matchGlob. rewrite Hp. cbn. destruct (matchTokens tokens path); eauto.
Qed.

(** The loop over the entries of a directory inside [scanEntry] is the
    loop of [scanDirectory]. *)
Lemma scanEntry_directory (dir name : string) (entries : list Entry) :
  scanEntry' dir (DirectoryEntry name entries)
  = match someGlob exclude (relative cwd (join dir name)) with
    | None => None
    | Some true => Some []
    | Some false =>
        if Js.listIncludes name skippedDirectories then Some []
        else scanDirectory join relative (join dir name) include exclude cwd
               (Some entries)
    end.
Proof.
  cbn [scanEntry entryName].
  destruct (someGlob exclude (relative cwd (join dir name))) as [[|]|]; reflexivity.
Qed.

Lemma reaches_cons (dir : string) (e : Entry) (entries : list Entry) (f : string) :
  reaches' dir (e :: entries) f <-> reaches' dir [e] f \/ reaches' dir entries f.
Proof.
  split.
  - intros H. inversion H as [d es name Hin | d es name inner p Hin Hex Hskip Hinner];
      subst; apply elem_of_cons in Hin as [<- | Hin].
    + left. apply reaches_file. constructor.
    + right. now apply reaches_file.
    + left. eapply reaches_directory; eauto. constructor.
    + right. eapply reaches_directory; eauto.
  - intros [H | H];
      inversion H as [d es name Hin | d es name inner p Hin Hex Hskip Hinner]; subst.
    + apply list_elem_of_singleton in Hin as <-. apply reaches_file. constructor.
    + apply list_elem_of_singleton in Hin as <-. eapply reaches_directory; eauto.
      constructor.
    + apply reaches_file. now constructor.
    + eapply reaches_directory; eauto. now constructor.
Qed.

Lemma reaches_nil (dir f : string) : ~ reaches' dir [] f.
Proof.
  intros H. inversion H as [d es name Hin | d es name inner p Hin]; inversion Hin.
Qed.

(** What the scan of a directory finds: the files that it reaches and
    that the patterns let through. *)
#[local] Abbreviation found dir entries f :=
  (reaches' dir entries f
   /\ someGlob exclude (relative cwd f) = Some false
   /\ someGlob include (relative cwd f) = Some true).

Lemma scanDirectory_entries (dir : string) (entries : list Entry) :
  Forall (fun entry =>
            exists files,
              scanEntry' dir entry = Some files
              /\ forall f, f ∈ files <-> found dir [entry] f) entries ->
  exists files,
    scanDirectory join relative dir include exclude cwd (Some entries) = Some files
    /\ forall f, f ∈ files <-> found dir entries f.
Proof.
  induction 1 as [|e entries (files1 & He & Hfiles1) _ (files2 & Hes & Hfiles2)].
  - exists []. split; [reflexivity|]. intros f. split; [inversion 1|].
    intros (Hreach & _). now apply reaches_nil in Hreach.
  - exists (files1 ++ files2). cbn [scanDirectory foldr] in *. rewrite He, Hes.
    split; [reflexivity|]. intros f. rewrite elem_of_app, Hfiles1, Hfiles2.
    rewrite (reaches_cons dir e entries f). tauto.
Qed.

Lemma scanEntry_spec (entry : Entry) :
  forall dir,
  exists files,
    scanEntry' dir entry = Some files
    /\ forall f, f ∈ files <-> found dir [entry] f.
Proof.
  induction entry as [name | name entries IH | name] using Entry_nested_ind;
    intros dir.
  - cbn [scanEntry entryName].
    destruct (someGlob_total exclude (relative cwd (join dir name)) exclude_supported)
      as [excluded Hex].
    destruct (someGlob_total include (relative cwd (join dir name)) include_supported)
      as [included Hin].
    rewrite Hex, Hin.
    assert (Hpath : forall f, reaches' dir [FileEntry name] f -> f = join dir name).
    { intros f H.
      inversion H as [d es n Hn | d es n inner p Hn]; subst;
        apply list_elem_of_singleton in Hn; now inversion Hn. }
    destruct excluded; [|destruct included].
    + exists []. split; [reflexivity|]. intros f. split; [inversion 1|].
      intros (Hreach & Hex' & _). rewrite (Hpath _ Hreach) in Hex'. congruence.
    + exists [join dir name]. split; [reflexivity|].
      intros f. rewrite list_elem_of_singleton. split.
      * intros ->. repeat split; try assumption. apply reaches_file. constructor.
      * intros (Hreach & _). now apply Hpath.
    + exists []. split; [reflexivity|]. intros f. split; [inversion 1|].
      intros (Hreach & _ & Hin'). rewrite (Hpath _ Hreach) in Hin'. congruence.
  - rewrite scanEntry_directory.
    destruct (someGlob_total exclude (relative cwd (join dir name)) exclude_supported)
      as [excluded Hex].
    rewrite Hex.
    assert (Hinner : forall f,
               reaches' dir [DirectoryEntry name entries] f ->
               excluded = false
               /\ Js.listIncludes name skippedDirectories = false
               /\ reaches' (join dir name) entries f).
    { intros f H.
      inversion H as [d es n Hn | d es n inner p Hn Hex' Hskip Hreach]; subst;
        apply list_elem_of_singleton in Hn; inversion Hn; subst.
      split; [congruence | now split]. }
    destruct excluded.
    { exists []. split; [reflexivity|]. intros f. split; [inversion 1|].
      intros (Hreach & _). now apply Hinner in Hreach as [? _]. }
    destruct (Js.listIncludes name skippedDirectories) eqn:Hskip.
    { exists []. split; [reflexivity|]. intros f. split; [inversion 1|].
      intros (Hreach & _). apply Hinner in Hreach as (_ & ? & _). congruence. }
    destruct (scanDirectory_entries (join dir name) entries)
      as (files & Hscan & Hfiles).
    { eapply Forall_impl; [exact IH|]. intros e He. exact (He (join dir name)). }
    exists files. split; [exact Hscan|]. intros f. rewrite Hfiles. split.
    + intros (H1 & H2). split; [|exact H2].
      eapply reaches_directory; eauto. constructor.
    + intros (H1 & H2). split; [|exact H2]. now apply Hinner in H1 as (_ & _ & H1).
  - cbn [scanEntry entryName].
    destruct (someGlob_total exclude (relative cwd (join dir name)) exclude_supported)
      as [excluded Hex].
    rewrite Hex. exists []. split; [now destruct excluded|].
    intros f. split; [inversion 1|]. intros (Hreach & _).
    inversion Hreach as [d es n Hn | d es n inner p Hn]; subst;
      apply list_elem_of_singleton in Hn; inversion Hn.
Qed.

Lemma scanDirectory_spec (entries : list Entry) :
  exists files,
    scanDirectory join relative cwd include exclude cwd (Some entries) = Some files
    /\ forall f, f ∈ files <-> found cwd entries f.
Proof.
  apply (scanDirectory_entries cwd). apply Forall_forall. intros e _.
  exact (scanEntry_spec e cwd).
Qed.

End ScanFacts.

(** X19.  With patterns of stars, question marks and characters without
    a meaning in regular expressions, and whatever paths [join] and
    [relative] give, the scan of a project returns exactly the files that
    it reaches (through directories that are neither excluded nor among the
    skipped names), each by the path joined from the base along its
    directories, whose path relative to the base matches no exclude pattern
    and some include pattern; a base directory that does not exist gives no
    file. *)
Theorem getFilesToAnalyze_finds_reachable_matches
    (join relative : string -> string -> string) (include exclude : list string)
    (cwd : string) (root : option (list Scan.Entry)) :
  Forall (fun p => is_Some (Scan.globTokens p)) include ->
  Forall (fun p => is_Some (Scan.globTokens p)) exclude ->
  exists files,
    Scan.getFilesToAnalyze join relative cwd (Some include) (Some exclude) root
    = Some files
    /\ forall f,
         f ∈ files
         <-> exists entries,
               root = Some entries
               /\ Scan.reaches join relative exclude cwd cwd entries f
               /\ Scan.someGlob exclude (relative cwd f) = Some false
               /\ Scan.someGlob include (relative cwd f) = Some true.
Proof.
  intros Hinclude Hexclude. unfold Scan.getFilesToAnalyze. cbn [default from_option id].
  destruct root as [entries|].
  - destruct (scanDirectory_spec join relative include exclude cwd Hinclude Hexclude
                entries) as (files & Hscan & Hfiles).
    exists files. split; [exact Hscan|]. intros f. rewrite Hfiles. split.
    + intros H. exists entries. now split.
    + intros (entries' & [= <-] & H). exact H.
  - exists []. split; [reflexivity|]. intros f. split; [inversion 1|].
    intros (entries & [=] & _).
Qed.

Lemma getFilesToAnalyze_finds_reachable_matches_witness :
  Scan.getFilesToAnalyze Examples.joinPath Examples.relativePath "/proj"
    (Some ["src/*.tsx"]) (Some ["**/ui/**"]) (Some Examples.projectTree)
  = Some ["/proj/src/Button.tsx"].
Proof.
  destruct (getFilesToAnalyze_finds_reachable_matches Examples.joinPath
              Examples.relativePath ["src/*.tsx"] ["**/ui/**"]
              "/proj" (Some Examples.projectTree))
    as (files & Hscan & _).
  - repeat constructor; eexists; reflexivity.
  - repeat constructor; eexists; reflexivity.
  - rewrite Hscan. vm_compute in Hscan. symmetry. exact Hscan.
Defined.

(** ** analyze-project.ts: the default patterns *)

Section DefaultPatterns.

Import Scan.

Lemma runThen_split (allowed : ascii -> bool) (rest : string -> bool) (s : string) :
  runThen allowed rest s = true ->
  exists a b, s = a +:+ b /\ Js.forallb allowed a = true /\ rest b = true.
Proof.
  induction s as [|d r IH]; cbn [runThen].
  - rewrite orb_false_r. intros H. now exists EmptyString, EmptyString.
  - intros [H | [Hd H]%andb_true_iff]%orb_true_iff.
    + now exists EmptyString, (String d r).
    + destruct (IH H) as (a & b & -> & Ha & Hb). exists (String d a), b.
      split; [reflexivity|]. cbn [Js.forallb]. now rewrite Hd, Ha.
Qed.

Lemma matchTokens_literals (t s : string) :
  matchTokens (map Literal (list_ascii_of_string t)) s = true -> s = t.
Proof.
  revert s. induction t as [|c t IH]; intros s; cbn [list_ascii_of_string map matchTokens].
  - destruct s; [reflexivity | discriminate].
  - destruct s as [|d s]; [discriminate|].
    intros [Hc Hs]%andb_true_iff. apply Ascii.eqb_eq in Hc as ->. now rewrite (IH s Hs).
Qed.

(** The expression of a pattern [**/*<extension>]: anything, a slash, a
    name without slash, the extension. *)
Lemma nested_file_pattern (extension path : string) :
  matchTokens
    (AnyRun :: Literal "/" :: SegmentRun :: map Literal (list_ascii_of_string extension))
    path = true ->
  exists directory name,
    path = directory +:+ "/" +:+ name +:+ extension
    /\ Js.forallb (fun c => negb (Ascii.eqb c "/")) name = true.
Proof.
  cbn [matchTokens]. intros H.
  apply runThen_split in H as (directory & b & -> & _ & H).
  destruct b as [|d b]; [discriminate|].
  apply andb_true_iff in H as [Hd H]. apply Ascii.eqb_eq in Hd as <-.
  apply runThen_split in H as (name & e & -> & Hname & H).
  apply matchTokens_literals in H as ->. now exists directory, name.
Qed.

Lemma default_include_shape (path : string) :
  someGlob DEFAULT_INCLUDE path = Some true ->
  exists directory name extension,
    path = directory +:+ "/" +:+ name +:+ extension
    /\ extension ∈ [".tsx"; ".jsx"; ".ts"; ".js"; ".html"]
    /\ Js.forallb (fun c => negb (Ascii.eqb c "/")) name = true.
Proof.
  unfold DEFAULT_INCLUDE. cbn [someGlob].
  repeat match goal with
         | |- context [matchGlob ?p path] =>
             let e := eval cbv in (String.substring 4 10 p) in
             change (matchGlob p path)
               with (Some (matchTokens
                             (AnyRun :: Literal "/" :: SegmentRun
                              :: map Literal (list_ascii_of_string e)) path));
             destruct (matchTokens
                         (AnyRun :: Literal "/" :: SegmentRun
                          :: map Literal (list_ascii_of_string e)) path) eqn:?
         end;
    try discriminate; intros _;
    match goal with
    | H : matchTokens _ path = true |- _ =>
        apply nested_file_pattern in H as (directory & name & -> & Hname);
        eexists directory, name, _; split; [reflexivity|]; split; [|exact Hname]
    end;
    repeat (first [apply list_elem_of_here | apply list_elem_of_further]).
Qed.

Lemma includes_slash (a b : string) : Js.includes "/" (a +:+ "/" +:+ b) = true.
Proof.
  induction a as [|c a IH].
  { change (Js.includes "/" (String "/" b) = true). cbn [Js.includes].
    unfold Js.startsWith. cbn [String.prefix].
    destruct (ascii_dec "/" "/"); [now destruct b | contradiction]. }
  change (String c a +:+ "/" +:+ b) with (String c (a +:+ "/" +:+ b)).
  now apply includes_further.
Qed.

End DefaultPatterns.

(** X20.  With the default patterns the scan returns, and every file it
    returns lies in a directory below the base and has one of the five
    extensions: its path relative to the base is a directory path, a slash,
    a name without slash and the extension.  A file whose relative path
    holds no slash, as that of a file of the base directory itself, is never
    returned. *)
Theorem getFilesToAnalyze_default_skips_base_files
    (join relative : string -> string -> string) (cwd : string)
    (root : option (list Scan.Entry)) :
  exists files,
    Scan.getFilesToAnalyze join relative cwd None None root = Some files
    /\ (forall f,
          f ∈ files ->
          exists directory name extension,
            relative cwd f = directory +:+ "/" +:+ name +:+ extension
            /\ extension ∈ [".tsx"; ".jsx"; ".ts"; ".js"; ".html"]
            /\ Js.forallb (fun c => negb (Ascii.eqb c "/")) name = true)
    /\ (forall f, Js.includes "/" (relative cwd f) = false -> f ∉ files)
    /\ (forall entries name,
          root = Some entries -> Scan.FileEntry name ∈ entries ->
          Js.includes "/" (relative cwd (join cwd name)) = false ->
          Scan.reaches join relative Scan.DEFAULT_EXCLUDE cwd cwd entries (join cwd name)
          /\ join cwd name ∉ files).
Proof.
  assert (Hinclude : Forall (fun p => is_Some (Scan.globTokens p)) Scan.DEFAULT_INCLUDE)
    by (repeat constructor; eexists; reflexivity).
  assert (Hexclude : Forall (fun p => is_Some (Scan.globTokens p)) Scan.DEFAULT_EXCLUDE)
    by (repeat constructor; eexists; reflexivity).
  unfold Scan.getFilesToAnalyze. cbn [default from_option id].
  assert (Hfound : exists files,
             Scan.scanDirectory join relative cwd Scan.DEFAULT_INCLUDE
               Scan.DEFAULT_EXCLUDE cwd root = Some files
             /\ forall f, f ∈ files ->
                          Scan.someGlob Scan.DEFAULT_INCLUDE (relative cwd f)
                          = Some true).
  { destruct root as [entries|].
    - destruct (scanDirectory_spec join relative _ _ cwd Hinclude Hexclude entries)
        as (files & Hscan & Hfiles).
      exists files. split; [exact Hscan|]. intros f Hf.
      now apply Hfiles in Hf as (_ & _ & Hin).
    - exists []. split; [reflexivity|]. inversion 1. }
  destruct Hfound as (files & Hscan & Hfiles). exists files.
  assert (Hslash : forall f, Js.includes "/" (relative cwd f) = false -> f ∉ files).
  { intros f Hf Hin. apply Hfiles in Hin.
    apply default_include_shape in Hin as (directory & base & extension & Heq & _).
    now rewrite Heq, includes_slash in Hf. }
  split; [exact Hscan|]. split; [|split; [exact Hslash|]].
  - intros f Hf. apply Hfiles in Hf.
    apply default_include_shape in Hf as (directory & name & extension & -> & H).
    now exists directory, name, extension.
  - intros entries name _ Hentry Hname. split; [now apply Scan.reaches_file|].
    now apply Hslash.
Qed.

(** In the sample project the file of the base directory is left out and
    the installed packages are not entered; with the base [.] the paths
    returned are the relative ones. *)
Example getFilesToAnalyze_sample :
  Scan.getFilesToAnalyze Examples.joinPath Examples.relativePath "/proj" None None
    (Some Examples.projectTree)
  = Some ["/proj/src/Button.tsx"; "/proj/src/ui/card.html"]
  /\ Scan.getFilesToAnalyze Examples.joinPath Examples.relativePath "." None None
       (Some Examples.projectTree)
     = Some ["src/Button.tsx"; "src/ui/card.html"].
Proof. split; reflexivity. Qed.

(** ** From [token()] values back to token usage *)

Section TokenRoundTrip.

Import Analyze.

#[local] Abbreviation notClose := (fun c : ascii => negb (Ascii.eqb c ")")).

Lemma span_isSpace_trimStart (s : string) :
  snd (Js.span Js.isSpace s) = Js.trimStart s.
Proof.
  induction s as [|c s IH]; [reflexivity|]. cbn [Js.span Js.trimStart].
  destruct (Js.isSpace c); [|reflexivity]. now destruct (Js.span Js.isSpace s).
Qed.

Lemma trimStart_app_nonspace (r t : string) (c : ascii) :
  Js.isSpace c = false ->
  Js.trimStart (r +:+ String c t) = Js.trimStart r +:+ String c t.
Proof.
  intros Hc. induction r as [|x r IH].
  - change (Js.trimStart (String c t) = String c t). cbn [Js.trimStart]. now rewrite Hc.
  - change (String x r +:+ String c t) with (String x (r +:+ String c t)).
    cbn [Js.trimStart]. now destruct (Js.isSpace x).
Qed.

(** A scan that a later character stops: it has the result of the scan
    of the text before that character, and it does stop. *)
Lemma span_app_stops (p : ascii -> bool) (x t : string) (c : ascii) :
  p c = false ->
  exists d rest,
    Js.span p (x +:+ String c t) = (fst (Js.span p x), String d rest)
    /\ p d = false.
Proof.
  intros Hc. induction x as [|a x (d & rest & IH & Hd)].
  - exists c, t. change (EmptyString +:+ String c t) with (String c t).
    cbn [Js.span]. now rewrite Hc.
  - change (String a x +:+ String c t) with (String a (x +:+ String c t)).
    cbn [Js.span]. destruct (p a) eqn:Ha.
    + rewrite IH. exists d, rest. now destruct (Js.span p x).
    + exists a, (x +:+ String c t). auto.
Qed.

Lemma includes_app_r (needle a b : string) :
  Js.includes needle (a +:+ b) = false -> Js.includes needle b = false.
Proof.
  induction a as [|c a IH]; [auto|].
  change (String c a +:+ b) with (String c (a +:+ b)).
  intros H. apply IH. eapply includes_tail, H.
Qed.

Lemma includes_trimStart (needle s : string) :
  Js.includes needle s = false -> Js.includes needle (Js.trimStart s) = false.
Proof.
  induction s as [|c s IH]; [auto|]. cbn [Js.trimStart].
  destruct (Js.isSpace c); [|auto]. intros H. eapply IH, includes_tail, H.
Qed.

Lemma prefix_app_close (needle x : string) :
  Js.forallb notClose needle = true ->
  String.prefix needle (x +:+ ")") = true -> String.prefix needle x = true.
Proof.
  revert x. induction needle as [|a needle IH]; intros x Hn; [now destruct x|].
  cbn [Js.forallb] in Hn. apply andb_true_iff in Hn as [Ha Hn].
  destruct x as [|b x].
  - change (EmptyString +:+ ")") with ")". cbn [String.prefix].
    destruct (ascii_dec a ")") as [-> | _]; [discriminate Ha | discriminate].
  - change (String b x +:+ ")") with (String b (x +:+ ")")). cbn [String.prefix].
    destruct (ascii_dec a b); [now apply IH | discriminate].
Qed.

Lemma includes_app_close (needle x : string) :
  Js.forallb notClose needle = true -> Js.truthy needle = true ->
  Js.includes needle x = false -> Js.includes needle (x +:+ ")") = false.
Proof.
  intros Hn Ht. induction x as [|b x IH].
  - intros _. change (EmptyString +:+ ")") with ")". cbn [Js.includes].
    unfold Js.startsWith. destruct needle as [|a needle]; [discriminate Ht|].
    cbn [String.prefix Js.forallb] in *. apply andb_true_iff in Hn as [Ha _].
    destruct (ascii_dec a ")") as [-> | _]; [discriminate Ha|].
    now destruct needle.
  - change (String b x +:+ ")") with (String b (x +:+ ")")). cbn [Js.includes].
    rewrite !orb_false_iff. intros [Hstart Hrest]. split; [|now apply IH].
    unfold Js.startsWith in *.
    destruct (String.prefix needle (String b (x +:+ ")"))) eqn:Hp; [|reflexivity].
    change (String b (x +:+ ")")) with (String b x +:+ ")") in Hp.
    apply prefix_app_close in Hp; [congruence | exact Hn].
Qed.

Lemma tokenMatchesFrom_none (s : string) :
  Js.includes "token(" s = false -> forall skip, tokenMatchesFrom skip s = [].
Proof.
  induction s as [|c r IH]; intros Hs skip; [reflexivity|].
  cbn [tokenMatchesFrom]. destruct skip as [|k]; [|apply IH, (includes_tail _ c), Hs].
  unfold matchTokenAt.
  destruct (Js.stripPrefix "token(" (String c r)) as [s1|] eqn:Hstrip.
  - apply stripPrefix_startsWith in Hstrip. apply includes_head in Hs. congruence.
  - apply IH, (includes_tail _ c), Hs.
Qed.

Lemma tokenMatchesFrom_skip (pre rest : string) :
  tokenMatchesFrom (String.length pre) (pre +:+ rest) = tokenMatchesFrom 0 rest.
Proof.
  induction pre as [|c pre IH]; [reflexivity|].
  change (String c pre +:+ rest) with (String c (pre +:+ rest)).
  cbn [String.length tokenMatchesFrom]. exact IH.
Qed.

Lemma split_app_sep (sep : ascii) (a b : string) :
  Js.forallb (fun c => negb (Ascii.eqb c sep)) a = true ->
  Js.split sep (a +:+ String sep b) = a :: Js.split sep b.
Proof.
  induction a as [|c a IH]; intros Ha.
  - change (EmptyString +:+ String sep b) with (String sep b). cbn [Js.split].
    now rewrite Ascii.eqb_refl.
  - change (String c a +:+ String sep b) with (String c (a +:+ String sep b)).
    cbn [Js.split Js.forallb] in *. apply andb_true_iff in Ha as [Hc Ha].
    apply negb_true_iff in Hc. now rewrite Hc, (IH Ha).
Qed.

Lemma tokenMatchesFrom_match (s pre rest g1 : string) (g2 : option string) :
  s = pre +:+ rest -> pre <> EmptyString ->
  matchTokenAt s = Some (g1, g2, String.length pre) ->
  tokenMatchesFrom 0 s = (g1, g2) :: tokenMatchesFrom 0 rest.
Proof.
  intros -> Hpre Hmatch. destruct pre as [|c pre]; [congruence|].
  change (String c pre +:+ rest) with (String c (pre +:+ rest)) in *.
  cbn [tokenMatchesFrom]. rewrite Hmatch. cbn [String.length]. f_equal.
  replace (S (String.length pre) - 1)%nat with (String.length pre) by lia.
  apply tokenMatchesFrom_skip.
Qed.

(** The one match of the token pattern in a value [token(path, raw)]. *)
Lemma tokenMatches_tokenCall (category name raw : string) :
  let path := category +:+ "." +:+ name in
  let front := fst (Js.span notClose (Js.trimStart raw)) in
  Js.forallb (fun c => negb (Ascii.eqb c "," || Ascii.eqb c ")")) path = true ->
  Js.truthy front = true ->
  Js.includes "token(" raw = false ->
  tokenMatches (Styles.tokenCall category name raw) = [(path, Some front)].
Proof.
  intros path front Hpath Hfront Hraw.
  destruct (span_spec Js.isSpace (String " " (raw +:+ ")"))) as [Hws _].
  pose proof (span_isSpace_trimStart (String " " (raw +:+ ")"))) as Hr3.
  cbn [Js.trimStart] in Hr3. change (Js.isSpace " ") with true in Hr3.
  cbn iota in Hr3. rewrite (trimStart_app_nonspace raw EmptyString ")" eq_refl) in Hr3.
  destruct (span_app_stops notClose (Js.trimStart raw) EmptyString ")" eq_refl)
    as (d & rest & Hbody & Hd).
  assert (d = ")"%char) as -> by (now apply negb_false_iff, Ascii.eqb_eq in Hd).
  destruct (span_spec notClose (Js.trimStart raw +:+ ")")) as [Hsplit _].
  rewrite Hbody in Hsplit. cbn [fst snd] in Hsplit. fold front in Hsplit, Hbody.
  destruct (Js.span Js.isSpace (String " " (raw +:+ ")"))) as [ws r3] eqn:Hspan.
  cbn [fst snd] in Hws, Hr3. subst r3.
  assert (Hpath_truthy : Js.truthy path = true).
  { unfold path. destruct category; reflexivity. }
  assert (Hcall : Styles.tokenCall category name raw
                  = "token(" +:+ (path +:+ String "," (String " " (raw +:+ ")")))).
  { unfold Styles.tokenCall, path. now rewrite !string_app_assoc. }
  assert (Hmatch : matchTokenAt (Styles.tokenCall category name raw)
                   = Some (path, Some front,
                           (6 + String.length path + 1 + String.length ws
                            + String.length front + 1)%nat)).
  { rewrite Hcall. unfold matchTokenAt. rewrite stripPrefix_app.
    rewrite (span_app_stop _ path _ "," Hpath eq_refl). rewrite Hpath_truthy.
    cbn [negb]. rewrite Hspan, Hbody. now rewrite Hfront. }
  unfold tokenMatches.
  rewrite (tokenMatchesFrom_match _
             ("token(" +:+ path +:+ "," +:+ ws +:+ front +:+ ")") rest
             path (Some front)).
  - rewrite tokenMatchesFrom_none; [reflexivity|].
    apply (includes_tail _ ")"), (includes_app_r _ front).
    change (front +:+ String ")" rest) with (front +:+ String ")" rest).
    rewrite Hsplit. rewrite <- (trimStart_app_nonspace raw EmptyString ")" eq_refl).
    apply includes_trimStart. now apply includes_app_close.
  - rewrite Hcall, <- Hws, <- Hsplit. now rewrite !string_app_assoc.
  - discriminate.
  - rewrite Hmatch. do 2 f_equal. rewrite !string_length_app. cbn [String.length]. lia.
Qed.

Lemma forallb_trimStart (p : ascii -> bool) (s : string) :
  Js.forallb p s = true -> Js.forallb p (Js.trimStart s) = true.
Proof.
  induction s as [|c s IH]; [auto|]. cbn [Js.trimStart].
  destruct (Js.isSpace c); [|auto]. cbn [Js.forallb].
  intros [_ H]%andb_true_iff. auto.
Qed.

Lemma forallb_trim (p : ascii -> bool) (s : string) :
  Js.forallb p s = true -> Js.forallb p (Js.trim s) = true.
Proof.
  intros Hs. unfold Js.trim, Js.trimEnd, String.rev.
  rewrite forallb_rev_app, andb_true_r. apply forallb_trimStart.
  rewrite forallb_rev_app, andb_true_r. now apply forallb_trimStart.
Qed.

Lemma trimStart_idem (s : string) : Js.trimStart (Js.trimStart s) = Js.trimStart s.
Proof.
  induction s as [|c s IH]; [reflexivity|]. cbn [Js.trimStart].
  destruct (Js.isSpace c) eqn:Hc; [exact IH|]. cbn [Js.trimStart]. now rewrite Hc.
Qed.

Lemma span_all (p : ascii -> bool) (s : string) :
  Js.forallb p s = true -> Js.span p s = (s, EmptyString).
Proof.
  induction s as [|c s IH]; [reflexivity|]. cbn [Js.forallb Js.span].
  intros [Hc Hs]%andb_true_iff. now rewrite Hc, (IH Hs).
Qed.

(** The fallback read back from a raw value without closing parenthesis
    before its end. *)
Lemma fallbackText_open (text : string) :
  Js.forallb notClose text = true ->
  fallbackText text = Js.trim text
  /\ fallbackText (text +:+ ")") = Js.trim text.
Proof.
  intros Htext. unfold fallbackText.
  pose proof (forallb_trimStart notClose text Htext) as Htrimmed. split.
  - rewrite (span_all _ _ Htrimmed). cbn [fst]. unfold Js.trim.
    now rewrite trimStart_idem.
  - rewrite (trimStart_app_nonspace text EmptyString ")" eq_refl).
    rewrite (span_app_stop _ _ EmptyString ")" Htrimmed eq_refl). cbn [fst].
    unfold Js.trim. now rewrite trimStart_idem.
Qed.

End TokenRoundTrip.

(** X21.  A value [token(category.name, raw)], as [formatTokenValue] writes
    it, is read back by [extractTokensFromStyles] as one use of the token
    with that category and that name.  The value recorded for it is the
    text of [raw] before its first closing parenthesis: the raw value itself
    when it holds none, and a text cut before the parenthesis for a colour
    function such as [rgb(...)]. *)
Theorem token_value_read_back (filePath category name raw : string) :
  Js.truthy category = true ->
  Js.forallb (fun c => negb (Js.isSpace c || Ascii.eqb c "." || Ascii.eqb c ","
                             || Ascii.eqb c ")")) category = true ->
  Js.forallb (fun c => negb (Js.isSpace c || Ascii.eqb c "," || Ascii.eqb c ")"))
    name = true ->
  Js.includes "token(" raw = false ->
  Js.truthy (fst (Js.span (fun c => negb (Ascii.eqb c ")")) (Js.trimStart raw))) = true ->
  Analyze.extractTokensFromStyles (SValue (Styles.tokenCall category name raw))
    filePath []
  = [(category +:+ "." +:+ name,
      TokenUsage.mk category name (Analyze.fallbackText raw) 1 [filePath])]
  /\ (Js.forallb (fun c => negb (Ascii.eqb c ")")) raw = true ->
      Analyze.fallbackText raw = Js.trim raw)
  /\ (forall text,
        Js.forallb (fun c => negb (Ascii.eqb c ")")) text = true ->
        raw = text +:+ ")" ->
        Analyze.fallbackText raw = Js.trim text
        /\ Analyze.fallbackText raw <> Js.trim raw).
Proof.
  intros Hcategory Hcat Hname Hraw Hfront.
  set (path := category +:+ "." +:+ name).
  assert (Hchars : forall p : ascii -> bool,
             p "."%char = true ->
             (forall c, negb (Js.isSpace c || Ascii.eqb c "," || Ascii.eqb c ")") = true
                        -> p c = true) ->
             Js.forallb p path = true).
  { intros p Hdot Hp. unfold path. rewrite !forallb_app. cbn [Js.forallb].
    rewrite Hdot, andb_true_r, andb_true_iff. split.
    - revert Hcat. apply forallb_impl. intros c Hc. apply Hp.
      rewrite !negb_orb, !andb_true_iff in *. tauto.
    - revert Hname. now apply forallb_impl. }
  split; [|split].
  - unfold Analyze.extractTokensFromStyles. cbn [Analyze.walkObject].
    rewrite tokenMatches_tokenCall; try assumption.
    + cbn [fold_left]. unfold Analyze.recordToken. cbn [fst snd]. fold path.
      rewrite trim_noSpace.
      2:{ apply Hchars; [reflexivity|]. intros c Hc.
          rewrite !negb_orb, !andb_true_iff in Hc. tauto. }
      assert (Htruthy : Js.truthy path = true) by (unfold path; now destruct category).
      rewrite Htruthy. unfold path.
      change (category +:+ "." +:+ name) with (category +:+ String "." name).
      rewrite (split_app_sep "." category name).
      2:{ revert Hcat. apply forallb_impl. intros c Hc.
          rewrite !negb_orb, !andb_true_iff in Hc. tauto. }
      cbn [head tail default from_option id]. rewrite Hcategory.
      rewrite (join_split "." name). cbn [JsMap.get JsMap.set fmap option_fmap option_map].
      reflexivity.
    + apply Hchars; [reflexivity|]. intros c Hc.
      rewrite !negb_orb, !andb_true_iff in *. tauto.
  - intros Hopen. now apply fallbackText_open.
  - intros text Htext ->. destruct (fallbackText_open text Htext) as [_ Hcut].
    split; [exact Hcut|]. rewrite Hcut. intros Heq.
    assert (Hall : Js.forallb (fun c => negb (Ascii.eqb c ")")) (Js.trim text) = true)
      by now apply forallb_trim.
    rewrite Heq in Hall. unfold Js.trim in Hall.
    rewrite (trimStart_app_nonspace text EmptyString ")" eq_refl) in Hall.
    rewrite trimEnd_last in Hall by reflexivity.
    rewrite forallb_app in Hall. cbn in Hall. now rewrite andb_false_r in Hall.
Qed.

Lemma token_value_read_back_witness :
  Analyze.extractTokensFromStyles
    (SValue (Styles.tokenCall "colors" "red.500" "#ef4444")) "a.tsx" []
  = [("colors.red.500", TokenUsage.mk "colors" "red.500" "#ef4444" 1 ["a.tsx"])].
Proof.
  apply (token_value_read_back "a.tsx" "colors" "red.500" "#ef4444"); reflexivity.
Defined.

(** The value that is recorded for a colour function lacks its closing
    parenthesis. *)
Example token_value_cut_short :
  map (fun entry => TokenUsage.value (snd entry))
    (Analyze.extractTokensFromStyles
       (SValue (Styles.formatTokenValue "color" "red.500" "rgb(239 68 68)")) "a.tsx" [])
  = ["rgb(239 68 68"].
Proof. vm_compute. reflexivity. Qed.

(** ** The spacing idiom, from the declaration to the style value *)

Section SpacingIdiom.

Import CssProperties Styles.

#[local] Abbreviation digitOrDot := (fun c : ascii => Js.isDigit c || Ascii.eqb c ".").

Lemma includes_needs_first (needle s : string) (c : ascii) :
  Js.startsWith (String c EmptyString) needle = true ->
  Js.forallb (fun d => negb (Ascii.eqb d c)) s = true ->
  Js.includes needle s = false.
Proof.
  intros Hneedle. unfold Js.startsWith in *.
  destruct needle as [|a needle]; [discriminate|]. cbn [String.prefix] in Hneedle.
  destruct (ascii_dec c a) as [<- | _]; [|discriminate]. clear Hneedle.
  induction s as [|d s IH]; intros Hs.
  - reflexivity.
  - cbn [Js.forallb] in Hs. apply andb_true_iff in Hs as [Hd Hs].
    cbn [Js.includes]. rewrite (IH Hs), orb_false_r. unfold Js.startsWith.
    cbn [String.prefix]. destruct (ascii_dec c d) as [<- | _]; [|reflexivity].
    now rewrite Ascii.eqb_refl in Hd.
Qed.

(** The multiplier of the spacing idiom. *)
Lemma spacingCalcMatch_idiom (digits : string) :
  Js.truthy digits = true -> Js.forallb Js.isDigit digits = true ->
  spacingCalcMatch ("calc(var(--spacing) * " +:+ digits +:+ ")") = Some digits.
Proof.
  intros Htruthy Hdigits.
  change ("calc(var(--spacing) * " +:+ digits +:+ ")")
    with (String "c" ("alc(var(--spacing) * " +:+ digits +:+ ")")).
  cbn [spacingCalcMatch].
  change (String "c" ("alc(var(--spacing) * " +:+ digits +:+ ")"))
    with ("calc(var(--spacing)" +:+ String " " (String "*" (String " " (digits +:+ ")")))).
  unfold matchSpacingCalcAt. rewrite stripPrefix_app.
  assert (H1 : snd (Js.span Js.isSpace
                      (String " " (String "*" (String " " (digits +:+ ")")))))
               = String "*" (String " " (digits +:+ ")"))) by reflexivity.
  rewrite H1. rewrite span_isSpace_trimStart.
  assert (Hnospace : Js.forallb (fun c => negb (Js.isSpace c)) (digits +:+ ")") = true).
  { rewrite forallb_app, andb_true_iff. split; [|reflexivity].
    revert Hdigits. apply forallb_impl.
    intros [[] [] [] [] [] [] [] []]; vm_compute; congruence. }
  cbn [Js.trimStart]. change (Js.isSpace " ") with true. cbn iota.
  rewrite (trimStart_noSpace _ Hnospace).
  rewrite (span_app_stop Js.isDigit digits EmptyString ")" Hdigits eq_refl).
  now rewrite Htruthy.
Qed.

Lemma numberWithUnit_rem (product : string) :
  Js.truthy product = true -> Js.forallb digitOrDot product = true ->
  numberWithUnit (product +:+ "rem") = true.
Proof.
  intros Htruthy Hproduct. unfold numberWithUnit.
  destruct product as [|d product]; [discriminate|].
  change (String d product +:+ "rem") with (String d (product +:+ "rem")).
  assert (Hd : digitOrDot d = true).
  { cbn [Js.forallb] in Hproduct. now apply andb_true_iff in Hproduct as [Hd _]. }
  match goal with
  | |- context [Js.span _ ?b] => set (body := b)
  end.
  assert (Hbody : body = String d product +:+ String "r" "em").
  { subst body. clear Htruthy Hproduct.
    destruct d as [[] [] [] [] [] [] [] []]; try reflexivity; discriminate Hd. }
  rewrite Hbody.
  rewrite (span_app_stop digitOrDot _ "em" "r" Hproduct eq_refl).
  reflexivity.
Qed.

End SpacingIdiom.

(** X22.  The spacing idiom: for a declaration whose value is
    [calc(var(--spacing) * n)] with a number [n] written in digits, the
    token path is [n] and, when the theme has a base spacing, the raw value
    is the product of the two numbers followed by [rem].  For a property
    with a token category the style value is then
    [token(category.n, <product>rem)]. *)
Theorem spacing_idiom_becomes_token
    (spacingProduct : string -> string -> option string) (tailwind : TailwindContext)
    (name digits baseSpacing product category : string) :
  Js.truthy name = true ->
  Js.forallb (fun c => Js.isLower c || Ascii.eqb c "-") name = true ->
  Js.startsWith "--" name = false ->
  Styles.PROP_TO_TOKEN_CATEGORY !! Styles.kebabToCamel name = Some category ->
  Js.truthy digits = true ->
  Js.forallb Js.isDigit digits = true ->
  resolveThemeValue tailwind "--spacing" = Some baseSpacing ->
  Js.truthy baseSpacing = true ->
  spacingProduct baseSpacing digits = Some product ->
  Js.truthy product = true ->
  Js.forallb (fun c => Js.isDigit c || Ascii.eqb c ".") product = true ->
  CssProperties.declarationProperty spacingProduct tailwind
    (name, "calc(var(--spacing) * " +:+ digits +:+ ")")
  = Some (mkParsedCssProperty name digits (product +:+ "rem"))
  /\ Styles.formatTokenValue (Styles.kebabToCamel name) digits (product +:+ "rem")
     = Styles.tokenCall category digits (product +:+ "rem").
Proof.
  intros Hname Hchars Hcustom Hcategory Htruthy Hdigits Hbase Hbase_truthy
    Hproduct Hproduct_truthy Hproduct_chars.
  split.
  - unfold CssProperties.declarationProperty. cbn [fst snd].
    rewrite (trim_noSpace name).
    2:{ revert Hchars. apply forallb_impl.
        intros [[] [] [] [] [] [] [] []]; vm_compute; congruence. }
    assert (Hvalue : Js.trim ("calc(var(--spacing) * " +:+ digits +:+ ")")
                     = "calc(var(--spacing) * " +:+ digits +:+ ")").
    { unfold Js.trim.
      change (Js.trimStart ("calc(var(--spacing) * " +:+ digits +:+ ")"))
        with ("calc(var(--spacing) * " +:+ digits +:+ ")").
      rewrite <- string_app_assoc. now apply trimEnd_last. }
    rewrite Hvalue, Hname, Hcustom. cbn [negb orb].
    change (Js.truthy ("calc(var(--spacing) * " +:+ digits +:+ ")")) with true.
    cbn [negb].
    destruct (String.eqb_spec name "syntax") as [-> | _];
      [vm_compute in Hcategory; discriminate|].
    destruct (String.eqb_spec name "inherits") as [-> | _];
      [vm_compute in Hcategory; discriminate|].
    destruct (String.eqb_spec name "initial-value") as [-> | _];
      [vm_compute in Hcategory; discriminate|].
    cbn [orb]. rewrite (spacingCalcMatch_idiom digits Htruthy Hdigits).
    now rewrite Hbase, Hbase_truthy, Hproduct.
  - unfold Styles.formatTokenValue.
    assert (Hne : String.eqb digits (product +:+ "rem") = false).
    { apply String.eqb_neq. intros Heq. rewrite Heq, forallb_app in Hdigits.
      cbn in Hdigits. now rewrite andb_false_r in Hdigits. }
    assert (Hres : Styles.isResolvableValue (product +:+ "rem") = true).
    { unfold Styles.isResolvableValue.
      rewrite (includes_needs_first "var(--" _ "v" eq_refl).
      2:{ rewrite forallb_app, andb_true_iff. split; [|reflexivity].
          revert Hproduct_chars. apply forallb_impl.
          intros [[] [] [] [] [] [] [] []]; vm_compute; congruence. }
      rewrite trim_noSpace.
      2:{ rewrite forallb_app, andb_true_iff. split; [|reflexivity].
          revert Hproduct_chars. apply forallb_impl.
          intros [[] [] [] [] [] [] [] []]; vm_compute; congruence. }
      unfold Styles.usablePatterns. rewrite existsb_app. cbn [existsb].
      rewrite (numberWithUnit_rem product Hproduct_truthy Hproduct_chars).
      now rewrite !orb_true_r. }
    apply categoryLookup_own in Hcategory.
    rewrite Hne, Hres, Hcategory. cbn [negb].
    now rewrite (category_truthy _ _ Hcategory).
Qed.

Lemma spacing_idiom_becomes_token_witness :
  Styles.formatTokenValue "paddingLeft" "4" "1rem" = "token(spacing.4, 1rem)".
Proof.
  apply (spacing_idiom_becomes_token
           (fun _ _ => Some "1")
           (mkTailwindContext (fun _ => []) (fun _ => [])
              (fun name => if String.eqb name "--spacing" then Some "0.25rem" else None))
           "padding-left" "4" "0.25rem" "1" "spacing"); reflexivity.
Defined.

(** ** batch-processor.ts: the output path of an HTML file *)

Section OutputPath.

Import Batch.

Lemma stringToLowerCase_app (a b : string) :
  Js.stringToLowerCase (a +:+ b) = Js.stringToLowerCase a +:+ Js.stringToLowerCase b.
Proof.
  induction a as [|c a IH]; [reflexivity|].
  change (String c a +:+ b) with (String c (a +:+ b)). cbn [Js.stringToLowerCase].
  now rewrite IH.
Qed.

Lemma stringToLowerCase_length (s : string) :
  String.length (Js.stringToLowerCase s) = String.length s.
Proof. induction s as [|c s IH]; [reflexivity|]. cbn. now rewrite IH. Qed.

Lemma rev_app_spec (a b : string) :
  String.rev_app a b = String.rev_app a EmptyString +:+ b.
Proof.
  revert b. induction a as [|c a IH]; intros b; [reflexivity|].
  cbn [String.rev_app]. rewrite (IH (String c b)), (IH (String c EmptyString)).
  now rewrite string_app_assoc.
Qed.

Lemma prefix_app (p s : string) : String.prefix p (p +:+ s) = true.
Proof.
  induction p as [|c p IH]; [now destruct s|].
  change (String c p +:+ s) with (String c (p +:+ s)). cbn [String.prefix].
  destruct (ascii_dec c c); [exact IH | contradiction].
Qed.

Lemma endsWith_app (a p : string) : Js.endsWith p (a +:+ p) = true.
Proof.
  unfold Js.endsWith, String.rev.
  rewrite rev_app_app, (rev_app_spec p (String.rev_app a EmptyString)). apply prefix_app.
Qed.

Lemma substring_app (a b : string) :
  String.substring 0 (String.length a) (a +:+ b) = a.
Proof.
  induction a as [|c a IH]; [now destruct b|].
  change (String c a +:+ b) with (String c (a +:+ b)).
  cbn [String.length String.substring]. now rewrite IH.
Qed.

(** The replacement of the extension, for a path that is a stem and an
    extension [.html] or [.htm] in any case. *)
Lemma replaceHtmlExtension_stem (stem extension : string) :
  Js.stringToLowerCase extension = ".html" \/ Js.stringToLowerCase extension = ".htm" ->
  replaceHtmlExtension (stem +:+ extension) = stem +:+ ".tsx".
Proof.
  intros Hext. unfold replaceHtmlExtension.
  rewrite stringToLowerCase_app, string_length_app.
  pose proof (stringToLowerCase_length extension) as Hlen.
  destruct Hext as [Hext | Hext]; rewrite Hext in *; cbn [String.length] in Hlen.
  - rewrite endsWith_app, <- Hlen.
    replace (String.length stem + 5 - 5)%nat with (String.length stem) by lia.
    now rewrite substring_app.
  - assert (Hhtml : Js.endsWith ".html" (Js.stringToLowerCase stem +:+ ".htm") = false).
    { unfold Js.endsWith, String.rev. rewrite rev_app_app. reflexivity. }
    rewrite Hhtml, endsWith_app, <- Hlen.
    replace (String.length stem + 4 - 4)%nat with (String.length stem) by lia.
    now rewrite substring_app.
Qed.

End OutputPath.

(** X23.  An HTML file is converted beside its source, not over it: for a
    path that is a stem and an extension [.html] or [.htm] in any case,
    whose extension is among the HTML extensions, the output path without
    an output directory is the stem with [.tsx], which differs from the
    path; a file whose extension is not among the HTML extensions keeps its
    path. *)
Theorem outputPathOf_html (env : Batch.Env) (options : Batch.BatchOptions)
    (stem extension : string) :
  Js.stringToLowerCase extension = ".html" \/ Js.stringToLowerCase extension = ".htm" ->
  (Js.listIncludes (Js.stringToLowerCase (Batch.extname env (stem +:+ extension)))
     (Batch.htmlExtensions options) = true ->
   Batch.outDir options = None ->
   Batch.outputPathOf env options (stem +:+ extension) = stem +:+ ".tsx"
   /\ Batch.outputPathOf env options (stem +:+ extension) <> stem +:+ extension)
  /\ (Js.listIncludes (Js.stringToLowerCase (Batch.extname env (stem +:+ extension)))
        (Batch.htmlExtensions options) = false ->
      Batch.outDir options = None ->
      Batch.outputPathOf env options (stem +:+ extension) = stem +:+ extension).
Proof.
  intros Hext. split.
  - intros Hhtml Hout. unfold Batch.outputPathOf. rewrite Hhtml, Hout.
    rewrite (replaceHtmlExtension_stem stem extension Hext). split; [reflexivity|].
    intros Heq. apply string_app_inv_head in Heq. subst extension.
    destruct Hext as [Hext | Hext]; discriminate Hext.
  - intros Hhtml Hout. unfold Batch.outputPathOf. now rewrite Hhtml, Hout.
Qed.

Lemma outputPathOf_html_witness :
  Batch.outputPathOf
    (Batch.mkEnv (fun dir file => dir +:+ "/" +:+ file) (fun _ => ".HTML")
       (fun file _ => file) (fun content _ _ => inr (content, []))
       (fun content _ _ => inr content) (fun output => output)
       (fun file => file) (fun _ => None))
    Examples.batchOptions ("pages/index" +:+ ".HTML")
  = "pages/index" +:+ ".tsx".
Proof.
  apply (outputPathOf_html
           (Batch.mkEnv (fun dir file => dir +:+ "/" +:+ file) (fun _ => ".HTML")
              (fun file _ => file) (fun content _ _ => inr (content, []))
              (fun content _ _ => inr content) (fun output => output)
              (fun file => file) (fun _ => None))
           Examples.batchOptions "pages/index" ".HTML");
    [left|..]; reflexivity.
Defined.

(** ** analyze-project.ts: the dimension of a style key *)

Section Dimensions.

Import Analyze.

Lemma prefix_trans (a b s : string) :
  String.prefix a b = true -> String.prefix b s = true -> String.prefix a s = true.
Proof.
  revert b s. induction a as [|x a IH]; intros b s Hab Hbs; [now destruct s|].
  destruct b as [|y b]; [discriminate Hab|]. destruct s as [|z s]; [discriminate Hbs|].
  cbn [String.prefix] in *.
  destruct (ascii_dec x y) as [->|]; [|discriminate Hab].
  destruct (ascii_dec y z) as [->|]; [|discriminate Hbs].
  now apply (IH b s).
Qed.

Lemma startsWith_includes (needle s : string) :
  Js.startsWith needle s = true -> Js.includes needle s = true.
Proof. intros H. destruct s; cbn [Js.includes]; now rewrite H. Qed.

Lemma includes_of_prefix (a b : string) :
  forall s, Js.includes a b = true -> String.prefix b s = true -> Js.includes a s = true.
Proof.
  induction b as [|y b IH]; intros s Hab Hbs.
  - cbn [Js.includes] in Hab. rewrite orb_false_r in Hab.
    destruct a; [|discriminate Hab]. apply startsWith_includes. now destruct s.
  - destruct s as [|z s]; [discriminate Hbs|].
    cbn [String.prefix] in Hbs. destruct (ascii_dec y z) as [->|]; [|discriminate Hbs].
    cbn [Js.includes] in Hab. apply orb_true_iff in Hab as [Hab | Hab].
    + apply startsWith_includes. unfold Js.startsWith in *.
      apply (prefix_trans a (String z b)); [exact Hab|].
      cbn [String.prefix]. destruct (ascii_dec z z); [exact Hbs | contradiction].
    + apply includes_further. now apply IH.
Qed.

(** A text that holds [b] holds every text that [b] holds. *)
Lemma includes_trans (a b s : string) :
  Js.includes a b = true -> Js.includes b s = true -> Js.includes a s = true.
Proof.
  intros Hab. induction s as [|z s IH]; intros Hbs.
  - cbn [Js.includes] in Hbs. rewrite orb_false_r in Hbs.
    now apply (includes_of_prefix a b).
  - cbn [Js.includes] in Hbs. apply orb_true_iff in Hbs as [Hbs | Hbs].
    + now apply (includes_of_prefix a b).
    + apply includes_further. now apply IH.
Qed.

Lemma includes_none (a b s : string) :
  Js.includes a b = true -> Js.includes a s = false -> Js.includes b s = false.
Proof.
  intros Hab Has. destruct (Js.includes b s) eqn:Hbs; [|reflexivity].
  now rewrite (includes_trans a b s Hab Hbs) in Has.
Qed.

End Dimensions.

(** X24.  The dimension that [inferVariantDimensions] files a style key
    in depends on four texts for the size and four for the visual part:
    a key is a size key exactly when it holds the letter [p], or
    [fontSize], [height] or [width] (the other size properties all hold a
    [p]); otherwise it is a visual key exactly when it holds
    [backgroundColor], [bg], [color] or [borderColor].  So every entry of
    a difference whose key holds a [p], whatever the property, is filed in
    the size part. *)
Theorem dimensionOf_cases (key : string) :
  Analyze.dimensionOf key
  = (if Js.includes "p" key || Js.includes "fontSize" key
        || Js.includes "height" key || Js.includes "width" key
     then Analyze.SizeDimension
     else if Js.includes "backgroundColor" key || Js.includes "bg" key
             || Js.includes "color" key || Js.includes "borderColor" key
     then Analyze.VisualDimension
     else Analyze.OtherDimension)
  /\ (forall (V : Type) (diff : list (string * V)) (value : V),
        (key, value) ∈ diff -> Js.includes "p" key = true ->
        (key, value) ∈ fst (fst (Analyze.splitDiff diff))
        /\ ((key, value) ∉ snd (fst (Analyze.splitDiff diff)))
        /\ ((key, value) ∉ snd (Analyze.splitDiff diff))).
Proof.
  assert (Hcases :
    Analyze.dimensionOf key
    = (if Js.includes "p" key || Js.includes "fontSize" key
          || Js.includes "height" key || Js.includes "width" key
       then Analyze.SizeDimension
       else if Js.includes "backgroundColor" key || Js.includes "bg" key
               || Js.includes "color" key || Js.includes "borderColor" key
       then Analyze.VisualDimension
       else Analyze.OtherDimension)).
  { unfold Analyze.dimensionOf, Analyze.sizeProps, Analyze.visualProps.
    cbn [existsb]. rewrite !orb_false_r.
    destruct (Js.includes "p" key) eqn:Hp.
    - now rewrite !orb_true_r.
    - rewrite (includes_none "p" "padding" key eq_refl Hp),
        (includes_none "p" "paddingX" key eq_refl Hp),
        (includes_none "p" "paddingY" key eq_refl Hp),
        (includes_none "p" "px" key eq_refl Hp),
        (includes_none "p" "py" key eq_refl Hp),
        (includes_none "p" "gap" key eq_refl Hp).
      destruct (Js.includes "fontSize" key), (Js.includes "height" key),
        (Js.includes "width" key); cbn [orb]; try reflexivity.
      destruct (Js.includes "bg" key) eqn:Hbg.
      + now rewrite !orb_true_r.
      + rewrite (includes_none "bg" "bgColor" key eq_refl Hbg).
        now destruct (Js.includes "backgroundColor" key), (Js.includes "color" key),
          (Js.includes "borderColor" key). }
  split; [exact Hcases|].
  intros V diff value Hin Hp. rewrite Hp in Hcases. cbn [orb] in Hcases.
  unfold Analyze.splitDiff. cbn [fst snd].
  rewrite !list_elem_of_In, !filter_In, <- !list_elem_of_In. cbn [fst].
  rewrite Hcases. repeat split; [exact Hin | intros [_ H]; discriminate H ..].
Qed.

Lemma dimensionOf_cases_witness :
  ("opacity", "0.5")
    ∈ fst (fst (Analyze.splitDiff [("opacity", "0.5"); ("color", "red")])).
Proof.
  apply (dimensionOf_cases "opacity"); [|reflexivity].
  apply list_elem_of_here.
Defined.

(** ** html-to-jsx.ts: component names *)

Section PascalCase.

Import HtmlToJsx.

#[local] Abbreviation noSeparator :=
  (Js.forallb (fun c => negb (isNameSeparator c))).

Lemma join_empty_cons (x : string) (l : list string) :
  Js.join EmptyString (x :: l) = x +:+ Js.join EmptyString l.
Proof.
  destruct l as [|y l]; [symmetry; apply string_app_nil_r | reflexivity].
Qed.

(** The pieces of a text, capitalized and joined, are the text read by
    characters; the first piece in lower case followed by the others
    capitalized is the text read from inside a word. *)
Lemma splitNames_characters (s : string) :
  (forall inRun,
     Js.join EmptyString (map capitalize (splitNames inRun s)) = pascalCharacters true s)
  /\ exists h t,
       splitNames false s = h :: t
       /\ pascalCharacters false s
          = Js.stringToLowerCase h +:+ Js.join EmptyString (map capitalize t).
Proof.
  induction s as [|c r [IH1 (h & t & Hsplit & IH2)]].
  - split; [reflexivity|]. now exists EmptyString, [].
  - cbn [splitNames pascalCharacters]. destruct (isNameSeparator c) eqn:Hc.
    + split.
      * intros [|]; [apply IH1|]. cbn [map]. rewrite join_empty_cons. apply IH1.
      * exists EmptyString, (splitNames true r). split; [reflexivity|].
        symmetry. apply IH1.
    + rewrite Hsplit. split.
      * intros _. cbn [map capitalize]. rewrite join_empty_cons.
        change (String (Js.toUpperCase c) (Js.stringToLowerCase h) +:+ ?x)
          with (String (Js.toUpperCase c) (Js.stringToLowerCase h +:+ x)).
        now rewrite IH2.
      * exists (String c h), t. split; [reflexivity|]. now rewrite IH2.
Qed.

Lemma toUpperCase_noSeparator (c : ascii) :
  isNameSeparator c = false -> isNameSeparator (Js.toUpperCase c) = false.
Proof. destruct c as [[] [] [] [] [] [] [] []]; vm_compute; auto. Qed.

Lemma toLowerCase_noSeparator (c : ascii) :
  isNameSeparator c = false -> isNameSeparator (Js.toLowerCase c) = false.
Proof. destruct c as [[] [] [] [] [] [] [] []]; vm_compute; auto. Qed.

Lemma pascalCharacters_noSeparator (s : string) :
  forall wordStart, noSeparator (pascalCharacters wordStart s) = true.
Proof.
  induction s as [|c r IH]; intros wordStart; [reflexivity|].
  cbn [pascalCharacters]. destruct (isNameSeparator c) eqn:Hc; [apply IH|].
  cbn [Js.forallb]. rewrite IH, andb_true_r.
  destruct wordStart;
    [rewrite toUpperCase_noSeparator | rewrite toLowerCase_noSeparator]; auto.
Qed.

Lemma pascalCharacters_inside (s : string) :
  noSeparator s = true -> pascalCharacters false s = Js.stringToLowerCase s.
Proof.
  induction s as [|c r IH]; [reflexivity|]. cbn [Js.forallb pascalCharacters].
  intros [Hc Hr]%andb_true_iff. apply negb_true_iff in Hc. rewrite Hc.
  cbn [Js.stringToLowerCase]. now rewrite IH.
Qed.

Lemma pascalCharacters_app (a b : string) (sep : ascii) :
  isNameSeparator sep = true ->
  forall wordStart,
    pascalCharacters wordStart (a +:+ String sep b)
    = pascalCharacters wordStart a +:+ pascalCharacters true b.
Proof.
  intros Hsep. induction a as [|c a IH]; intros wordStart.
  - change (EmptyString +:+ String sep b) with (String sep b).
    cbn [pascalCharacters]. now rewrite Hsep.
  - change (String c a +:+ String sep b) with (String c (a +:+ String sep b)).
    cbn [pascalCharacters]. destruct (isNameSeparator c); [apply IH|].
    now rewrite IH.
Qed.

End PascalCase.

(** X25.  [toPascalCase] drops the dashes, underscores and white space of
    a name, puts the first character of each word in upper case and every
    other character in lower case.  So the result holds no separator, the
    conversion of two parts around a separator is the two conversions one
    after the other, and a name without separators keeps only its first
    capital: the capitals inside it are lowered.  A file name without
    separators gives such a component name when no name is chosen. *)
Theorem toPascalCase_by_characters (str : string) :
  HtmlToJsx.toPascalCase str = HtmlToJsx.pascalCharacters true str
  /\ Js.forallb (fun c => negb (HtmlToJsx.isNameSeparator c))
       (HtmlToJsx.toPascalCase str) = true
  /\ (forall sep rest,
        HtmlToJsx.isNameSeparator sep = true ->
        HtmlToJsx.toPascalCase (str +:+ String sep rest)
        = HtmlToJsx.toPascalCase str +:+ HtmlToJsx.toPascalCase rest)
  /\ (forall c r,
        str = String c r ->
        Js.forallb (fun c => negb (HtmlToJsx.isNameSeparator c)) str = true ->
        HtmlToJsx.toPascalCase str = String (Js.toUpperCase c) (Js.stringToLowerCase r)
        /\ HtmlRewrite.componentName None (Some str)
           = String (Js.toUpperCase c) (Js.stringToLowerCase r)).
Proof.
  assert (Hchars : forall s,
            HtmlToJsx.toPascalCase s = HtmlToJsx.pascalCharacters true s).
  { intros s. apply (proj1 (splitNames_characters s) false). }
  split; [apply Hchars|]. split; [|split].
  - rewrite Hchars. apply pascalCharacters_noSeparator.
  - intros sep rest Hsep. rewrite !Hchars. now apply pascalCharacters_app.
  - intros c r -> Hno.
    assert (Hword : HtmlToJsx.toPascalCase (String c r)
                    = String (Js.toUpperCase c) (Js.stringToLowerCase r)).
    { rewrite Hchars. cbn [Js.forallb] in Hno. apply andb_true_iff in Hno as [Hc Hr].
      apply negb_true_iff in Hc. cbn [HtmlToJsx.pascalCharacters]. rewrite Hc.
      now rewrite pascalCharacters_inside. }
    split; [exact Hword|]. unfold HtmlRewrite.componentName. now rewrite Hword.
Qed.

(** The file name [UserProfile] gives the component [Userprofile], and
    [user-profile] gives [UserProfile]. *)
Example toPascalCase_samples :
  HtmlToJsx.toPascalCase "UserProfile" = "Userprofile"
  /\ HtmlToJsx.toPascalCase "user-profile" = "UserProfile"
  /\ HtmlToJsx.toPascalCase "my_page  two" = "MyPageTwo"
  /\ HtmlToJsx.toPascalCase "-a-" = "A".
Proof. repeat split. Qed.
